(** * NEO-6M GPS time sync: framing, checksums and the time authority

    A shallow embedding of the Arduino sketches of the repository:

    - [src/GPSTime.ino] (SoftwareSerial sketch, 200-byte sentence buffer,
      String-based field extraction, a single [gpsInternalClock] flag);
    - [src/unnamed/part_001] (AltSoftSerial sketch, 100-byte sentence buffer,
      pointer-based field extraction, the [_gpsStatus] bit flags);
    - [src/unnamed/part_000] (earliest sketch; only its String-based
      [CheckSum] is embedded, as the sibling of the pointer-based one).

    Target platform.  The sketches are written for the ATmega328 (named in
    the header comments of both sketches) and rely on it: the row count of
    the sentence tables is computed as [sizeof(spamList)/2], which is the
    number of entries only where a pointer is two bytes wide.  On that
    target [int] is 16 bits wide, [unsigned long] and [time_t] are 32 bits
    wide and [char] is 8 bits wide.  Integers are modelled in [Z] with the
    conversions written out.

    Bytes are represented by their bit pattern, a [Z] in [0, 256). *)

From Stdlib Require Import ZArith Lia String Ascii.
From stdpp Require Import base numbers list strings.
Open Scope Z_scope.

(** ** Machine integers *)

(** Conversion to [int] (16 bits, two's complement). *)
Definition to_int (z : Z) : Z := (z + 32768) mod 65536 - 32768.

(** Conversion to [unsigned int] / [size_t] (16 bits). *)
Definition to_uint (z : Z) : Z := z mod 65536.

(** Conversion to [unsigned long] / [time_t] (32 bits). *)
Definition to_time_t (z : Z) : Z := z mod 4294967296.

(** Conversion to [uint8_t] / the bit pattern of a [char]. *)
Definition to_uint8 (z : Z) : Z := z mod 256.

(** [(byte)c] followed by the promotion to [int]: the value of the bit
    pattern. *)
Definition cast_byte (c : Z) : Z := to_uint8 c.

(** [(char)c] followed by the promotion to [int]: [char] is signed, the
    promotion extends the sign. *)
Definition cast_char (c : Z) : Z :=
  let u := to_uint8 c in if u <? 128 then u else u - 256.

(** ** Characters and string literals *)

Fixpoint bytes_of (s : string) : list Z :=
  match s with
  | EmptyString => []
  | String a s' => Z.of_N (N_of_ascii a) :: bytes_of s'
  end.

Definition ch_NUL : Z := 0.
Definition ch_LF : Z := 10.      (* 0x0A *)
Definition ch_CR : Z := 13.      (* 0x0D *)
Definition ch_dollar : Z := 36.  (* '$' *)
Definition ch_star : Z := 42.    (* '*' *)
Definition ch_comma : Z := 44.   (* ',' *)

(** A multi-character constant such as ['$GPRMC'] is an [int]; passed to a
    [char] parameter it is reduced to its low byte, which gcc makes the last
    character written. *)
Definition multichar (s : string) : Z := to_uint8 (default 0 (last (bytes_of s))).

(** ** C arrays and C strings *)

(** [p[i]] for reading.  Inside the array it is the element; the sketches
    never test an index before reading, and a read outside the array (which
    C leaves undefined) yields NUL in the model. *)
Definition char_at (p : list Z) (i : Z) : Z :=
  if i <? 0 then 0 else nth (Z.to_nat i) p 0.

(** [memset(buf, 0, sizeof(buf))]. *)
Definition memset0 (size : Z) : list Z := replicate (Z.to_nat size) 0.

(** The characters of the C string held in an array: everything before the
    first NUL (the whole array when it holds none). *)
Fixpoint cstr (p : list Z) : list Z :=
  match p with
  | [] => []
  | c :: p' => if c =? 0 then [] else c :: cstr p'
  end.

Definition strlen (p : list Z) : Z := Z.of_nat (length (cstr p)).

Fixpoint prefixb (needle hay : list Z) : bool :=
  match needle, hay with
  | [], _ => true
  | a :: n', b :: h' => (a =? b) && prefixb n' h'
  | _ :: _, [] => false
  end.

Fixpoint strstr_from (hay needle : list Z) (i : Z) : option Z :=
  if prefixb needle hay then Some i
  else match hay with
       | [] => None
       | _ :: h' => strstr_from h' needle (i + 1)
       end.

(** [strstr(p, needle)]: offset of the first occurrence, [None] for NULL. *)
Definition strstr (p : list Z) (needle : string) : option Z :=
  strstr_from (cstr p) (bytes_of needle) 0.

Definition isspace (c : Z) : bool :=
  (c =? 32) || ((9 <=? c) && (c <=? 13)).

Definition isdigit (c : Z) : bool := (48 <=? c) && (c <=? 57).

Fixpoint skip_space (s : list Z) : list Z :=
  match s with
  | c :: s' => if isspace c then skip_space s' else s
  | [] => []
  end.

Fixpoint digits_value (s : list Z) (acc : Z) : Z :=
  match s with
  | c :: s' => if isdigit c then digits_value s' (10 * acc + (c - 48)) else acc
  | [] => acc
  end.

(** [atoi] / [atol] of a C string: blanks, an optional sign, digits.  The
    sketches only convert strings of at most two characters, far from any
    overflow. *)
Definition atoi (p : list Z) : Z :=
  match skip_space (cstr p) with
  | 45 :: s => - digits_value s 0
  | 43 :: s => digits_value s 0
  | s => digits_value s 0
  end.

(** ** sprintf *)

Definition hexdigit (d : Z) : Z := if d <? 10 then 48 + d else 55 + d.

(** [sprintf(Calc, "%02X", i)] with [i] an [int]: the 16-bit pattern in
    upper-case hexadecimal, at least two digits, then NUL. *)
Definition sprintf_02X (i : Z) : list Z :=
  let u := to_uint i in
  (if u <? 256 then [hexdigit (u / 16); hexdigit (u mod 16)]
   else if u <? 4096 then
     [hexdigit (u / 256); hexdigit (u / 16 mod 16); hexdigit (u mod 16)]
   else
     [hexdigit (u / 4096); hexdigit (u / 256 mod 16);
      hexdigit (u / 16 mod 16); hexdigit (u mod 16)]) ++ [0].

Fixpoint dec_digits (fuel : nat) (n : Z) (acc : list Z) : list Z :=
  match fuel with
  | O => acc
  | S f =>
      let acc' := (48 + n mod 10) :: acc in
      if n / 10 =? 0 then acc' else dec_digits f (n / 10) acc'
  end.

(** ["%d"] of a value that is not negative (five digits cover an [int]). *)
Definition sprintf_d (n : Z) : list Z := dec_digits 5 n [].

(** ** Checksum codec *)

(** The loop [for (x = lo; x < hi; x++) iChecksum = iChecksum ^ cast(p[x])]
    started from [iChecksum = 0]. *)
Definition xor_loop (cast : Z -> Z) (p : list Z) (lo hi : Z) : Z :=
  fold_left (fun iChecksum x => Z.lxor iChecksum (cast (char_at p x)))
            (seqZ lo (hi - lo)) 0.

(** [SetCheckSum(pPacket, bufferSize)] of GPSTime.ino (lines 284-304) and of
    part_001 (lines 417-437); [cast] is [(byte)] in the former and [(char)]
    in the latter.  Returns [bResult] and the array after the call. *)
Definition SetCheckSum (cast : Z -> Z) (pPacket : list Z) (bufferSize : Z)
  : bool * list Z :=
  let iSize := strlen pPacket in
  if iSize + 5 <=? bufferSize then
    let iChecksum := xor_loop cast pPacket 1 iSize in
    let Calc := sprintf_02X iChecksum in
    let p1 := <[Z.to_nat iSize := ch_star]> pPacket in
    let p2 := <[Z.to_nat (iSize + 1) := char_at Calc 0]> p1 in
    let p3 := <[Z.to_nat (iSize + 2) := char_at Calc 1]> p2 in
    let p4 := <[Z.to_nat (iSize + 3) := ch_CR]> p3 in
    let p5 := <[Z.to_nat (iSize + 4) := ch_LF]> p4 in
    (true, p5)
  else (false, pPacket).

(** The search loop of [CheckSum]: the first [x < iSize] with
    [pPacket[x] == '*'], and 0 when there is none. *)
Fixpoint find_asterisk (pPacket : list Z) (xs : list Z) : Z :=
  match xs with
  | [] => 0
  | x :: xs' => if char_at pPacket x =? ch_star then x else find_asterisk pPacket xs'
  end.

(** [CheckSum(pPacket)] of GPSTime.ino (lines 306-333) and of part_001
    (lines 439-466).  The result is [*csIN == *Calc]: the first characters
    of the two arrays. *)
Definition CheckSum (cast : Z -> Z) (pPacket : list Z) : bool :=
  let iSize := strlen pPacket in
  if 10 <? iSize then
    let iAstericks := find_asterisk pPacket (seqZ 0 iSize) in
    if 0 <? iAstericks then
      let csIN := [char_at pPacket (iAstericks + 1);
                   char_at pPacket (iAstericks + 2); 0] in
      let iChecksum := xor_loop cast pPacket 1 iAstericks in
      let Calc := sprintf_02X iChecksum in
      char_at csIN 0 =? char_at Calc 0
    else false
  else false.


(** ** Observable effects *)

(** Values passed to [EEPROM.put]. *)
Inductive eevalue :=
| EEbool (b : bool)
| EEtime (t : Z)
| EEchar (c : Z)
| EEsettings (lastGPSFix : Z) (gpsFixType : Z).

(** What a call sends to the console, to the receiver and to the EEPROM, in
    program order. *)
Inductive event :=
| Serial_print (msg : string)                (* Serial.print / println of a literal *)
| Serial_chars (cs : list Z)                 (* characters of a buffer sent to Serial *)
| Serial_mismatch (decay : Z) (src : string) (* "TIME mismatch: %d seconds, resync using:" *)
| gpsSerial_write (cs : list Z)              (* characters sent to the receiver *)
| EEPROM_put (addr : Z) (v : eevalue).

(** The loop [for (x = 0; x < sizeof(buf); x++) if (buf[x] != 0) print(buf[x])]. *)
Definition nonzero_chars (buf : list Z) : list Z :=
  filter (fun c => c <> 0) buf.

(** ** The sentence framer (first half of [ProcessGPS]) *)

(** The two sketches that frame sentences with the same loop. *)
Inductive sketch :=
| Sk_GPSTime    (* src/GPSTime.ino, ProcessGPS lines 335-397 *)
| Sk_part001.   (* src/unnamed/part_001, ProcessGPS lines 189-258 *)

(** [sizeof(gpsResponse)]: [char gpsResponse[200]] and [char _gpsResponse[100]]. *)
Definition sizeof_gpsResponse (k : sketch) : Z :=
  match k with Sk_GPSTime => 200 | Sk_part001 => 100 end.

Definition overflow_msg (k : sketch) : string :=
  match k with
  | Sk_GPSTime => "MEMORY OVERFLOW"
  | Sk_part001 => "GPS MEMORY OVERFLOW"
  end.

(** The globals [buildingSentence], [gpsResponse] and [packetOffset]. *)
Record RawFrame := {
  buildingSentence : bool;
  gpsResponse : list Z;
  packetOffset : Z
}.

Definition frame_init (k : sketch) : RawFrame :=
  {| buildingSentence := false;
     gpsResponse := memset0 (sizeof_gpsResponse k);
     packetOffset := 0 |}.

(** Array accesses of the framing loop, checked: [None] is an access outside
    the array. *)
Definition store (a : list Z) (i v : Z) : option (list Z) :=
  if (0 <=? i) && (i <? Z.of_nat (length a))
  then Some (<[Z.to_nat i := v]> a) else None.

Definition load (a : list Z) (i : Z) : option Z :=
  if (0 <=? i) && (i <? Z.of_nat (length a))
  then Some (char_at a i) else None.

(** [packetOffset++] on an [int]. *)
Definition incr_offset (f : RawFrame) (buf : list Z) (po : Z) : RawFrame :=
  {| buildingSentence := buildingSentence f;
     gpsResponse := buf;
     packetOffset := to_int (po + 1) |}.

(** One iteration of [while (gpsSerial.available() > 0)] with [c] the byte
    read.  The boolean is [true] when the iteration leaves the loop through
    [break] with [bFullSentence] set. *)
Definition loop_body (k : sketch) (f : RawFrame) (c : Z)
  : option (RawFrame * bool * list event) :=
  let size := sizeof_gpsResponse k in
  let '(buf0, po0, ev0) :=
    if size <=? to_uint (packetOffset f)
    then (memset0 size, 0, [Serial_print (overflow_msg k)])
    else (gpsResponse f, packetOffset f, []) in
  if c =? ch_dollar then
    let ev1 :=
      match k with
      | Sk_part001 =>
          if po0 =? 0 then []
          else [Serial_print "GPS BUFFER RESET:"; Serial_chars (nonzero_chars buf0)]
      | Sk_GPSTime => []
      end in
    let buf1 := if po0 =? 0 then buf0 else memset0 size in
    buf2 ← store buf1 0 c;
    Some ({| buildingSentence := true; gpsResponse := buf2; packetOffset := 1 |},
          false, ev0 ++ ev1)
  else
    buf1 ← store buf0 po0 c;
    let f1 := {| buildingSentence := buildingSentence f;
                 gpsResponse := buf1; packetOffset := po0 |} in
    if 2 <? po0 then
      a ← load buf1 (po0 - 1);
      if a =? ch_CR then
        b ← load buf1 po0;
        if b =? ch_LF then
          Some ({| buildingSentence := false;
                   gpsResponse := buf1;
                   packetOffset := match k with Sk_GPSTime => 0 | Sk_part001 => po0 end |},
                true, ev0)
        else Some (incr_offset f1 buf1 po0, false, ev0)
      else Some (incr_offset f1 buf1 po0, false, ev0)
    else Some (incr_offset f1 buf1 po0, false, ev0).

(** The [while] loop over the bytes [q] the serial port holds during the
    call: it ends when they are used up or at the first [break].  Returns the
    frame, [bFullSentence], the bytes left in the port and the events. *)
Fixpoint read_loop (k : sketch) (f : RawFrame) (q : list Z)
  : option (RawFrame * bool * list Z * list event) :=
  match q with
  | [] => Some (f, false, [], [])
  | c :: q' =>
      match loop_body k f c with
      | None => None
      | Some (f', true, ev) => Some (f', true, q', ev)
      | Some (f', false, ev) =>
          match read_loop k f' q' with
          | None => None
          | Some (f'', full, rest, ev') => Some (f'', full, rest, ev ++ ev')
          end
      end
  end.

(** [ProcessGPS] down to the end of the [while] loop: the buffer is cleared
    first when no sentence is being built. *)
Definition ProcessGPS_frame (k : sketch) (f : RawFrame) (q : list Z)
  : option (RawFrame * bool * list Z * list event) :=
  let f0 :=
    if negb (buildingSentence f)
    then {| buildingSentence := buildingSentence f;
            gpsResponse := memset0 (sizeof_gpsResponse k);
            packetOffset := 0 |}
    else f in
  read_loop k f0 q.

(** The end of [ProcessGPS]: part_001 clears the buffer and the offset once
    a full sentence has been handled (lines 254-255); GPSTime.ino leaves them. *)
Definition frame_epilogue (k : sketch) (f : RawFrame) (bFullSentence : bool)
  : RawFrame :=
  match k with
  | Sk_part001 =>
      if negb (buildingSentence f) && bFullSentence
      then {| buildingSentence := buildingSentence f;
              gpsResponse := memset0 (sizeof_gpsResponse k);
              packetOffset := 0 |}
      else f
  | Sk_GPSTime => f
  end.

(** The candidate sentence a call hands to [CheckSum]: the buffer, when
    [!buildingSentence && bFullSentence]. *)
Definition candidate (f : RawFrame) (bFullSentence : bool) : option (list Z) :=
  if negb (buildingSentence f) && bFullSentence then Some (gpsResponse f) else None.

(** One call of [ProcessGPS] seen from the framer: the frame it leaves, the
    candidate it emitted if any, the bytes left in the port, the events of
    the loop. *)
Definition framer_call (k : sketch) (f : RawFrame) (q : list Z)
  : option (RawFrame * option (list Z) * list Z * list event) :=
  match ProcessGPS_frame k f q with
  | None => None
  | Some (f1, full, rest, ev) =>
      Some (frame_epilogue k f1 full, candidate f1 full, rest, ev)
  end.

(** Bytes fed one at a time: every call finds exactly one byte in the port.
    Returns the final frame and the candidates emitted, oldest first. *)
Fixpoint feed (k : sketch) (f : RawFrame) (s : list Z)
  : option (RawFrame * list (list Z)) :=
  match s with
  | [] => Some (f, [])
  | c :: s' =>
      match framer_call k f [c] with
      | None => None
      | Some (f', cand, _, _) =>
          match feed k f' s' with
          | None => None
          | Some (f'', cands) => Some (f'', option_list cand ++ cands)
          end
      end
  end.

(** Bytes delivered in arbitrary bursts: before each call the burst is
    appended to what the previous call left in the port; [loop] calls
    [ProcessGPS] only when the port is not empty. *)
Fixpoint drain (k : sketch) (f : RawFrame) (port : list Z) (bursts : list (list Z))
  : option (RawFrame * list Z * list (list Z)) :=
  match bursts with
  | [] => Some (f, port, [])
  | b :: bursts' =>
      match port ++ b with
      | [] => drain k f [] bursts'
      | q =>
          match framer_call k f q with
          | None => None
          | Some (f', cand, rest, _) =>
              match drain k f' rest bursts' with
              | None => None
              | Some (f'', port', cands) => Some (f'', port', option_list cand ++ cands)
              end
          end
      end
  end.

(** The frame is within its array: the invariant of the framer. *)
Definition frame_ok (k : sketch) (f : RawFrame) : Prop :=
  Z.of_nat (length (gpsResponse f)) = sizeof_gpsResponse k
  /\ 0 <= packetOffset f <= sizeof_gpsResponse k.

(** The invariant at the boundaries of the loop iterations: while a
    sentence is being built the offset is past the start marker. *)
Definition frame_inv (k : sketch) (f : RawFrame) : Prop :=
  frame_ok k f /\ (buildingSentence f = true -> 0 < packetOffset f).

(** *** Frames, as the specification describes them *)

(** An array of the size of the sentence buffer holding [l] and then NULs. *)
Definition padded (k : sketch) (l : list Z) : list Z :=
  l ++ replicate (Z.to_nat (sizeof_gpsResponse k) - length l)%nat 0.

(** The framer after a start marker and the bytes [body]. *)
Definition frame_of (k : sketch) (body : list Z) : RawFrame :=
  {| buildingSentence := true;
     gpsResponse := padded k (ch_dollar :: body);
     packetOffset := 1 + Z.of_nat (length body) |}.

(** The byte [c] completes the frame of [body]: it is the line feed, the
    byte before it is the carriage return, and the offset it is written at
    is above 2. *)
Definition completesb (body : list Z) (c : Z) : bool :=
  (2 <? 1 + Z.of_nat (length body))
  && (default 0 (last body) =? ch_CR) && (c =? ch_LF).

(** No carriage return / line feed pair ends inside [body], except one that
    follows the start marker immediately. *)
Definition unterminated (body : list Z) : Prop :=
  forall b1 b2, body = b1 ++ ch_CR :: ch_LF :: b2 -> b1 = [].

(** The condition of the specification, read literally: somewhere in the
    stream a start marker is followed by the terminator pair, with no start
    marker in between and the whole frame within [room] bytes. *)
Fixpoint terminated_within (room : nat) (s : list Z) : bool :=
  match room, s with
  | S (S _), 13 :: 10 :: _ => true
  | S room', c :: s' => if c =? ch_dollar then false else terminated_within room' s'
  | _, _ => false
  end.

Fixpoint spec_frame_present (cap : nat) (s : list Z) : bool :=
  match s with
  | [] => false
  | c :: s' =>
      ((c =? ch_dollar) && terminated_within (cap - 1) s')
      || spec_frame_present cap s'
  end.

(** Some candidate was emitted while [s] was fed one byte at a time. *)
Definition emits (k : sketch) (s : list Z) : bool :=
  match feed k (frame_init k) s with
  | Some (_, _ :: _) => true
  | _ => false
  end.

(** ** The Time library, as the sketches use it *)

(** [timeStatus() == timeSet] and the value of [now()].  No sync provider is
    installed, so the status only changes through [setTime]; the passing of
    time changes [sysTime] between calls, not during one. *)
Record Clock := {
  timeSet : bool;
  sysTime : Z
}.

Definition now (c : Clock) : Z := sysTime c.

Definition setTime (t : Z) (c : Clock) : Clock :=
  {| timeSet := true; sysTime := to_time_t t |}.

(** [tmElements_t]; every field is a [uint8_t], [Year] counts from 1970. *)
Record tmElements_t := {
  Second : Z; Minute : Z; Hour : Z; Wday : Z; Day : Z; Month : Z; Year : Z
}.

Definition tm_zero : tmElements_t :=
  {| Second := 0; Minute := 0; Hour := 0; Wday := 0; Day := 0; Month := 0; Year := 0 |}.

(** [makeTime] belongs to the Time library, not to the repository: the
    sketches are embedded over an arbitrary [makeTime], and the definition
    below, which follows the library (seconds of the whole years, leap days,
    whole months, then days, hours, minutes, seconds), only instantiates
    examples. *)
Definition LEAP_YEAR (Y : Z) : bool :=
  (0 <? 1970 + Y) && ((1970 + Y) mod 4 =? 0)
  && (negb ((1970 + Y) mod 100 =? 0) || ((1970 + Y) mod 400 =? 0)).

Definition monthDays : list Z := [31; 28; 31; 30; 31; 30; 31; 31; 30; 31; 30; 31].

Definition makeTime_TimeLib (tm : tmElements_t) : Z :=
  let seconds := Year tm * (86400 * 365) in
  let seconds :=
    fold_left (fun s i => if LEAP_YEAR i then s + 86400 else s)
              (seqZ 0 (Year tm)) seconds in
  let seconds :=
    fold_left (fun s i => if (i =? 2) && LEAP_YEAR (Year tm)
                          then s + 86400 * 29
                          else s + 86400 * char_at monthDays (i - 1))
              (seqZ 1 (Month tm - 1)) seconds in
  to_time_t (seconds + (Day tm - 1) * 86400 + Hour tm * 3600
             + Minute tm * 60 + Second tm).

(** ** The EEPROM *)

(** The three objects the sketches keep in the EEPROM: the first-run flag at
    address 0, the epoch of the last fix at [sizeof(bool)] and the kind of
    that fix at [sizeof(time_t) + sizeof(bool)]. *)
Record EEPROM := {
  ee_configured : bool;
  ee_lastGPSFix : Z;
  ee_gpsFixType : Z
}.

Definition sizeof_bool : Z := 1.
Definition sizeof_time_t : Z := 4.

Definition is_EEPROM_put (e : event) : bool :=
  match e with EEPROM_put _ _ => true | _ => false end.

(** The writes to the EEPROM among the events of a call. *)
Definition eeprom_writes (evs : list event) : list event :=
  List.filter is_EEPROM_put evs.

(** ** Arduino [String] *)

(** A [String] is modelled by its characters.  Positions are [int]s at the
    call sites and [unsigned int]s in the library. *)
Fixpoint index_from (ch : Z) (s : list Z) (i : Z) : Z :=
  match s with
  | [] => -1
  | c :: s' => if c =? ch then i else index_from ch s' (i + 1)
  end.

(** [s.indexOf(ch)]: -1 when absent. *)
Definition String_indexOf (s : list Z) (ch : Z) : Z := index_from ch s 0.

Fixpoint last_index_from (ch : Z) (s : list Z) (i : Z) (found : Z) : Z :=
  match s with
  | [] => found
  | c :: s' => last_index_from ch s' (i + 1) (if c =? ch then i else found)
  end.

(** [s.lastIndexOf(ch)]: -1 when absent. *)
Definition String_lastIndexOf (s : list Z) (ch : Z) : Z := last_index_from ch s 0 (-1).

(** [s.substring(left, right)]: the arguments are converted to
    [unsigned int], swapped when out of order, and [right] is clipped to the
    length; the result is empty when [left] is past the end. *)
Definition String_substring (s : list Z) (left right : Z) : list Z :=
  let len := Z.of_nat (length s) in
  let l := to_uint left in
  let r := to_uint right in
  let '(l, r) := if r <? l then (r, l) else (l, r) in
  if len <=? l then []
  else
    let r := if len <? r then len else r in
    take (Z.to_nat (r - l)) (drop (Z.to_nat l) s).

(** [s.substring(left)]. *)
Definition String_substring_from (s : list Z) (left : Z) : list Z :=
  String_substring s left (Z.of_nat (length s)).

(** [s.toInt()]. *)
Definition String_toInt (s : list Z) : Z := atoi s.

(** [s[i]]: NUL past the end. *)
Definition String_at (s : list Z) (i : Z) : Z :=
  if Z.of_nat (length s) <=? to_uint i then 0 else char_at s (to_uint i).

(** ** Receiver configuration ([SetSentences]) *)

Definition spamList : list string := ["GSV"; "GGA"; "VTG"; "GLL"]%string.
Definition throttleList : list string := ["RMC"; "GSA"]%string.
Definition NMEA_CYCLE_REPORT : Z := 10.
Definition SYNC_TIME_T_TO_GPS : Z := 60.

(** [sizeof(list)/2]: the number of rows, pointers being two bytes wide. *)
Definition row_count (l : list string) : Z := 2 * Z.of_nat (length l) / 2.

(** [memset(buf, 0, size); sprintf(buf, "$PUBX,40,%s,0,%d,0,0,0,0", name, cycle)]. *)
Definition sprintf_pubx40 (size : Z) (name : string) (cycleSetting : Z) : list Z :=
  let text := bytes_of "$PUBX,40," ++ bytes_of name ++ bytes_of ",0,"
              ++ sprintf_d cycleSetting ++ bytes_of ",0,0,0,0" in
  text ++ replicate (Z.to_nat size - length text)%nat 0.

(** The loop of [SetSentences] over the rows [0 .. rowCount-1]: each command
    that [SetCheckSum] accepts is echoed to the console and sent to the
    receiver. *)
Definition send_commands (cast : Z -> Z) (size : Z) (pList : list string)
    (rowCount : Z) (cycleSetting : Z) : list event :=
  flat_map
    (fun name =>
       let '(ok, buf) := SetCheckSum cast (sprintf_pubx40 size name cycleSetting) size in
       if ok then [Serial_chars (cstr buf); gpsSerial_write (cstr buf)] else [])
    (take (Z.to_nat rowCount) pList).

Fixpoint first_found (pResponse : list Z) (names : list string) : bool :=
  match names with
  | [] => false
  | n :: names' =>
      match strstr pResponse n with
      | Some _ => true
      | None => first_found pResponse names'
      end
  end.

(** ** src/GPSTime.ino *)

Module GPSTime.

(** The globals that [ProcessGPS] and the functions it calls read or write,
    the clock of the Time library and the EEPROM. *)
Record state := {
  frame : RawFrame;
  gpsInternalClock : bool;
  lastUpdateGPS : Z;
  clock : Clock;
  eeprom : EEPROM
}.

Definition set_frame (st : state) (f : RawFrame) : state :=
  {| frame := f; gpsInternalClock := gpsInternalClock st;
     lastUpdateGPS := lastUpdateGPS st; clock := clock st; eeprom := eeprom st |}.

Definition set_gpsInternalClock (st : state) (b : bool) : state :=
  {| frame := frame st; gpsInternalClock := b;
     lastUpdateGPS := lastUpdateGPS st; clock := clock st; eeprom := eeprom st |}.

Definition set_lastUpdateGPS (st : state) (t : Z) : state :=
  {| frame := frame st; gpsInternalClock := gpsInternalClock st;
     lastUpdateGPS := t; clock := clock st; eeprom := eeprom st |}.

Definition set_clock (st : state) (c : Clock) : state :=
  {| frame := frame st; gpsInternalClock := gpsInternalClock st;
     lastUpdateGPS := lastUpdateGPS st; clock := c; eeprom := eeprom st |}.

Definition set_eeprom (st : state) (e : EEPROM) : state :=
  {| frame := frame st; gpsInternalClock := gpsInternalClock st;
     lastUpdateGPS := lastUpdateGPS st; clock := clock st; eeprom := e |}.

(** The globals as initialised (lines 49-54), over a given EEPROM. *)
Definition boot (e : EEPROM) : state :=
  {| frame := frame_init Sk_GPSTime; gpsInternalClock := true;
     lastUpdateGPS := 0; clock := {| timeSet := false; sysTime := 0 |};
     eeprom := e |}.

(** The EEPROM part of [setup] (lines 66-77). *)
Definition setup (st : state) : state * list event :=
  let bEEConfigured := ee_configured (eeprom st) in
  if negb bEEConfigured then
    (set_eeprom st {| ee_configured := true;
                      ee_lastGPSFix := lastUpdateGPS st;
                      ee_gpsFixType := 0 |},
     [Serial_print "Updating EEProm";
      EEPROM_put 0 (EEbool true);
      EEPROM_put sizeof_bool (EEtime (lastUpdateGPS st));
      EEPROM_put (sizeof_bool + sizeof_time_t) (EEchar 0)])
  else (st, []).

(** [SetSentences] (lines 151-168), on the local [char pubx40[40]]. *)
Definition SetSentences (pList : list string) (rowCount cycleSetting : Z)
  : list event :=
  Serial_print (if cycleSetting =? 0 then "BLOCKING:" else "THROTTLING:")
  :: send_commands cast_byte 40 pList rowCount cycleSetting.

(** [Spam] (lines 128-149): [bResult] is never set. *)
Definition Spam (pResponse : list Z) : bool * list event :=
  let iRowCount := row_count spamList in
  (false,
   if first_found pResponse (take (Z.to_nat iRowCount) spamList) then
     Serial_print "SPAM DETECTED"
     :: SetSentences spamList (row_count spamList) 0
     ++ SetSentences throttleList (row_count throttleList) NMEA_CYCLE_REPORT
   else []).

Section WithTimeLib.

Variable makeTime : tmElements_t -> Z.

(** [SyncTimeToGPS] from [lastUpdateGPS=makeTime(gpsElements)] on
    (lines 212-235): the time/date event, carrying the epoch. *)
Definition apply_epoch (st : state) (epoch : Z) : bool * state * list event :=
  let st := set_lastUpdateGPS st epoch in
  if 0 <? lastUpdateGPS st then
    if negb (timeSet (clock st)) then
      (true, set_clock st (setTime (lastUpdateGPS st) (clock st)),
       [Serial_print (if gpsInternalClock st
                      then "TimeSet using BBR" else "TimeSet using GPS")])
    else
      (* int decay=lastUpdateGPS-now(); the difference of two unsigned longs,
         narrowed to int *)
      let decay := to_int (to_time_t (lastUpdateGPS st - now (clock st))) in
      if decay =? 0 then (true, st, [])
      else
        (true, set_clock st (setTime (lastUpdateGPS st) (clock st)),
         [Serial_mismatch decay (if gpsInternalClock st then "BBR" else "GPS")])
  else (false, st, []).

(** [SyncTimeToGPS] down to the date (lines 175-211): the fields of the
    last RMC sentence of the buffer, when it passes [CheckSum] and its date
    has six characters. *)
Definition rmc_elements (pResponse : list Z) : option tmElements_t :=
  match strstr pResponse "$GPRMC" with
  | None => None
  | Some _ =>
      let sParser := cstr pResponse in
      let iLastPacket := String_lastIndexOf sParser (multichar "$GPRMC") in
      if 5 <=? iLastPacket then
        let iLastPacket := iLastPacket - 5 in
        let sRMC := String_substring_from sParser iLastPacket in
        if CheckSum cast_byte (sRMC ++ [0]) then
          let iStart := String_indexOf sRMC (multichar "$GPRMC,") + 1 in
          let gpsElements :=
            if iStart =? 7 then
              let sTime := String_substring_from sRMC iStart in
              let iTimeEnd := String_indexOf sTime ch_comma in
              let iTimeEnd := iTimeEnd - 3 in
              let sTime := String_substring sTime 0 iTimeEnd in
              {| Second := to_uint8 (String_toInt (String_substring sTime 4 6));
                 Minute := to_uint8 (String_toInt (String_substring sTime 2 4));
                 Hour := to_uint8 (String_toInt (String_substring sTime 0 2));
                 Wday := 0; Day := 0; Month := 0; Year := 0 |}
            else tm_zero in
          let sDate := String_substring_from sRMC iStart in
          let sDate :=
            Nat.iter 8
              (fun sDate =>
                 let iOffset := String_indexOf sDate ch_comma + 1 in
                 String_substring_from sDate iOffset)
              sDate in
          let iDateEnd := String_indexOf sDate ch_comma in
          let sDate := String_substring sDate 0 iDateEnd in
          if Z.of_nat (length sDate) =? 6 then
            Some {| Second := Second gpsElements;
                    Minute := Minute gpsElements;
                    Hour := Hour gpsElements;
                    Wday := 0;
                    Day := to_uint8 (String_toInt (String_substring sDate 0 2));
                    Month := to_uint8 (String_toInt (String_substring sDate 2 4));
                    Year := to_uint8 (String_toInt (String_substring sDate 4 6) + 30) |}
          else None
        else None
      else None
  end.

(** [SyncTimeToGPS] (lines 171-241). *)
Definition SyncTimeToGPS (st : state) (pResponse : list Z)
  : bool * state * list event :=
  match rmc_elements pResponse with
  | Some gpsElements => apply_epoch st (to_time_t (makeTime gpsElements))
  | None => (false, st, [])
  end.

(** [TimeSource] down to [char fixStatus=sGSA[9]] (lines 251-263): the
    fix-quality character of the first GSA sentence of the buffer, when the
    sentence passes [CheckSum]. *)
Definition gsa_fixStatus (pResponse : list Z) : option Z :=
  match strstr pResponse "$GPGSA" with
  | None => None
  | Some _ =>
      let sParser := cstr pResponse in
      let iLastPacket := String_indexOf sParser (multichar "$GPGSA") in
      if 5 <=? iLastPacket then
        let iLastPacket := iLastPacket - 5 in
        let sGSA := String_substring_from sParser iLastPacket in
        (* the multi-character constant '\r\n' is the line feed *)
        let iCrLf := String_indexOf sGSA ch_LF in
        if 0 <? iCrLf then
          let sQualified := String_substring sGSA 0 iCrLf in
          if CheckSum cast_byte (sQualified ++ [0]) then Some (String_at sGSA 9)
          else None
        else None
      else None
  end.

(** [TimeSource] from [if (fixStatus=='1')] on (lines 264-275): the
    fix-quality event. *)
Definition apply_fix (st : state) (fixStatus : Z) : state * list event :=
  if fixStatus =? 49 then                                   (* '1' *)
    (set_gpsInternalClock st true, [])
  else if (fixStatus =? 50) || (fixStatus =? 51) then       (* '2', '3' *)
    let '(st1, ev) :=
      if timeSet (clock st) then
        (set_eeprom st {| ee_configured := ee_configured (eeprom st);
                          ee_lastGPSFix := now (clock st);
                          ee_gpsFixType := fixStatus |},
         [EEPROM_put sizeof_bool (EEtime (now (clock st)));
          EEPROM_put (sizeof_time_t + sizeof_bool) (EEchar fixStatus)])
      else (st, []) in
    (set_gpsInternalClock st1 false, ev)
  else (st, []).

(** [TimeSource] (lines 244-281). *)
Definition TimeSource (st : state) (pResponse : list Z)
  : bool * state * list event :=
  match gsa_fixStatus pResponse with
  | Some fixStatus =>
      let '(st1, ev) := apply_fix st fixStatus in (true, st1, ev)
  | None => (false, st, [])
  end.

(** The condition of line 382:
    [(timeStatus()!=timeSet)||((now()-lastUpdateGPS>SYNC_TIME_T_TO_GPS))],
    the subtraction and the comparison being on [unsigned long]. *)
Definition sync_due (st : state) : bool :=
  negb (timeSet (clock st))
  || (SYNC_TIME_T_TO_GPS <? to_time_t (now (clock st) - lastUpdateGPS st)).

(** [ProcessGPS] from [if (CheckSum(gpsResponse))] to the end of its [else]
    (lines 374-393), for the buffer the loop left. *)
Definition dispatch (st : state) (pResponse : list Z) : state * list event :=
  if CheckSum cast_byte pResponse then
    let ev0 := [Serial_print "CS+:"; Serial_chars (nonzero_chars pResponse)] in
    let '(spam, ev1) := Spam pResponse in
    if negb spam then
      let '(source, st1, ev2) := TimeSource st pResponse in
      if negb source then
        if sync_due st1
        then
          let '(_, st2, ev3) := SyncTimeToGPS st1 pResponse in
          (st2, ev0 ++ ev1 ++ ev2 ++ ev3)
        else (st1, ev0 ++ ev1 ++ ev2)
      else (st1, ev0 ++ ev1 ++ ev2)
    else (st, ev0 ++ ev1)
  else (st, [Serial_print "CS-:"; Serial_chars (nonzero_chars pResponse)]).

(** [ProcessGPS] (lines 335-397), with [q] the bytes in the serial port.
    Returns the state, the bytes left in the port and the events; [None]
    is an access outside [gpsResponse]. *)
Definition ProcessGPS (st : state) (q : list Z)
  : option (state * list Z * list event) :=
  match ProcessGPS_frame Sk_GPSTime (frame st) q with
  | None => None
  | Some (f1, bFullSentence, rest, ev) =>
      let st1 := set_frame st f1 in
      if negb (buildingSentence f1) then
        if bFullSentence then
          let '(st2, ev') := dispatch st1 (gpsResponse f1) in
          Some (st2, rest, ev ++ ev')
        else Some (st1, rest, ev)
      else Some (st1, rest, ev)
  end.

End WithTimeLib.

End GPSTime.

(** ** src/unnamed/part_001 *)

Module Part001.

(** [bitSet], [bitClear] and [bitRead] of Arduino.h on the [char]
    [_gpsStatus]: bit 0 is "RMC seen", bit 1 battery-backed time, bit 2 a 2D
    fix, bit 3 a 3D fix. *)
Definition bitSet (value bit : Z) : Z := to_uint8 (Z.lor value (Z.shiftl 1 bit)).
Definition bitClear (value bit : Z) : Z := to_uint8 (Z.ldiff value (Z.shiftl 1 bit)).
Definition bitRead (value bit : Z) : bool := Z.testbit value bit.

Record state := {
  frame : RawFrame;
  _gpsStatus : Z;
  _gpsTime : Z;
  clock : Clock;
  eeprom : EEPROM
}.

Definition set_frame (st : state) (f : RawFrame) : state :=
  {| frame := f; _gpsStatus := _gpsStatus st; _gpsTime := _gpsTime st;
     clock := clock st; eeprom := eeprom st |}.

Definition set_gpsStatus (st : state) (s : Z) : state :=
  {| frame := frame st; _gpsStatus := s; _gpsTime := _gpsTime st;
     clock := clock st; eeprom := eeprom st |}.

Definition set_gpsTime (st : state) (t : Z) : state :=
  {| frame := frame st; _gpsStatus := _gpsStatus st; _gpsTime := t;
     clock := clock st; eeprom := eeprom st |}.

Definition set_clock (st : state) (c : Clock) : state :=
  {| frame := frame st; _gpsStatus := _gpsStatus st; _gpsTime := _gpsTime st;
     clock := c; eeprom := eeprom st |}.

Definition set_eeprom (st : state) (e : EEPROM) : state :=
  {| frame := frame st; _gpsStatus := _gpsStatus st; _gpsTime := _gpsTime st;
     clock := clock st; eeprom := e |}.

(** The trust flags of a status byte. *)
Definition bbr (st : state) : bool := bitRead (_gpsStatus st) 1.
Definition fix2 (st : state) : bool := bitRead (_gpsStatus st) 2.
Definition fix3 (st : state) : bool := bitRead (_gpsStatus st) 3.

(** The globals as initialised (lines 63-72), over a given EEPROM. *)
Definition boot (e : EEPROM) : state :=
  {| frame := frame_init Sk_part001; _gpsStatus := 0; _gpsTime := 0;
     clock := {| timeSet := false; sysTime := 0 |}; eeprom := e |}.

(** The EEPROM part of [setup] (lines 87-99). *)
Definition setup (st : state) : state * list event :=
  let bEEConfigured := ee_configured (eeprom st) in
  if negb bEEConfigured then
    (set_gpsTime
       (set_eeprom st {| ee_configured := true; ee_lastGPSFix := 0; ee_gpsFixType := 0 |})
       0,
     [Serial_print "Updating EEProm";
      EEPROM_put 0 (EEbool true);
      EEPROM_put sizeof_bool (EEsettings 0 0)])
  else (set_gpsTime st (ee_lastGPSFix (eeprom st)), []).

(** [SetSentences] (lines 171-186), on the global [char _sprintBuf[50]]. *)
Definition SetSentences (pList : list string) (rowCount cycleSetting : Z)
  : list event :=
  Serial_print (if cycleSetting =? 0 then "BLOCKING:"
                else if cycleSetting =? 1 then "DEFAULT RATE:"
                else "THROTTLING:")
  :: send_commands cast_char 50 pList rowCount cycleSetting.

(** [Spam] (lines 148-169): [bResult] is never set. *)
Definition Spam (pResponse : list Z) : bool * list event :=
  let iRowCount := row_count spamList in
  (false,
   if first_found pResponse (take (Z.to_nat iRowCount) spamList) then
     Serial_print "SPAM DETECTED"
     :: SetSentences spamList (row_count spamList) 0
     ++ SetSentences throttleList (row_count throttleList) NMEA_CYCLE_REPORT
   else []).

(** The console line naming the source of the time (lines 329-334 and
    345-350). *)
Definition source_label (bbr fix2 fix3 : bool) : list event :=
  if bbr then [Serial_print "TimeSet using BBR"]
  else if fix2 then [Serial_print "TimeSet using GPS:2d"]
  else if fix3 then [Serial_print "TimeSet using GPS:3d"]
  else [].

(** The body of [if (tempTime > 0)] in [SyncTimeToGPS] (lines 316-364): the
    time/date event, carrying the epoch [tempTime]. *)
Definition apply_epoch (st : state) (tempTime : Z) : state * list event :=
  let st := set_gpsStatus st (bitSet (_gpsStatus st) 0) in
  let bbr := bitRead (_gpsStatus st) 1 in
  let fix2 := bitRead (_gpsStatus st) 2 in
  let fix3 := bitRead (_gpsStatus st) 3 in
  let st := if fix2 || fix3 then set_gpsTime st tempTime else st in
  if bbr || fix2 || fix3 then
    let '(st, ev1) :=
      if negb (timeSet (clock st)) then
        (set_clock st (setTime tempTime (clock st)), source_label bbr fix2 fix3)
      else
        (* int decay = tempTime - now(); the difference of two unsigned
           longs, narrowed to int *)
        let decay := to_int (to_time_t (tempTime - now (clock st))) in
        if decay =? 0 then (st, [])
        else (set_clock st (setTime tempTime (clock st)),
              Serial_mismatch decay "" :: source_label bbr fix2 fix3) in
    if fix2 || fix3 then
      let gpsFixType := if fix2 then 50 else 51 in      (* 0x32, 0x33 *)
      (set_eeprom st {| ee_configured := ee_configured (eeprom st);
                        ee_lastGPSFix := _gpsTime st;
                        ee_gpsFixType := gpsFixType |},
       ev1 ++ [EEPROM_put sizeof_bool (EEsettings (_gpsTime st) gpsFixType)])
    else (st, ev1)
  else (st, [Serial_print "TimeSet pending GPGSA"]).

(** The loop [for (iOffset = 0; iOffset < 9; iOffset++) if (p[iOffset] == ',') break;]. *)
Fixpoint first_comma (p : Z -> Z) (xs : list Z) (stop : Z) : Z :=
  match xs with
  | [] => stop
  | x :: xs' => if p x =? ch_comma then x else first_comma p xs' stop
  end.

(** The loop that counts commas from [iOffset] while [iOffset < strlen]:
    it stops on the eighth.  Returns [iOffset] and [iCommaCount]. *)
Fixpoint count_commas (p : Z -> Z) (xs : list Z) (stop : Z) (iCommaCount : Z)
  : Z * Z :=
  match xs with
  | [] => (stop, iCommaCount)
  | x :: xs' =>
      let iCommaCount := if p x =? ch_comma then iCommaCount + 1 else iCommaCount in
      if iCommaCount =? 8 then (x, iCommaCount)
      else count_commas p xs' stop iCommaCount
  end.

(** [subString[0] = a; subString[1] = b; atoi(subString)], stored in a
    [uint8_t]. *)
Definition atoi2 (a b : Z) : Z := atoi [a; b; 0].

Section WithTimeLib.

Variable makeTime : tmElements_t -> Z.

(** [SyncTimeToGPS] (lines 260-378).  The braces of the source, not its
    indentation, decide where each [else] belongs. *)
Definition SyncTimeToGPS (st : state) (pResponse : list Z)
  : bool * state * list event :=
  match strstr pResponse "$GPRMC," with
  | None => (false, st, [])
  | Some off =>
      let pFound := fun i => char_at pResponse (off + i) in
      let iOffset := first_comma pFound (seqZ 0 9) 9 in
      let iOffset := iOffset + 1 in
      if iOffset =? 7 then
        let hour := to_uint8 (atoi2 (pFound iOffset) (pFound (iOffset + 1))) in
        let minute := to_uint8 (atoi2 (pFound (iOffset + 2)) (pFound (iOffset + 3))) in
        let second := to_uint8 (atoi2 (pFound (iOffset + 4)) (pFound (iOffset + 5))) in
        let len := strlen (drop (Z.to_nat off) pResponse) in
        let '(iOffset, iCommaCount) :=
          count_commas pFound (seqZ iOffset (len - iOffset)) (Z.max iOffset len) 0 in
        if iCommaCount =? 8 then
          let iOffset := iOffset + 1 in
          let gpsElements :=
            {| Second := second; Minute := minute; Hour := hour; Wday := 0;
               Day := to_uint8 (atoi2 (pFound iOffset) (pFound (iOffset + 1)));
               Month := to_uint8 (atoi2 (pFound (iOffset + 2)) (pFound (iOffset + 3)));
               Year := to_uint8 (atoi2 (pFound (iOffset + 4)) (pFound (iOffset + 5)) + 30) |} in
          if (0 <? Month gpsElements) && (0 <? Day gpsElements)
             && (30 <? Year gpsElements) then
            let tempTime := to_time_t (makeTime gpsElements) in
            if 0 <? tempTime then
              let '(st1, ev) := apply_epoch st tempTime in (true, st1, ev)
            else (true, st, [])
          else (false, st, [Serial_print "SyncTimeToGPS:  makeTime failed"])
        else (false, st, [Serial_print "Malformed or missing RMC date information"])
      else (false, st, [])
  end.

(** [TimeSource] from the three [bitClear] on (lines 396-410): the
    fix-quality event, carrying the character [pResponse[9]]. *)
Definition apply_fix (st : state) (fixStatus : Z) : state * list event :=
  let s := bitClear (_gpsStatus st) 1 in
  let s := bitClear s 2 in
  let s := bitClear s 3 in
  if fixStatus =? 49 then (set_gpsStatus st (bitSet s 1), [])        (* '1' *)
  else if fixStatus =? 50 then (set_gpsStatus st (bitSet s 2), [])   (* '2' *)
  else if fixStatus =? 51 then (set_gpsStatus st (bitSet s 3), [])   (* '3' *)
  else (set_gpsStatus st s,
        [Serial_print "TimeSource, unexpected char in [9]:";
         Serial_chars [fixStatus]]).

(** [TimeSource] (lines 380-414). *)
Definition TimeSource (st : state) (pResponse : list Z)
  : bool * state * list event :=
  match strstr pResponse "$GPGSA" with
  | None => (false, st, [])
  | Some _ =>
      let fixStatus := char_at pResponse 9 in
      let '(st1, ev) := apply_fix st fixStatus in (true, st1, ev)
  end.

(** [ProcessGPS] from [if (CheckSum(_gpsResponse))] to the end of its
    [else] (lines 236-253), for the buffer the loop left. *)
Definition dispatch (st : state) (pResponse : list Z) : state * list event :=
  if CheckSum cast_char pResponse then
    let ev0 := [Serial_print "CS+:"; Serial_chars (nonzero_chars pResponse)] in
    let '(spam, ev1) := Spam pResponse in
    if negb spam then
      let '(source, st1, ev2) := TimeSource st pResponse in
      if negb source then
        let '(_, st2, ev3) := SyncTimeToGPS st1 pResponse in
        (st2, ev0 ++ ev1 ++ ev2 ++ ev3)
      else (st1, ev0 ++ ev1 ++ ev2)
    else (st, ev0 ++ ev1)
  else (st, [Serial_print "CS-:"; Serial_chars (nonzero_chars pResponse)]).

(** [ProcessGPS] (lines 189-258), with [q] the bytes in the serial port. *)
Definition ProcessGPS (st : state) (q : list Z)
  : option (state * list Z * list event) :=
  match ProcessGPS_frame Sk_part001 (frame st) q with
  | None => None
  | Some (f1, bFullSentence, rest, ev) =>
      let st1 := set_frame st f1 in
      if negb (buildingSentence f1) then
        if bFullSentence then
          let '(st2, ev') := dispatch st1 (gpsResponse f1) in
          Some (set_frame st2 (frame_epilogue Sk_part001 (frame st2) bFullSentence),
                rest, ev ++ ev')
        else Some (st1, rest, ev)
      else Some (st1, rest, ev)
  end.

End WithTimeLib.

End Part001.

(** ** src/unnamed/part_000: the String-based [CheckSum] *)

Module Part000.

(** [CheckSum(String sPacket)] (lines 286-306): the two characters after the
    asterisk are compared, as a [String], with the two digits of [Calc]. *)
Definition CheckSum (sPacket : list Z) : bool :=
  let iSize := Z.of_nat (length sPacket) in
  if 10 <? iSize then
    let iAstericks := String_indexOf sPacket ch_star in
    if 0 <? iAstericks then
      let sCS := String_substring sPacket (iAstericks + 1) (iAstericks + 3) in
      let sPacket := String_substring sPacket 1 iAstericks in
      let iSize := Z.of_nat (length sPacket) in
      let iChecksum := xor_loop cast_byte sPacket 0 iSize in
      let Calc := sprintf_02X iChecksum in
      bool_decide (sCS = cstr Calc)
    else false
  else false.

End Part000.

(** ** Reading the events of a call *)

Definition is_mismatch (e : event) : bool :=
  match e with Serial_mismatch _ _ => true | _ => false end.

(** The decay corrections reported among the events of a call. *)
Definition decay_reports (evs : list event) : list event :=
  List.filter is_mismatch evs.

(** A list of events with no write to the EEPROM and no decay correction. *)
Definition quiet (ev : list event) : Prop :=
  eeprom_writes ev = [] /\ decay_reports ev = [].

(** No carriage return is followed by a line feed in [s]. *)
Fixpoint no_crlf (s : list Z) : bool :=
  match s with
  | a :: s' =>
      match s' with
      | b :: _ => negb ((a =? ch_CR) && (b =? ch_LF)) && no_crlf s'
      | [] => true
      end
  | [] => true
  end.

(** The candidate emitted by the call that reads [c], once the stream [s]
    has been fed one byte at a time from the initial frame. *)
Definition emitted_on (k : sketch) (s : list Z) (c : Z) : option (list Z) :=
  match feed k (frame_init k) s with
  | Some (f, _) =>
      match framer_call k f [c] with
      | Some (_, cand, _, _) => cand
      | None => None
      end
  | None => None
  end.

(** ** The text of a frame *)

(** The frame holds the text [l]: the bytes stored since the buffer was last
    cleared, NULs behind them, the cursor right after them, and no start
    marker past offset 0. *)
Definition frame_text (k : sketch) (f : RawFrame) (l : list Z) : Prop :=
  gpsResponse f = padded k l
  /\ packetOffset f = Z.of_nat (length l)
  /\ Z.of_nat (length l) <= sizeof_gpsResponse k
  /\ ch_dollar ∉ tail l.


(** The invariant of the framer between two calls of [ProcessGPS]: the
    frame is within its array and, while a sentence is being built, it holds
    a text. *)
Definition frame_open (k : sketch) (f : RawFrame) : Prop :=
  frame_ok k f /\ (buildingSentence f = true -> exists l, frame_text k f l).

(** ** Reading the events of a call, continued *)

(** The strings written to the receiver among the events of a call. *)
Definition sent_to_receiver (ev : list event) : list (list Z) :=
  flat_map (fun e => match e with gpsSerial_write cs => [cs] | _ => [] end) ev.

(** The characters that [sprintf(buf, "$PUBX,40,%s,0,%d,0,0,0,0", name,
    cycleSetting)] writes before the NUL. *)
Definition pubx40_text (name : string) (cycleSetting : Z) : list Z :=
  bytes_of "$PUBX,40," ++ bytes_of name ++ bytes_of ",0,"
  ++ sprintf_d cycleSetting ++ bytes_of ",0,0,0,0".

(** The command once [SetCheckSum] has framed it. *)
Definition pubx40_command (cast : Z -> Z) (name : string) (cycleSetting : Z) : list Z :=
  let B := pubx40_text name cycleSetting in
  let Calc := sprintf_02X (xor_loop cast B 1 (Z.of_nat (length B))) in
  B ++ [ch_star; char_at Calc 0; char_at Calc 1; ch_CR; ch_LF].

(** ** The running clock *)

(** The clock of the Time library [dt] seconds later: [now()] follows
    [millis()], the status is kept. *)
Definition elapse (dt : Z) (c : Clock) : Clock :=
  {| timeSet := timeSet c; sysTime := to_time_t (sysTime c + dt) |}.

(** ** Fields of a sentence *)

(** The number two ASCII digits denote. *)
Definition two_digits (a b : Z) : Z := 10 * (a - 48) + (b - 48).

(** The commas of a stretch of text. *)
Definition commas (l : list Z) : nat := count_occ Z.eq_dec l ch_comma.

(** ** src/unnamed/part_001: [loop], [DisplayTime], [LocalTime] *)

Module Part001Sketch.

(** [(value >> n) & 1U], as [DisplayTime] reads the flags. *)
Definition bit_of (value n : Z) : bool :=
  negb (Z.land (Z.shiftr value n) 1 =? 0).

(** What [DisplayTime] hands to [Serial.println]: the literal
    ["GMT:GPRMC MISSING"], or the line formatted from the time, the minutes
    of decay and the two characters of the fix type.  [fixType] is a local
    without initial value: [None] stands for the case where no branch
    assigns it. *)
Inductive display :=
| GPRMC_MISSING
| GMT_line (t : Z) (iElapsedMinutes : Z) (fixType : option Z) (fix_ : Z).

(** [DisplayTime(&t)] (lines 468-495).  [iElapsedMinutes] is an
    [unsigned int] that receives the quotient of two [unsigned long]. *)
Definition DisplayTime (st : Part001.state) (pTime : Z) : display :=
  let iElapsedMinutes := 0 in
  let fix_ := 100 in                                      (* char fix=0x64 *)
  let rmc := bit_of (Part001._gpsStatus st) 0 in
  let bbr := bit_of (Part001._gpsStatus st) 1 in
  let fix2 := bit_of (Part001._gpsStatus st) 2 in
  let fix3 := bit_of (Part001._gpsStatus st) 3 in
  if rmc then
    if bbr then
      GMT_line pTime (to_uint (to_time_t (pTime - Part001._gpsTime st) / 60))
               (Some 66) 32                                (* 0x42, 0x20 *)
    else if fix2 then GMT_line pTime iElapsedMinutes (Some 50) fix_   (* 0x32 *)
    else if fix3 then GMT_line pTime iElapsedMinutes (Some 51) fix_   (* 0x33 *)
    else GMT_line pTime iElapsedMinutes None fix_
  else GPRMC_MISSING.

(** The time zones of the enumeration [TimeZone] (lines 54-61). *)
Inductive TimeZone := GMT | EASTERN | MOUNTAIN | CENTRAL | ARIZONA | PACIFIC.

(** [LocalTime(&tz)] (lines 497-520): the products are [int]s, the
    subtraction is on [time_t]. *)
Definition LocalTime (pTZ : TimeZone) (c : Clock) : Z :=
  let t := now c in
  match pTZ with
  | PACIFIC => to_time_t (t - to_int (7 * 3600))
  | EASTERN => to_time_t (t - to_int (4 * 3600))
  | CENTRAL => to_time_t (t - to_int (5 * 3600))
  | ARIZONA => to_time_t (t - to_int (7 * 3600))
  | MOUNTAIN => to_time_t (t - to_int (6 * 3600))
  | GMT => t
  end.

(** The globals of the sketch: those [ProcessGPS] works on, and the two
    that only [loop] uses. *)
Record state := {
  gps : Part001.state;
  _startingUp : bool;
  _lastCycleDevices : Z
}.

Definition READ_EVERY : Z := 5.

(** The globals when [setup] (lines 78-122) returns. *)
Definition start (e : EEPROM) : state :=
  {| gps := (Part001.setup (Part001.boot e)).1;
     _startingUp := true; _lastCycleDevices := 0 |}.

Section WithTimeLib.

Variable makeTime : tmElements_t -> Z.

(** One pass of [loop] (lines 124-146), with [q] the bytes in the serial
    port and [millis] the value of [millis()].  Returns the state, the bytes
    left in the port, the events and what [DisplayTime] printed, if it was
    called. *)
Definition loop (st : state) (q : list Z) (millis : Z)
  : option (state * list Z * list event * option display) :=
  let after_gps :=
    match q with
    | [] => Some (gps st, [], [])
    | _ => Part001.ProcessGPS makeTime (gps st) q
    end in
  match after_gps with
  | None => None
  | Some (g, rest, ev) =>
      if _startingUp st then
        if timeSet (Part001.clock g) then
          Some ({| gps := g; _startingUp := false;
                   _lastCycleDevices := _lastCycleDevices st |},
                rest,
                ev ++ Part001.SetSentences throttleList (row_count throttleList)
                        NMEA_CYCLE_REPORT,
                None)
        else if millis mod 5000 =? 0 then
          Some ({| gps := g; _startingUp := true;
                   _lastCycleDevices := _lastCycleDevices st |},
                rest,
                ev ++ [Serial_print "No BBR/GPS time, position device for a 2d/3d fix"],
                None)
        else
          Some ({| gps := g; _startingUp := true;
                   _lastCycleDevices := _lastCycleDevices st |},
                rest, ev, None)
      else
        let nowT := now (Part001.clock g) in
        if READ_EVERY <=? to_time_t (nowT - _lastCycleDevices st) then
          Some ({| gps := g; _startingUp := false; _lastCycleDevices := nowT |},
                rest, ev, Some (DisplayTime g nowT))
        else
          Some ({| gps := g; _startingUp := false;
                   _lastCycleDevices := _lastCycleDevices st |},
                rest, ev, None)
  end.


End WithTimeLib.

End Part001Sketch.

(** ** src/GPSTime.ino: [loop] *)

Module GPSTimeSketch.

(** The lines [loop] prints: the time, formatted from [t], and
    ["%d minutes since a %cd fix"].  The character is the low byte of the
    two bytes [EEPROM.get] reads into the pointer [fixType] at the address of
    the stored fix character. *)
Inductive report :=
| Time_line (t : Z)
| Since_line (iElapsedMinutes : Z) (fixType : Z).

(** The globals [ProcessGPS] works on, and [lastCycleDevices]. *)
Record state := {
  gps : GPSTime.state;
  lastCycleDevices : Z
}.

(** The globals when [setup] (lines 58-94) returns. *)
Definition start (e : EEPROM) : state :=
  {| gps := (GPSTime.setup (GPSTime.boot e)).1; lastCycleDevices := 0 |}.

(** The first half of [loop] (lines 98-121): every five seconds, once the
    clock is set, the time and, while the time comes from the battery-backed
    clock, the age of the last fix the EEPROM recorded.
    [iElapsedMinutes] is an [int] that receives the quotient of two
    [unsigned long]. *)
Definition report_cycle (st : state) : state * list report :=
  let c := GPSTime.clock (gps st) in
  if timeSet c then
    if 5 <=? to_time_t (now c - lastCycleDevices st) then
      let since :=
        if GPSTime.gpsInternalClock (gps st) then
          let t := to_time_t (ee_lastGPSFix (GPSTime.eeprom (gps st))) in
          if 0 <? t then
            let fixType := to_uint8 (ee_gpsFixType (GPSTime.eeprom (gps st))) in
            let iElapsedMinutes := to_int (to_time_t (now c - t) / 60) in
            if 10 <? iElapsedMinutes then [Since_line iElapsedMinutes fixType] else []
          else []
        else [] in
      ({| gps := gps st; lastCycleDevices := now c |}, Time_line (now c) :: since)
    else (st, [])
  else (st, []).

Section WithTimeLib.

Variable makeTime : tmElements_t -> Z.

(** One pass of [loop] (lines 96-125), with [q] the bytes in the serial
    port. *)
Definition loop (st : state) (q : list Z)
  : option (state * list Z * list event * list report) :=
  let '(st1, reps) := report_cycle st in
  match q with
  | [] => Some (st1, [], [], reps)
  | _ =>
      match GPSTime.ProcessGPS makeTime (gps st1) q with
      | None => None
      | Some (g, rest, ev) =>
          Some ({| gps := g; lastCycleDevices := lastCycleDevices st1 |}, rest, ev, reps)
      end
  end.

End WithTimeLib.

End GPSTimeSketch.

(** ** What holds between two passes of [loop] in part_001 *)



(** ** src/unnamed/part_000: the framing loop of [loop] *)

Module Part000Sketch.

(** The globals [buildingSentence], [response] and [packetOffset]. *)
Record frame := {
  buildingSentence : bool;
  response : list Z;
  packetOffset : Z
}.

(** [sizeof(response)]: [char response[200]]. *)
Definition sizeof_response : Z := 200.

Definition frame_init : frame :=
  {| buildingSentence := false; response := memset0 sizeof_response; packetOffset := 0 |}.

(** One iteration of the [while] loop (lines 109-136) with [c] the byte
    read.  The test of line 109 resets the offset but not the buffer. *)
Definition loop_body (f : frame) (c : Z) : option (frame * bool * list event) :=
  let '(po0, ev0) :=
    if sizeof_response <=? to_uint (packetOffset f)
    then (0, [Serial_print "MEMORY OVERFLOW"])
    else (packetOffset f, []) in
  if c =? ch_dollar then
    let buf1 := if po0 =? 0 then response f else memset0 sizeof_response in
    buf2 ← store buf1 0 c;
    Some ({| buildingSentence := true; response := buf2; packetOffset := 1 |}, false, ev0)
  else
    buf1 ← store (response f) po0 c;
    let next := {| buildingSentence := buildingSentence f;
                   response := buf1; packetOffset := to_int (po0 + 1) |} in
    if 2 <? po0 then
      a ← load buf1 (po0 - 1);
      if a =? ch_CR then
        b ← load buf1 po0;
        if b =? ch_LF then
          Some ({| buildingSentence := false; response := buf1; packetOffset := 0 |},
                true, ev0)
        else Some (next, false, ev0)
      else Some (next, false, ev0)
    else Some (next, false, ev0).

(** The loop
    [while ((gpsSerial.available() > 0) && (packetOffset<sizeof(response)))]
    over the bytes [q] of the port: it ends when they are used up, when the
    offset has reached the size of the buffer, or at the first [break]. *)
Fixpoint read_loop (f : frame) (q : list Z)
  : option (frame * bool * list Z * list event) :=
  match q with
  | [] => Some (f, false, [], [])
  | c :: q' =>
      if to_uint (packetOffset f) <? sizeof_response then
        match loop_body f c with
        | None => None
        | Some (f', true, ev) => Some (f', true, q', ev)
        | Some (f', false, ev) =>
            match read_loop f' q' with
            | None => None
            | Some (f'', full, rest, ev') => Some (f'', full, rest, ev ++ ev')
            end
        end
      else Some (f, false, q, [])
  end.

(** The framing part of one pass of [loop] (lines 101-137), with [q] the
    bytes in the port: nothing happens on an empty port; otherwise the
    buffer is cleared first when no sentence is being built. *)
Definition frame_pass (f : frame) (q : list Z)
  : option (frame * bool * list Z * list event) :=
  match q with
  | [] => Some (f, false, [], [])
  | _ =>
      let f0 :=
        if negb (buildingSentence f)
        then {| buildingSentence := buildingSentence f;
                response := memset0 sizeof_response; packetOffset := 0 |}
        else f in
      read_loop f0 q
  end.

(** The passes of [loop] over the bursts of a run, as [drain] above: the
    final frame, the bytes left in the port, and how many passes set
    [bFullSentence]. *)
Fixpoint passes (f : frame) (port : list Z) (bursts : list (list Z))
  : option (frame * list Z * nat) :=
  match bursts with
  | [] => Some (f, port, 0%nat)
  | b :: bursts' =>
      match frame_pass f (port ++ b) with
      | None => None
      | Some (f', full, rest, _) =>
          match passes f' rest bursts' with
          | None => None
          | Some (f'', port', n) => Some (f'', port', ((if full then 1 else 0) + n)%nat)
          end
      end
  end.

End Part000Sketch.

(** * Properties *)

#[local] Arguments Part001.bitRead : simpl never.
#[local] Arguments Part001.bitSet : simpl never.
#[local] Arguments Part001.bitClear : simpl never.
#[local] Arguments to_int : simpl never.
#[local] Arguments to_time_t : simpl never.

(** The sample sentence of the source comments carries its own checksum. *)
Example checksum_rmc_sample :
  CheckSum cast_byte (bytes_of "$GPRMC,153938.00,V,,,,,,,160722,,,N*78" ++ [13; 10; 0]) = true
  /\ sprintf_02X (xor_loop cast_byte (bytes_of "$GPRMC,153938.00,V,,,,,,,160722,,,N*78") 1 35)
     = bytes_of "78" ++ [0].
Proof. vm_compute. split; reflexivity. Qed.

(** ** Machine integers *)

Lemma to_int_small z : -32768 <= z < 32768 -> to_int z = z.
Proof. intros H. unfold to_int. rewrite Z.mod_small; lia. Qed.

(** Narrowing an [unsigned long] to [int] keeps the low 16 bits. *)
Lemma to_int_to_time_t z : to_int (to_time_t z) = to_int z.
Proof.
  unfold to_int, to_time_t. f_equal.
  rewrite Zplus_mod, (Z.mod_mod_divide z 4294967296 65536), <- Zplus_mod.
  - reflexivity.
  - exists 65536. reflexivity.
Qed.

Lemma to_uint_small z : 0 <= z < 65536 -> to_uint z = z.
Proof. intros H. unfold to_uint. apply Z.mod_small; lia. Qed.

Lemma sizeof_gpsResponse_range k : 3 < sizeof_gpsResponse k <= 200.
Proof. destruct k; simpl; lia. Qed.

Lemma length_memset0 n : 0 <= n -> Z.of_nat (length (memset0 n)) = n.
Proof. intros H. unfold memset0. rewrite length_replicate. lia. Qed.

(** ** Checked array accesses *)

Lemma store_Some a i v :
  0 <= i < Z.of_nat (length a) -> store a i v = Some (<[Z.to_nat i := v]> a).
Proof.
  intros H. unfold store.
  destruct (Z.leb_spec 0 i); [|lia].
  destruct (Z.ltb_spec i (Z.of_nat (length a))); [reflexivity|lia].
Qed.

Lemma load_Some a i :
  0 <= i < Z.of_nat (length a) -> load a i = Some (char_at a i).
Proof.
  intros H. unfold load.
  destruct (Z.leb_spec 0 i); [|lia].
  destruct (Z.ltb_spec i (Z.of_nat (length a))); [reflexivity|lia].
Qed.

Lemma store_length a i v a' : store a i v = Some a' -> length a' = length a.
Proof.
  unfold store. destruct (_ && _); [|discriminate].
  intros [= <-]. apply length_insert.
Qed.

(** ** The framer keeps the frame within its array *)

Lemma frame_init_ok k : frame_ok k (frame_init k).
Proof.
  split; simpl.
  - apply length_memset0. destruct k; simpl; lia.
  - destruct k; simpl; lia.
Qed.

Lemma loop_body_ok k f c :
  frame_ok k f ->
  exists f' full ev, loop_body k f c = Some (f', full, ev) /\ frame_inv k f'.
Proof.
  intros [Hlen Hpo].
  pose proof (sizeof_gpsResponse_range k) as Hk.
  unfold loop_body.
  rewrite (to_uint_small (packetOffset f)) by lia.
  set (size := sizeof_gpsResponse k) in *.
  assert (Hm : Z.of_nat (length (memset0 size)) = size) by (apply length_memset0; lia).
  destruct (Z.leb_spec size (packetOffset f)) as [Hov|Hin].
  - (* overflow: the buffer is cleared and the offset is 0 *)
    destruct (Z.eqb_spec c ch_dollar) as [->|Hc].
    + simpl (0 =? 0). cbv iota.
      rewrite store_Some by lia. simpl.
      eexists _, _, _. split; [reflexivity|].
      repeat split; simpl; try rewrite length_insert; lia.
    + rewrite store_Some by lia. simpl.
      replace (2 <? 0) with false by reflexivity.
      eexists _, _, _. split; [reflexivity|].
      repeat split; simpl; try rewrite length_insert; try rewrite to_int_small; lia.
  - destruct (Z.eqb_spec c ch_dollar) as [->|Hc].
    + assert (Hb : Z.of_nat (length (if packetOffset f =? 0 then gpsResponse f else memset0 size)) = size)
        by (destruct (packetOffset f =? 0); lia).
      rewrite store_Some by lia. simpl.
      eexists _, _, _. split; [reflexivity|].
      repeat split; simpl; try rewrite length_insert; lia.
    + rewrite store_Some by lia. simpl.
      assert (Hi : Z.of_nat (length (<[Z.to_nat (packetOffset f) := c]> (gpsResponse f))) = size)
        by (rewrite length_insert; lia).
      assert (Hinc : frame_inv k
                (incr_offset
                   {| buildingSentence := buildingSentence f;
                      gpsResponse := <[Z.to_nat (packetOffset f) := c]> (gpsResponse f);
                      packetOffset := packetOffset f |}
                   (<[Z.to_nat (packetOffset f) := c]> (gpsResponse f)) (packetOffset f))).
      { repeat split; simpl; try rewrite to_int_small; lia. }
      destruct (Z.ltb_spec 2 (packetOffset f)) as [H2|H2].
      * rewrite (load_Some _ (packetOffset f - 1)) by lia. simpl.
        destruct (Z.eqb (char_at _ _) _).
        -- rewrite (load_Some _ (packetOffset f)) by lia. simpl.
           destruct (Z.eqb (char_at _ _) _).
           ++ eexists _, _, _. split; [reflexivity|].
              repeat split; simpl; try discriminate; destruct k; simpl in *; lia.
           ++ eexists _, _, _. split; [reflexivity|]. exact Hinc.
        -- eexists _, _, _. split; [reflexivity|]. exact Hinc.
      * eexists _, _, _. split; [reflexivity|]. exact Hinc.
Qed.

Lemma read_loop_inv k q : forall f,
  frame_inv k f ->
  exists f' full rest ev, read_loop k f q = Some (f', full, rest, ev) /\ frame_inv k f'.
Proof.
  induction q as [|c q IH]; intros f Hf; simpl.
  - eexists _, _, _, _. split; [reflexivity|]. exact Hf.
  - destruct (loop_body_ok k f c (proj1 Hf)) as (f' & full & ev & -> & Hf').
    destruct full.
    + eexists _, _, _, _. split; [reflexivity|]. exact Hf'.
    + destruct (IH f' Hf') as (f'' & full' & rest & ev' & -> & Hf'').
      eexists _, _, _, _. split; [reflexivity|]. exact Hf''.
Qed.

Lemma prologue_inv k f :
  frame_inv k f ->
  frame_inv k (if negb (buildingSentence f)
               then {| buildingSentence := buildingSentence f;
                       gpsResponse := memset0 (sizeof_gpsResponse k);
                       packetOffset := 0 |}
               else f).
Proof.
  intros Hf. destruct (buildingSentence f) eqn:E; simpl; [exact Hf|].
  pose proof (sizeof_gpsResponse_range k).
  repeat split; simpl; try apply length_memset0; try lia; discriminate.
Qed.

Lemma frame_epilogue_inv k f full : frame_inv k f -> frame_inv k (frame_epilogue k f full).
Proof.
  intros Hf. destruct k; simpl; [exact Hf|].
  destruct (buildingSentence f) eqn:E; simpl; [exact Hf|].
  destruct full; [|exact Hf].
  repeat split; simpl; try lia; discriminate.
Qed.

Lemma framer_call_inv k f q :
  frame_inv k f ->
  exists f' cand rest ev, framer_call k f q = Some (f', cand, rest, ev) /\ frame_inv k f'.
Proof.
  intros Hf. unfold framer_call, ProcessGPS_frame.
  destruct (read_loop_inv k q _ (prologue_inv k f Hf)) as (f' & full & rest & ev & -> & Hf').
  eexists _, _, _, _. split; [reflexivity|]. by apply frame_epilogue_inv.
Qed.

Lemma drain_inv k bursts : forall f port,
  frame_inv k f ->
  exists f' port' cands, drain k f port bursts = Some (f', port', cands) /\ frame_inv k f'.
Proof.
  induction bursts as [|b bursts IH]; intros f port Hf; simpl.
  - eexists _, _, _. split; [reflexivity|]. exact Hf.
  - destruct (port ++ b) as [|c q] eqn:E.
    + apply IH, Hf.
    + destruct (framer_call_inv k f (c :: q) Hf) as (f' & cand & rest & ev & -> & Hf').
      destruct (IH f' rest Hf') as (f'' & port' & cands & -> & Hf'').
      eexists _, _, _. split; [reflexivity|]. exact Hf''.
Qed.

Lemma feed_inv k s : forall f,
  frame_inv k f ->
  exists f' cands, feed k f s = Some (f', cands) /\ frame_inv k f'.
Proof.
  induction s as [|c s IH]; intros f Hf; simpl.
  - eexists _, _. split; [reflexivity|]. exact Hf.
  - destruct (framer_call_inv k f [c] Hf) as (f' & cand & rest & ev & -> & Hf').
    destruct (IH f' Hf') as (f'' & cands & -> & Hf'').
    eexists _, _. split; [reflexivity|]. exact Hf''.
Qed.

Lemma frame_init_inv k : frame_inv k (frame_init k).
Proof. split; [apply frame_init_ok|]. simpl. discriminate. Qed.

(** ** Frames in progress *)

Lemma length_padded k l :
  Z.of_nat (length l) <= sizeof_gpsResponse k ->
  Z.of_nat (length (padded k l)) = sizeof_gpsResponse k.
Proof.
  intros H. unfold padded. rewrite length_app, length_replicate. lia.
Qed.

Lemma padded_snoc k l c :
  Z.of_nat (length l) < sizeof_gpsResponse k ->
  <[length l := c]> (padded k l) = padded k (l ++ [c]).
Proof.
  intros H. unfold padded.
  replace (Z.to_nat (sizeof_gpsResponse k) - length l)%nat
    with (S (Z.to_nat (sizeof_gpsResponse k) - length (l ++ [c])))%nat
    by (rewrite length_app; simpl; lia).
  simpl replicate.
  replace (length l) with (length l + 0)%nat at 1 by lia.
  rewrite insert_app_r. simpl. by rewrite <- app_assoc.
Qed.

Lemma char_at_nat l (n : nat) : char_at l (Z.of_nat n) = nth n l 0.
Proof.
  unfold char_at. destruct (Z.ltb_spec (Z.of_nat n) 0); [lia|].
  by rewrite Nat2Z.id.
Qed.

Lemma char_at_padded_end k l c :
  char_at (padded k (l ++ [c])) (Z.of_nat (length l)) = c.
Proof.
  rewrite char_at_nat. unfold padded. rewrite <- app_assoc. simpl.
  apply nth_middle.
Qed.

Lemma char_at_padded_last k l c :
  l <> [] ->
  char_at (padded k (l ++ [c])) (Z.of_nat (length l) - 1) = default 0 (last l).
Proof.
  intros Hl. destruct l as [|a l'] using rev_ind; [done|]. clear IHl'.
  rewrite last_snoc, length_app. simpl.
  replace (Z.of_nat (length l' + 1) - 1) with (Z.of_nat (length l')) by lia.
  rewrite char_at_nat. unfold padded. rewrite <- !app_assoc. simpl.
  apply nth_middle.
Qed.

Lemma padded_start k :
  <[0%nat := ch_dollar]> (memset0 (sizeof_gpsResponse k)) = padded k [ch_dollar].
Proof. destruct k; reflexivity. Qed.

(** A start marker always opens a clean frame, whatever was in progress. *)
Lemma framer_call_dollar k f :
  frame_inv k f ->
  exists ev, framer_call k f [ch_dollar] = Some (frame_of k [], None, [], ev).
Proof.
  intros [[Hlen Hpo] Hb].
  pose proof (sizeof_gpsResponse_range k) as Hk.
  assert (Hm : Z.of_nat (length (memset0 (sizeof_gpsResponse k))) = sizeof_gpsResponse k)
    by (apply length_memset0; lia).
  unfold framer_call, ProcessGPS_frame.
  destruct (buildingSentence f) eqn:Eb; simpl negb; cbv iota.
  - specialize (Hb eq_refl).
    unfold read_loop, loop_body.
    rewrite (to_uint_small (packetOffset f)) by lia.
    destruct (Z.leb_spec (sizeof_gpsResponse k) (packetOffset f)) as [Hov|Hin].
    + simpl (ch_dollar =? ch_dollar). simpl (0 =? 0). cbv iota.
      rewrite store_Some by lia. simpl.
      rewrite padded_start.
      destruct k; eexists; reflexivity.
    + simpl (ch_dollar =? ch_dollar). cbv iota.
      destruct (Z.eqb_spec (packetOffset f) 0) as [E0|E0]; [lia|].
      rewrite store_Some by lia. simpl.
      rewrite padded_start.
      destruct k; eexists; reflexivity.
  - unfold read_loop, loop_body. simpl packetOffset. simpl gpsResponse.
    replace (to_uint 0) with 0 by reflexivity.
    destruct (Z.leb_spec (sizeof_gpsResponse k) 0) as [Hov|Hin]; [lia|].
    simpl (ch_dollar =? ch_dollar). simpl (0 =? 0). cbv iota.
    rewrite store_Some by lia. simpl.
    rewrite padded_start.
    destruct k; eexists; reflexivity.
Qed.

(** One more byte in a frame that has room for it. *)
Lemma framer_call_append k body c :
  Z.of_nat (length body) + 1 < sizeof_gpsResponse k ->
  c <> ch_dollar ->
  exists f',
    framer_call k (frame_of k body) [c]
    = Some (f',
            (if completesb body c then Some (padded k (ch_dollar :: body ++ [c])) else None),
            [], [])
    /\ (completesb body c = false -> f' = frame_of k (body ++ [c]))
    /\ (completesb body c = true -> buildingSentence f' = false /\ frame_ok k f').
Proof.
  intros Hroom Hc.
  pose proof (sizeof_gpsResponse_range k) as Hk.
  unfold framer_call, ProcessGPS_frame.
  simpl buildingSentence. simpl negb. cbv iota.
  unfold read_loop, loop_body.
  simpl packetOffset. simpl gpsResponse. simpl buildingSentence.
  rewrite to_uint_small by lia.
  destruct (Z.leb_spec (sizeof_gpsResponse k) (1 + Z.of_nat (length body))) as [Hov|_]; [lia|].
  destruct (Z.eqb_spec c ch_dollar) as [|_]; [done|].
  assert (Hlen : Z.of_nat (length (padded k (ch_dollar :: body))) = sizeof_gpsResponse k)
    by (apply length_padded; simpl; lia).
  rewrite store_Some by lia.
  replace (Z.to_nat (1 + Z.of_nat (length body))) with (length (ch_dollar :: body))
    by (simpl; lia).
  rewrite padded_snoc by (simpl length; lia).
  simpl mbind. simpl option_bind.
  change ((ch_dollar :: body) ++ [c]) with (ch_dollar :: body ++ [c]).
  assert (Hlen' : Z.of_nat (length (padded k (ch_dollar :: body ++ [c]))) = sizeof_gpsResponse k)
    by (apply length_padded; simpl; rewrite length_app; simpl; lia).
  assert (Hinc : incr_offset
            {| buildingSentence := true;
               gpsResponse := padded k (ch_dollar :: body ++ [c]);
               packetOffset := 1 + Z.of_nat (length body) |}
            (padded k (ch_dollar :: body ++ [c])) (1 + Z.of_nat (length body))
          = frame_of k (body ++ [c])).
  { unfold incr_offset, frame_of. simpl. rewrite to_int_small by lia.
    rewrite length_app. simpl. f_equal. lia. }
  assert (L2 : load (padded k (ch_dollar :: body ++ [c])) (1 + Z.of_nat (length body)) = Some c).
  { rewrite load_Some by lia. f_equal.
    replace (1 + Z.of_nat (length body)) with (Z.of_nat (length (ch_dollar :: body)))
      by (simpl length; lia).
    apply (char_at_padded_end k (ch_dollar :: body) c). }
  assert (L1 : 2 < 1 + Z.of_nat (length body) ->
               load (padded k (ch_dollar :: body ++ [c])) (1 + Z.of_nat (length body) - 1)
               = Some (default 0 (last body))).
  { intros H2. rewrite load_Some by lia. f_equal.
    replace (1 + Z.of_nat (length body) - 1)
      with (Z.of_nat (length (ch_dollar :: body)) - 1) by (simpl length; lia).
    etrans; [apply (char_at_padded_last k (ch_dollar :: body) c); done|].
    destruct body as [|b body]; [simpl in H2; lia|]. reflexivity. }
  unfold completesb.
  destruct (Z.ltb_spec 2 (1 + Z.of_nat (length body))) as [H2|H2]; simpl andb.
  - rewrite (L1 H2). cbn [mbind option_bind].
    destruct (Z.eqb_spec (default 0 (last body)) ch_CR) as [Ecr|Ecr]; simpl andb.
    + rewrite L2. cbn [mbind option_bind].
      destruct (Z.eqb_spec c ch_LF) as [Elf|Elf].
      * eexists. split; [reflexivity|]. split; [discriminate|]. intros _.
        split; [destruct k; reflexivity|].
        apply frame_epilogue_inv. split; [|discriminate].
        split; cbn [gpsResponse packetOffset]; [exact Hlen'|destruct k; lia].
      * rewrite Hinc. eexists. split; [destruct k; reflexivity|].
        split; [intros _; destruct k; reflexivity|discriminate].
    + rewrite Hinc. eexists. split; [destruct k; reflexivity|].
      split; [intros _; destruct k; reflexivity|discriminate].
  - rewrite Hinc. eexists. split; [destruct k; reflexivity|].
    split; [intros _; destruct k; reflexivity|discriminate].
Qed.

(** A byte other than the start marker, read while no sentence is being
    built, is stored and forgotten. *)
Lemma framer_call_idle k f c :
  buildingSentence f = false ->
  c <> ch_dollar ->
  exists f' ev,
    framer_call k f [c] = Some (f', None, [], ev)
    /\ buildingSentence f' = false /\ frame_ok k f'.
Proof.
  intros Hb Hc.
  pose proof (sizeof_gpsResponse_range k) as Hk.
  assert (Hm : Z.of_nat (length (memset0 (sizeof_gpsResponse k))) = sizeof_gpsResponse k)
    by (apply length_memset0; lia).
  unfold framer_call, ProcessGPS_frame. rewrite Hb. simpl negb. cbv iota.
  unfold read_loop, loop_body. simpl packetOffset. simpl gpsResponse. simpl buildingSentence.
  replace (to_uint 0) with 0 by reflexivity.
  destruct (Z.leb_spec (sizeof_gpsResponse k) 0) as [|_]; [lia|].
  destruct (Z.eqb_spec c ch_dollar) as [|_]; [done|].
  rewrite store_Some by lia. cbn [mbind option_bind].
  replace (2 <? 0) with false by reflexivity.
  eexists _, _. split; [destruct k; reflexivity|].
  split; [destruct k; reflexivity|].
  assert (Hok : frame_ok k
            (incr_offset
               {| buildingSentence := false;
                  gpsResponse := <[Z.to_nat 0 := c]> (memset0 (sizeof_gpsResponse k));
                  packetOffset := 0 |}
               (<[Z.to_nat 0 := c]> (memset0 (sizeof_gpsResponse k))) 0)).
  { split; cbn [incr_offset gpsResponse packetOffset].
    - by rewrite length_insert.
    - rewrite to_int_small; lia. }
  destruct k; exact Hok.
Qed.

Lemma frame_of_inv k body :
  Z.of_nat (length body) + 1 <= sizeof_gpsResponse k -> frame_inv k (frame_of k body).
Proof.
  intros H. pose proof (sizeof_gpsResponse_range k).
  split; [split|]; cbn [frame_of gpsResponse packetOffset buildingSentence]; try lia.
  apply length_padded. simpl. lia.
Qed.

Lemma feed_app k s1 : forall s2 f,
  feed k f (s1 ++ s2)
  = match feed k f s1 with
    | None => None
    | Some (f1, c1) =>
        match feed k f1 s2 with
        | None => None
        | Some (f2, c2) => Some (f2, c1 ++ c2)
        end
    end.
Proof.
  induction s1 as [|c s1 IH]; intros s2 f; simpl.
  - destruct (feed k f s2) as [[f2 c2]|]; reflexivity.
  - destruct (framer_call k f [c]) as [[[[f' cand] rest] ev]|]; [|reflexivity].
    rewrite IH.
    destruct (feed k f' s1) as [[f1 c1]|]; [|reflexivity].
    destruct (feed k f1 s2) as [[f2 c2]|]; [|reflexivity].
    by rewrite app_assoc.
Qed.

Lemma feed_dollar k f :
  frame_inv k f -> feed k f [ch_dollar] = Some (frame_of k [], []).
Proof.
  intros Hf. simpl.
  destruct (framer_call_dollar k f Hf) as [ev ->]. reflexivity.
Qed.

Lemma completesb_true body c :
  completesb body c = true
  <-> c = ch_LF /\ exists b', b' <> [] /\ body = b' ++ [ch_CR].
Proof.
  unfold completesb. rewrite !andb_true_iff, Z.ltb_lt, !Z.eqb_eq.
  split.
  - intros [[Hlen Hlast] ->]. split; [reflexivity|].
    destruct body as [|a body'] using rev_ind; [simpl in Hlen; lia|].
    clear IHbody'. rewrite last_snoc in Hlast. simpl in Hlast. subst a.
    exists body'. split; [|reflexivity].
    intros ->. simpl in Hlen. lia.
  - intros [-> (b' & Hb' & ->)].
    rewrite last_snoc, length_app. simpl.
    destruct b'; [done|]. simpl. repeat split; lia.
Qed.

(** While no sentence is being built, a stream without start marker emits
    nothing. *)
Lemma feed_idle k s : forall f,
  buildingSentence f = false ->
  frame_ok k f ->
  ch_dollar ∉ s ->
  exists f', feed k f s = Some (f', [])
             /\ buildingSentence f' = false /\ frame_ok k f'.
Proof.
  induction s as [|c s IH]; intros f Hb Hok Hd.
  - by exists f.
  - apply not_elem_of_cons in Hd as [Hc Hd].
    destruct (framer_call_idle k f c Hb) as (f1 & ev & Hcall & Hb1 & Hok1); [done|].
    cbn [feed]. rewrite Hcall.
    destruct (IH f1 Hb1 Hok1 Hd) as (f' & -> & Hb' & Hok').
    by exists f'.
Qed.

(** A body fed into a frame in progress either leaves the frame open, no
    byte having completed it, or some byte completed it, and the framer
    ends idle after one candidate. *)
Lemma feed_body_cases k body : forall acc,
  ch_dollar ∉ body ->
  Z.of_nat (length acc) + Z.of_nat (length body) + 1 <= sizeof_gpsResponse k ->
  (feed k (frame_of k acc) body = Some (frame_of k (acc ++ body), [])
   /\ forall b1 c b2, body = b1 ++ c :: b2 -> completesb (acc ++ b1) c = false)
  \/ (exists f' cand,
        feed k (frame_of k acc) body = Some (f', [cand])
        /\ buildingSentence f' = false /\ frame_ok k f'
        /\ exists b1 c b2, body = b1 ++ c :: b2 /\ completesb (acc ++ b1) c = true).
Proof.
  induction body as [|c body IH]; intros acc Hd Hroom.
  - left. rewrite app_nil_r. split; [done|]. by intros [|] ? ? ?.
  - simpl in Hroom. apply not_elem_of_cons in Hd as [Hc Hd].
    destruct (framer_call_append k acc c) as (f1 & Hcall & Hopen & Hclosed); [lia|done|].
    cbn [feed]. rewrite Hcall.
    destruct (completesb acc c) eqn:E.
    + destruct (Hclosed eq_refl) as [Hb1 Hok1].
      destruct (feed_idle k body f1 Hb1 Hok1 Hd) as (f' & -> & Hb' & Hok').
      right. eexists f', _. split; [reflexivity|]. split; [done|]. split; [done|].
      exists [], c, body. by rewrite app_nil_r.
    + rewrite (Hopen eq_refl).
      destruct (IH (acc ++ [c]) Hd) as [[-> Hall]|(f' & cand & -> & Hb' & Hok' & b1 & c' & b2 & -> & Hc')].
      * rewrite length_app. simpl. lia.
      * left. rewrite <- app_assoc. split; [done|].
        intros [|x b1] c' b2 Heq; simplify_eq/=.
        -- by rewrite app_nil_r.
        -- specialize (Hall b1 c' b2 eq_refl). by rewrite <- app_assoc in Hall.
      * right. exists f', cand. split; [done|]. split; [done|]. split; [done|].
        exists (c :: b1), c', b2. split; [done|]. by rewrite <- app_assoc in Hc'.
Qed.

Lemma open_unterminated body :
  (forall b1 c b2, body = b1 ++ c :: b2 -> completesb b1 c = false) ->
  unterminated body.
Proof.
  intros Hall b1 b2 ->. destruct b1 as [|x b1]; [done|].
  specialize (Hall ((x :: b1) ++ [ch_CR]) ch_LF b2).
  rewrite <- app_assoc in Hall. specialize (Hall eq_refl).
  assert (completesb ((x :: b1) ++ [ch_CR]) ch_LF = true); [|congruence].
  apply completesb_true. split; [done|]. by exists (x :: b1).
Qed.

Lemma closed_terminated body b1 c b2 :
  body = b1 ++ c :: b2 -> completesb b1 c = true -> ~ unterminated body.
Proof.
  intros -> [-> (b' & Hb' & ->)]%completesb_true Hu.
  apply Hb', (Hu b' b2). by rewrite <- app_assoc.
Qed.

(** The candidate emitted on the byte that follows a start marker and a
    body within capacity. *)
Lemma emitted_on_frame k pre body c :
  ch_dollar ∉ body ->
  Z.of_nat (length body) + 2 <= sizeof_gpsResponse k ->
  (unterminated body
   /\ emitted_on k (pre ++ ch_dollar :: body) c
      = if completesb body c then Some (padded k (ch_dollar :: body ++ [c])) else None)
  \/ (~ unterminated body /\ emitted_on k (pre ++ ch_dollar :: body) c = None).
Proof.
  intros Hd Hroom. unfold emitted_on.
  destruct (feed_inv k pre _ (frame_init_inv k)) as (f0 & cands0 & Hpre & Hf0).
  change (pre ++ ch_dollar :: body) with (pre ++ [ch_dollar] ++ body).
  rewrite feed_app, Hpre, feed_app, (feed_dollar k f0 Hf0).
  destruct (feed_body_cases k body []) as [[Hfeed Hall]|(f' & cand & Hfeed & Hb' & Hok' & b1 & c' & b2 & Hsplit & Hc')];
    [done|simpl; lia| |]; change ([] ++ body) with body in *; rewrite Hfeed.
  - left. split; [by apply open_unterminated|].
    destruct (Z.eq_dec c ch_dollar) as [->|Hc].
    + destruct (framer_call_dollar k (frame_of k body)) as [ev ->];
        [apply frame_of_inv; lia|].
      unfold completesb. simpl (ch_dollar =? ch_LF). by rewrite andb_false_r.
    + by destruct (framer_call_append k body c) as (f1 & -> & _); [lia|done|].
  - right. split; [by eapply closed_terminated|].
    destruct (Z.eq_dec c ch_dollar) as [->|Hc].
    + destruct (framer_call_dollar k f') as [ev ->]; [|done].
      split; [done|]. by rewrite Hb'.
    + by destruct (framer_call_idle k f' c Hb' Hc) as (f1 & ev & -> & _).
Qed.

(** Without a start marker nothing is emitted. *)
Lemma emitted_on_idle k s c : ch_dollar ∉ s -> emitted_on k s c = None.
Proof.
  intros Hd. unfold emitted_on.
  destruct (feed_idle k s (frame_init k)) as (f' & -> & Hb' & Hok');
    [done|apply frame_init_ok|done|].
  destruct (Z.eq_dec c ch_dollar) as [->|Hc].
  - destruct (framer_call_dollar k f') as [ev ->]; [|done].
    split; [done|]. by rewrite Hb'.
  - by destruct (framer_call_idle k f' c Hb' Hc) as (f1 & ev & -> & _).
Qed.

(** ** C strings and the checksum loop *)

Lemma cstr_app_nonzero l r : Forall (fun c => c <> 0) l -> cstr (l ++ r) = l ++ cstr r.
Proof.
  induction 1 as [|c l Hc _ IH]; [reflexivity|]. simpl.
  destruct (Z.eqb_spec c 0); [done|]. by rewrite IH.
Qed.

Lemma cstr_zeros n : cstr (replicate n 0) = [].
Proof. by destruct n. Qed.

Lemma char_at_app_l l r i :
  0 <= i < Z.of_nat (length l) -> char_at (l ++ r) i = char_at l i.
Proof.
  intros H. unfold char_at. destruct (Z.ltb_spec i 0); [lia|].
  apply app_nth1. lia.
Qed.

Lemma char_at_app_r l r (j : nat) :
  char_at (l ++ r) (Z.of_nat (length l + j)) = nth j r 0.
Proof.
  rewrite char_at_nat, app_nth2 by lia. f_equal. lia.
Qed.

Lemma fold_xor_ext (g h : Z -> Z) xs : forall acc,
  Forall (fun x => g x = h x) xs ->
  fold_left (fun a x => Z.lxor a (g x)) xs acc
  = fold_left (fun a x => Z.lxor a (h x)) xs acc.
Proof.
  induction xs as [|x xs IH]; intros acc Hxs; [reflexivity|].
  apply Forall_cons in Hxs as [Hx Hxs]. simpl. rewrite Hx. by apply IH.
Qed.

Lemma xor_loop_ext cast p p' lo hi :
  (forall x, lo <= x < hi -> char_at p x = char_at p' x) ->
  xor_loop cast p lo hi = xor_loop cast p' lo hi.
Proof.
  intros H. unfold xor_loop. apply fold_xor_ext.
  apply Forall_seqZ. intros x Hx. rewrite H by lia. reflexivity.
Qed.

Lemma find_asterisk_skip p xs ys :
  Forall (fun x => char_at p x <> ch_star) xs ->
  find_asterisk p (xs ++ ys) = find_asterisk p ys.
Proof.
  induction 1 as [|x xs Hx _ IH]; [reflexivity|]. simpl.
  destruct (Z.eqb_spec (char_at p x) ch_star); [done|]. exact IH.
Qed.

Lemma hexdigit_nonzero d : 0 <= d -> hexdigit d <> 0.
Proof. intros H. unfold hexdigit. destruct (d <? 10); lia. Qed.

Lemma sprintf_02X_digits i :
  char_at (sprintf_02X i) 0 <> 0 /\ char_at (sprintf_02X i) 1 <> 0.
Proof.
  unfold sprintf_02X.
  assert (0 <= to_uint i < 65536) by (unfold to_uint; apply Z.mod_pos_bound; lia).
  destruct (to_uint i <? 256); [|destruct (to_uint i <? 4096)]; simpl;
    split; apply hexdigit_nonzero;
    try (apply Z.div_pos; lia); try (apply Z.mod_pos_bound; lia).
Qed.

Lemma char_at_in l i : 0 <= i < Z.of_nat (length l) -> char_at l i ∈ l.
Proof.
  intros H. unfold char_at. destruct (Z.ltb_spec i 0); [lia|].
  apply list_elem_of_In, nth_In. lia.
Qed.

(** A body followed by the asterisk, the first digit of its checksum and any
    second digit passes [CheckSum]. *)
Lemma CheckSum_framed cast B h l rest :
  Forall (fun c => c <> 0) B ->
  ch_star ∉ B ->
  5 < Z.of_nat (length B) ->
  h = char_at (sprintf_02X (xor_loop cast B 1 (Z.of_nat (length B)))) 0 ->
  l <> 0 ->
  cstr rest = [] ->
  CheckSum cast (B ++ [ch_star; h; l; ch_CR; ch_LF] ++ rest) = true.
Proof.
  intros HB Hstar Hlen Hh Hl Hrest.
  assert (Hh0 : h <> 0) by (subst h; apply sprintf_02X_digits).
  set (p := B ++ [ch_star; h; l; ch_CR; ch_LF] ++ rest).
  assert (Hsize : strlen p = Z.of_nat (length B) + 5).
  { unfold strlen, p. rewrite cstr_app_nonzero by done.
    rewrite cstr_app_nonzero
      by (repeat constructor; unfold ch_star, ch_CR, ch_LF; lia).
    rewrite Hrest, !length_app. simpl. lia. }
  assert (Hfind : find_asterisk p (seqZ 0 (strlen p)) = Z.of_nat (length B)).
  { rewrite Hsize, seqZ_app by lia.
    rewrite find_asterisk_skip.
    - rewrite seqZ_cons by lia. cbn [find_asterisk].
      assert (E : char_at p (0 + Z.of_nat (length B)) = ch_star).
      { replace (0 + Z.of_nat (length B)) with (Z.of_nat (length B + 0)) by lia.
        unfold p. rewrite char_at_app_r. reflexivity. }
      rewrite E, Z.eqb_refl. lia.
    - apply Forall_seqZ. intros x Hx. unfold p.
      rewrite char_at_app_l by lia. intros E. apply Hstar. rewrite <- E.
      apply char_at_in. lia. }
  unfold CheckSum. fold p. rewrite Hfind, Hsize.
  destruct (Z.ltb_spec 10 (Z.of_nat (length B) + 5)); [|lia].
  destruct (Z.ltb_spec 0 (Z.of_nat (length B))); [|lia].
  rewrite (xor_loop_ext cast p B) by (intros x Hx; apply char_at_app_l; lia).
  unfold char_at at 1. simpl.
  replace (Z.of_nat (length B) + 1) with (Z.of_nat (length B + 1)) by lia.
  unfold p. rewrite char_at_app_r. simpl. rewrite <- Hh. apply Z.eqb_refl.
Qed.

Lemma SetCheckSum_framed cast B (n : nat) :
  Forall (fun c => c <> 0) B ->
  (5 <= n)%nat ->
  let Calc := sprintf_02X (xor_loop cast B 1 (Z.of_nat (length B))) in
  SetCheckSum cast (B ++ replicate n 0) (Z.of_nat (length B + n))
  = (true, B ++ [ch_star; char_at Calc 0; char_at Calc 1; ch_CR; ch_LF]
             ++ replicate (n - 5) 0).
Proof.
  intros HB Hn Calc. unfold SetCheckSum.
  assert (Hsize : strlen (B ++ replicate n 0) = Z.of_nat (length B)).
  { unfold strlen. rewrite cstr_app_nonzero, cstr_zeros, app_nil_r by done.
    reflexivity. }
  rewrite Hsize.
  destruct (Z.leb_spec (Z.of_nat (length B) + 5) (Z.of_nat (length B + n))); [|lia].
  rewrite (xor_loop_ext cast _ B) by (intros x Hx; apply char_at_app_l; lia).
  fold Calc. f_equal.
  replace n with (5 + (n - 5))%nat at 1 by lia.
  rewrite replicate_add. simpl.
  rewrite Nat2Z.id.
  replace (Z.to_nat (Z.of_nat (length B) + 1)) with (length B + 1)%nat by lia.
  replace (Z.to_nat (Z.of_nat (length B) + 2)) with (length B + 2)%nat by lia.
  replace (Z.to_nat (Z.of_nat (length B) + 3)) with (length B + 3)%nat by lia.
  replace (Z.to_nat (Z.of_nat (length B) + 4)) with (length B + 4)%nat by lia.
  replace (length B) with (length B + 0)%nat at 5 by lia.
  rewrite !insert_app_r. reflexivity.
Qed.

(** ** The status bits of part_001 *)


Lemma testbit_to_uint8 x j : 0 <= j < 8 -> Z.testbit (to_uint8 x) j = Z.testbit x j.
Proof.
  intros H. unfold to_uint8. change 256 with (2 ^ 8).
  apply Z.mod_pow2_bits_low. lia.
Qed.

Lemma bitRead_bitSet v i j :
  0 <= i -> 0 <= j < 8 ->
  Part001.bitRead (Part001.bitSet v i) j = Part001.bitRead v j || (i =? j).
Proof.
  intros Hi Hj. unfold Part001.bitRead, Part001.bitSet.
  rewrite testbit_to_uint8, Z.lor_spec, Z.shiftl_spec by lia.
  f_equal. destruct (Z.eqb_spec i j) as [->|Hne].
  - by rewrite Z.sub_diag.
  - destruct (Z.lt_ge_cases j i).
    + apply Z.testbit_neg_r. lia.
    + replace (j - i) with (Z.succ (j - i - 1)) by lia.
      rewrite Z.bit0_odd || idtac.
      change 1 with (2 * 0 + 1). rewrite Z.testbit_odd_succ by lia.
      apply Z.testbit_0_l.
Qed.

Lemma bitRead_bitClear v i j :
  0 <= i -> 0 <= j < 8 ->
  Part001.bitRead (Part001.bitClear v i) j = Part001.bitRead v j && negb (i =? j).
Proof.
  intros Hi Hj. unfold Part001.bitRead, Part001.bitClear.
  rewrite testbit_to_uint8, Z.ldiff_spec, Z.shiftl_spec by lia.
  f_equal. f_equal. destruct (Z.eqb_spec i j) as [->|Hne].
  - by rewrite Z.sub_diag.
  - destruct (Z.lt_ge_cases j i).
    + apply Z.testbit_neg_r. lia.
    + replace (j - i) with (Z.succ (j - i - 1)) by lia.
      change 1 with (2 * 0 + 1). rewrite Z.testbit_odd_succ by lia.
      apply Z.testbit_0_l.
Qed.

Ltac bits :=
  repeat (rewrite ?bitRead_bitSet, ?bitRead_bitClear by lia); simpl;
  rewrite ?andb_true_r, ?orb_false_r, ?andb_false_r, ?orb_true_r.

(** ** part_001: the fix-quality event *)

Lemma Part001_apply_fix_flags st c :
  let st' := (Part001.apply_fix st c).1 in
  Part001.bitRead (Part001._gpsStatus st') 0 = Part001.bitRead (Part001._gpsStatus st) 0
  /\ Part001.bbr st' = (c =? 49)
  /\ Part001.fix2 st' = (c =? 50)
  /\ Part001.fix3 st' = (c =? 51).
Proof.
  unfold Part001.apply_fix, Part001.bbr, Part001.fix2, Part001.fix3.
  destruct (Z.eqb_spec c 49) as [->|H1]; [simpl; bits; done|].
  destruct (Z.eqb_spec c 50) as [->|H2]; [simpl; bits; done|].
  destruct (Z.eqb_spec c 51) as [->|H3]; [simpl; bits; done|].
  simpl; bits; done.
Qed.

Lemma Part001_apply_fix_frame st c :
  let st' := (Part001.apply_fix st c).1 in
  Part001.clock st' = Part001.clock st
  /\ Part001.eeprom st' = Part001.eeprom st
  /\ Part001._gpsTime st' = Part001._gpsTime st
  /\ Part001.frame st' = Part001.frame st.
Proof.
  unfold Part001.apply_fix.
  destruct (c =? 49); [done|]. destruct (c =? 50); [done|].
  destruct (c =? 51); done.
Qed.

Lemma Part001_apply_fix_events st c :
  (Part001.apply_fix st c).2
  = if (c =? 49) || (c =? 50) || (c =? 51) then []
    else [Serial_print "TimeSource, unexpected char in [9]:"; Serial_chars [c]].
Proof.
  unfold Part001.apply_fix.
  destruct (c =? 49); [done|]. destruct (c =? 50); [done|].
  destruct (c =? 51); done.
Qed.

(** ** part_001: the time/date event *)

Lemma Part001_apply_epoch_untrusted st t :
  Part001.bbr st = false -> Part001.fix2 st = false -> Part001.fix3 st = false ->
  Part001.apply_epoch st t
  = (Part001.set_gpsStatus st (Part001.bitSet (Part001._gpsStatus st) 0),
     [Serial_print "TimeSet pending GPGSA"]).
Proof.
  unfold Part001.bbr, Part001.fix2, Part001.fix3, Part001.apply_epoch.
  intros Hb H2 H3. cbn [Part001.set_gpsStatus Part001._gpsStatus].
  rewrite !bitRead_bitSet by lia. rewrite Hb, H2, H3. reflexivity.
Qed.

Lemma Part001_apply_epoch_clock st t :
  Part001.clock (Part001.apply_epoch st t).1
  = if Part001.bbr st || Part001.fix2 st || Part001.fix3 st then
      if negb (timeSet (Part001.clock st)) then setTime t (Part001.clock st)
      else if to_int (t - now (Part001.clock st)) =? 0 then Part001.clock st
           else setTime t (Part001.clock st)
    else Part001.clock st.
Proof.
  unfold Part001.bbr, Part001.fix2, Part001.fix3, Part001.apply_epoch.
  cbn [Part001.set_gpsStatus Part001._gpsStatus].
  rewrite !bitRead_bitSet by lia. simpl (0 =? _). rewrite !orb_false_r.
  destruct (Part001.bitRead (Part001._gpsStatus st) 1);
  destruct (Part001.bitRead (Part001._gpsStatus st) 2);
  destruct (Part001.bitRead (Part001._gpsStatus st) 3); simpl;
  destruct (timeSet (Part001.clock st)); simpl; try reflexivity;
  rewrite to_int_to_time_t;
  destruct (to_int (t - now (Part001.clock st)) =? 0); reflexivity.
Qed.

(** ** Events of the framer and of the spam detector *)

Lemma eeprom_writes_app a b : eeprom_writes (a ++ b) = eeprom_writes a ++ eeprom_writes b.
Proof. apply List.filter_app. Qed.

Lemma decay_reports_app a b : decay_reports (a ++ b) = decay_reports a ++ decay_reports b.
Proof. apply List.filter_app. Qed.

Lemma quiet_app a b : quiet a -> quiet b -> quiet (a ++ b).
Proof.
  intros [Ha1 Ha2] [Hb1 Hb2]. split.
  - by rewrite eeprom_writes_app, Ha1, Hb1.
  - by rewrite decay_reports_app, Ha2, Hb2.
Qed.

Lemma quiet_nil : quiet [].
Proof. by split. Qed.

Lemma loop_body_quiet k f c f' full ev :
  loop_body k f c = Some (f', full, ev) -> quiet ev.
Proof.
  unfold loop_body, store, load. intros H.
  destruct k; repeat (first [progress simplify_option_eq | case_match]);
    by split.
Qed.

Lemma read_loop_quiet k q : forall f f' full rest ev,
  read_loop k f q = Some (f', full, rest, ev) -> quiet ev.
Proof.
  induction q as [|c q IH]; intros f f' full rest ev; simpl.
  - intros [= <- <- <- <-]. apply quiet_nil.
  - destruct (loop_body k f c) as [[[f1 full1] ev1]|] eqn:E; [|discriminate].
    pose proof (loop_body_quiet _ _ _ _ _ _ E) as Hq1.
    destruct full1.
    + intros [= <- <- <- <-]. exact Hq1.
    + destruct (read_loop k f1 q) as [[[[f2 full2] rest2] ev2]|] eqn:E2; [|discriminate].
      intros [= <- <- <- <-]. apply quiet_app; [exact Hq1|]. by eapply IH.
Qed.

Lemma read_loop_total k q : forall f,
  frame_ok k f ->
  exists f' full rest ev, read_loop k f q = Some (f', full, rest, ev) /\ frame_ok k f'.
Proof.
  induction q as [|c q IH]; intros f Hf; simpl.
  - eexists _, _, _, _. split; [reflexivity|]. exact Hf.
  - destruct (loop_body_ok k f c Hf) as (f' & full & ev & -> & Hf').
    destruct full.
    + eexists _, _, _, _. split; [reflexivity|]. exact (proj1 Hf').
    + destruct (IH f' (proj1 Hf')) as (f'' & full' & rest & ev' & -> & Hf'').
      eexists _, _, _, _. split; [reflexivity|]. exact Hf''.
Qed.

Lemma ProcessGPS_frame_total k f q :
  frame_ok k f ->
  exists f' full rest ev, ProcessGPS_frame k f q = Some (f', full, rest, ev) /\ frame_ok k f'.
Proof.
  intros Hf. unfold ProcessGPS_frame. apply read_loop_total.
  destruct (negb _); [|exact Hf].
  pose proof (sizeof_gpsResponse_range k).
  split; simpl; [apply length_memset0|]; lia.
Qed.

Lemma ProcessGPS_frame_quiet k f q f' full rest ev :
  ProcessGPS_frame k f q = Some (f', full, rest, ev) -> quiet ev.
Proof. apply read_loop_quiet. Qed.

Lemma GPSTime_Spam_quiet p : (GPSTime.Spam p).1 = false /\ quiet (GPSTime.Spam p).2.
Proof.
  unfold GPSTime.Spam. cbn [fst snd]. split; [reflexivity|].
  match goal with |- context [first_found ?a ?b] => destruct (first_found a b) end;
    [|apply quiet_nil].
  split; vm_compute; reflexivity.
Qed.

Lemma Part001_Spam_quiet p : (Part001.Spam p).1 = false /\ quiet (Part001.Spam p).2.
Proof.
  unfold Part001.Spam. cbn [fst snd]. split; [reflexivity|].
  match goal with |- context [first_found ?a ?b] => destruct (first_found a b) end;
    [|apply quiet_nil].
  split; vm_compute; reflexivity.
Qed.

(** ** part_001: what a dispatched sentence can do *)

Lemma Part001_apply_fix_quiet st c : quiet (Part001.apply_fix st c).2.
Proof.
  rewrite Part001_apply_fix_events. destruct (_ || _); by split.
Qed.

Lemma Part001_SyncTimeToGPS_cases makeTime st p :
  let r := Part001.SyncTimeToGPS makeTime st p in
  (r.1.2 = st /\ quiet r.2)
  \/ (exists t, 0 < t /\ r.1.2 = (Part001.apply_epoch st t).1
                /\ r.2 = (Part001.apply_epoch st t).2).
Proof.
  unfold Part001.SyncTimeToGPS.
  repeat case_match; simpl; try (left; split; [reflexivity|by split]).
  right. eexists. split; [|split].
  - match goal with H : (0 <? _) = true |- _ => apply Z.ltb_lt in H; exact H end.
  - match goal with H : Part001.apply_epoch _ _ = _ |- _ => by rewrite H end.
  - match goal with H : Part001.apply_epoch _ _ = _ |- _ => by rewrite H end.
Qed.

Lemma Part001_TimeSource_cases st p :
  Part001.TimeSource st p = (false, st, [])
  \/ exists c, Part001.TimeSource st p
               = (true, (Part001.apply_fix st c).1, (Part001.apply_fix st c).2).
Proof.
  unfold Part001.TimeSource. destruct (strstr p "$GPGSA"); [|by left].
  right. exists (char_at p 9). by destruct (Part001.apply_fix st (char_at p 9)).
Qed.

Lemma Part001_dispatch_cases makeTime st p :
  let r := Part001.dispatch makeTime st p in
  (r.1 = st /\ quiet r.2)
  \/ (exists c, r.1 = (Part001.apply_fix st c).1 /\ quiet r.2)
  \/ (exists t, 0 < t /\ r.1 = (Part001.apply_epoch st t).1
                /\ eeprom_writes r.2 = eeprom_writes (Part001.apply_epoch st t).2
                /\ decay_reports r.2 = decay_reports (Part001.apply_epoch st t).2).
Proof.
  unfold Part001.dispatch.
  destruct (CheckSum cast_char p); [|left; by split].
  destruct (Part001_Spam_quiet p) as [Hs Hq].
  destruct (Part001.Spam p) as [spam ev1]. simpl in Hs, Hq. subst spam. simpl negb. cbv iota.
  assert (Hq0 : quiet [Serial_print "CS+:"; Serial_chars (nonzero_chars p)]) by (by split).
  destruct (Part001_TimeSource_cases st p) as [->|[c ->]]; simpl negb; cbv iota.
  - destruct (Part001_SyncTimeToGPS_cases makeTime st p) as [[H1 H2]|(t & Ht & H1 & H2)];
      destruct (Part001.SyncTimeToGPS makeTime st p) as [[b st2] ev3];
      cbn [fst snd] in *.
    + left. split; [done|].
      apply quiet_app; [done|]. apply quiet_app; [done|]. by apply quiet_app.
    + right. right. exists t. split; [done|]. split; [done|].
      destruct Hq0 as [Ha Hb], Hq as [Hc Hd].
      rewrite !eeprom_writes_app, !decay_reports_app.
      change (eeprom_writes []) with (@nil event).
      change (decay_reports []) with (@nil event).
      rewrite Ha, Hb, Hc, Hd, H2. done.
  - right. left. exists c. cbn [fst snd]. split; [done|].
    apply quiet_app; [done|]. apply quiet_app; [done|]. apply Part001_apply_fix_quiet.
Qed.

(** ** part_001: [ProcessGPS] as a whole *)

Lemma Part001_ProcessGPS_total makeTime st q :
  frame_ok Sk_part001 (Part001.frame st) ->
  exists st' rest ev, Part001.ProcessGPS makeTime st q = Some (st', rest, ev).
Proof.
  intros Hf. unfold Part001.ProcessGPS.
  destruct (ProcessGPS_frame_total _ _ q Hf) as (f1 & full & rest & ev & -> & _).
  destruct (negb (buildingSentence f1)); [|by eexists _, _, _].
  destruct full; [|by eexists _, _, _].
  destruct (Part001.dispatch makeTime _ _). by eexists _, _, _.
Qed.

Lemma Part001_ProcessGPS_cases makeTime st q st' rest ev :
  Part001.ProcessGPS makeTime st q = Some (st', rest, ev) ->
  exists f1 f2,
    let st1 := Part001.set_frame st f1 in
    (st' = Part001.set_frame st1 f2 /\ quiet ev)
    \/ (exists c, st' = Part001.set_frame (Part001.apply_fix st1 c).1 f2 /\ quiet ev)
    \/ (exists t, 0 < t /\ st' = Part001.set_frame (Part001.apply_epoch st1 t).1 f2
                  /\ eeprom_writes ev = eeprom_writes (Part001.apply_epoch st1 t).2
                  /\ decay_reports ev = decay_reports (Part001.apply_epoch st1 t).2).
Proof.
  unfold Part001.ProcessGPS.
  destruct (ProcessGPS_frame Sk_part001 (Part001.frame st) q)
    as [[[[f1 full] rest1] ev1]|] eqn:E; [|discriminate].
  pose proof (ProcessGPS_frame_quiet _ _ _ _ _ _ _ E) as Hq1.
  destruct (negb (buildingSentence f1)) eqn:Eb.
  2:{ intros [= <- <- <-]. exists f1, f1. left. by split. }
  destruct full.
  2:{ intros [= <- <- <-]. exists f1, f1. left. by split. }
  pose proof (Part001_dispatch_cases makeTime (Part001.set_frame st f1) (gpsResponse f1)) as Hd.
  destruct (Part001.dispatch makeTime (Part001.set_frame st f1) (gpsResponse f1))
    as [st2 ev2].
  cbn [fst snd] in Hd. intros [= <- <- <-].
  exists f1, (frame_epilogue Sk_part001 (Part001.frame st2) true).
  destruct Hd as [[-> Hq2]|[(c & -> & Hq2)|(t & Ht & -> & Hw & Hr)]].
  - left. split; [reflexivity|]. by apply quiet_app.
  - right. left. exists c. split; [reflexivity|]. by apply quiet_app.
  - right. right. exists t. split; [done|]. split; [reflexivity|].
    destruct Hq1 as [Ha Hb].
    by rewrite eeprom_writes_app, decay_reports_app, Ha, Hb, Hw, Hr.
Qed.

(** Without a trust flag no call of [ProcessGPS] changes the clock. *)
Lemma Part001_ProcessGPS_untrusted makeTime st q st' rest ev :
  Part001.bbr st = false -> Part001.fix2 st = false -> Part001.fix3 st = false ->
  Part001.ProcessGPS makeTime st q = Some (st', rest, ev) ->
  Part001.clock st' = Part001.clock st.
Proof.
  intros Hb H2 H3 H.
  destruct (Part001_ProcessGPS_cases _ _ _ _ _ _ H)
    as (f1 & f2 & [[-> _]|[(c & -> & _)|(t & _ & -> & _)]]).
  - reflexivity.
  - cbn [Part001.set_frame Part001.clock].
    by destruct (Part001_apply_fix_frame (Part001.set_frame st f1) c) as [-> _].
  - cbn [Part001.set_frame Part001.clock].
    by rewrite Part001_apply_epoch_untrusted.
Qed.

(** ** GPSTime.ino: the events and [ProcessGPS] *)

Lemma GPSTime_apply_fix_frame st c :
  let st' := (GPSTime.apply_fix st c).1 in
  GPSTime.clock st' = GPSTime.clock st
  /\ GPSTime.lastUpdateGPS st' = GPSTime.lastUpdateGPS st
  /\ GPSTime.frame st' = GPSTime.frame st
  /\ ee_configured (GPSTime.eeprom st') = ee_configured (GPSTime.eeprom st)
  /\ decay_reports (GPSTime.apply_fix st c).2 = [].
Proof.
  unfold GPSTime.apply_fix.
  destruct (c =? 49); [done|]. destruct (_ || _); [|done].
  destruct (timeSet (GPSTime.clock st)); done.
Qed.

Lemma GPSTime_apply_fix_eeprom st c :
  let r := GPSTime.apply_fix st c in
  if ((c =? 50) || (c =? 51)) && timeSet (GPSTime.clock st) then
    r.2 = [EEPROM_put 1 (EEtime (now (GPSTime.clock st))); EEPROM_put 5 (EEchar c)]
    /\ GPSTime.eeprom r.1
       = {| ee_configured := ee_configured (GPSTime.eeprom st);
            ee_lastGPSFix := now (GPSTime.clock st);
            ee_gpsFixType := c |}
  else r.2 = [] /\ GPSTime.eeprom r.1 = GPSTime.eeprom st.
Proof.
  unfold GPSTime.apply_fix.
  destruct (Z.eqb_spec c 49) as [->|H1]; [done|].
  destruct ((c =? 50) || (c =? 51)); [|done].
  destruct (timeSet (GPSTime.clock st)); done.
Qed.

Lemma GPSTime_apply_epoch_eeprom st t :
  let r := GPSTime.apply_epoch st t in
  GPSTime.eeprom r.1.2 = GPSTime.eeprom st /\ eeprom_writes r.2 = [].
Proof.
  unfold GPSTime.apply_epoch. cbn [GPSTime.set_lastUpdateGPS GPSTime.lastUpdateGPS
    GPSTime.clock GPSTime.gpsInternalClock].
  destruct (0 <? t); [|done].
  destruct (negb _); [done|].
  destruct (_ =? 0); done.
Qed.

Lemma GPSTime_TimeSource_cases st p :
  GPSTime.TimeSource st p = (false, st, [])
  \/ exists c, GPSTime.TimeSource st p
               = (true, (GPSTime.apply_fix st c).1, (GPSTime.apply_fix st c).2).
Proof.
  unfold GPSTime.TimeSource. destruct (GPSTime.gsa_fixStatus p) as [c|]; [|by left].
  right. exists c. by destruct (GPSTime.apply_fix st c).
Qed.

Lemma GPSTime_SyncTimeToGPS_cases makeTime st p :
  GPSTime.SyncTimeToGPS makeTime st p = (false, st, [])
  \/ exists t, GPSTime.SyncTimeToGPS makeTime st p = GPSTime.apply_epoch st t.
Proof.
  unfold GPSTime.SyncTimeToGPS. destruct (GPSTime.rmc_elements p); [|by left].
  right. by eexists.
Qed.

Lemma GPSTime_dispatch_cases makeTime st p :
  let r := GPSTime.dispatch makeTime st p in
  (r.1 = st /\ quiet r.2)
  \/ (exists c, r.1 = (GPSTime.apply_fix st c).1
                /\ eeprom_writes r.2 = eeprom_writes (GPSTime.apply_fix st c).2
                /\ decay_reports r.2 = [])
  \/ (GPSTime.sync_due st = true
      /\ exists t, r.1 = (GPSTime.apply_epoch st t).1.2
                   /\ eeprom_writes r.2 = []
                   /\ decay_reports r.2 = decay_reports (GPSTime.apply_epoch st t).2).
Proof.
  unfold GPSTime.dispatch.
  destruct (CheckSum cast_byte p); [|left; by split].
  destruct (GPSTime_Spam_quiet p) as [Hs Hq].
  destruct (GPSTime.Spam p) as [spam ev1]. cbn [fst snd] in Hs, Hq. subst spam.
  simpl negb. cbv iota.
  assert (Hq0 : quiet [Serial_print "CS+:"; Serial_chars (nonzero_chars p)]) by (by split).
  destruct (GPSTime_TimeSource_cases st p) as [->|[c ->]]; simpl negb; cbv iota.
  - destruct (GPSTime.sync_due st) eqn:Eg.
    + destruct (GPSTime_SyncTimeToGPS_cases makeTime st p) as [->|[t ->]].
      * left. cbn [fst snd]. split; [done|].
        apply quiet_app; [done|]. apply quiet_app; [done|]. by apply quiet_app.
      * right. right. split; [done|]. exists t.
        destruct (GPSTime_apply_epoch_eeprom st t) as [_ Hw].
        destruct (GPSTime.apply_epoch st t) as [[b st2] ev3]. cbn [fst snd] in *.
        split; [done|].
        destruct Hq0 as [Ha Hb], Hq as [Hc Hd].
        rewrite !eeprom_writes_app, !decay_reports_app.
        change (eeprom_writes []) with (@nil event).
        change (decay_reports []) with (@nil event).
        by rewrite Ha, Hb, Hc, Hd, Hw.
    + left. cbn [fst snd]. split; [done|].
      apply quiet_app; [done|]. by apply quiet_app.
  - right. left. exists c. cbn [fst snd]. split; [done|].
    destruct (GPSTime_apply_fix_frame st c) as (_ & _ & _ & _ & Hr).
    destruct Hq0 as [Ha Hb], Hq as [Hc Hd].
    rewrite !eeprom_writes_app, !decay_reports_app.
    by rewrite Ha, Hb, Hc, Hd, Hr.
Qed.

Lemma GPSTime_ProcessGPS_total makeTime st q :
  frame_ok Sk_GPSTime (GPSTime.frame st) ->
  exists st' rest ev, GPSTime.ProcessGPS makeTime st q = Some (st', rest, ev).
Proof.
  intros Hf. unfold GPSTime.ProcessGPS.
  destruct (ProcessGPS_frame_total _ _ q Hf) as (f1 & full & rest & ev & -> & _).
  destruct (negb (buildingSentence f1)); [|by eexists _, _, _].
  destruct full; [|by eexists _, _, _].
  destruct (GPSTime.dispatch makeTime _ _). by eexists _, _, _.
Qed.

Lemma GPSTime_ProcessGPS_cases makeTime st q st' rest ev :
  GPSTime.ProcessGPS makeTime st q = Some (st', rest, ev) ->
  exists f1,
    let st1 := GPSTime.set_frame st f1 in
    (st' = st1 /\ quiet ev)
    \/ (exists c, st' = (GPSTime.apply_fix st1 c).1
                  /\ eeprom_writes ev = eeprom_writes (GPSTime.apply_fix st1 c).2
                  /\ decay_reports ev = [])
    \/ (GPSTime.sync_due st = true
        /\ exists t, st' = (GPSTime.apply_epoch st1 t).1.2
                     /\ eeprom_writes ev = []
                     /\ decay_reports ev = decay_reports (GPSTime.apply_epoch st1 t).2).
Proof.
  unfold GPSTime.ProcessGPS.
  destruct (ProcessGPS_frame Sk_GPSTime (GPSTime.frame st) q)
    as [[[[f1 full] rest1] ev1]|] eqn:E; [|discriminate].
  pose proof (ProcessGPS_frame_quiet _ _ _ _ _ _ _ E) as Hq1.
  destruct (negb (buildingSentence f1)) eqn:Eb.
  2:{ intros [= <- <- <-]. exists f1. left. by split. }
  destruct full.
  2:{ intros [= <- <- <-]. exists f1. left. by split. }
  pose proof (GPSTime_dispatch_cases makeTime (GPSTime.set_frame st f1) (gpsResponse f1)) as Hd.
  destruct (GPSTime.dispatch makeTime (GPSTime.set_frame st f1) (gpsResponse f1))
    as [st2 ev2].
  cbn [fst snd] in Hd. intros [= <- <- <-]. exists f1.
  destruct Hq1 as [Ha Hb].
  destruct Hd as [[-> Hq2]|[(c & -> & Hw & Hr)|(Hg & t & -> & Hw & Hr)]].
  - left. split; [reflexivity|]. by apply quiet_app.
  - right. left. exists c. split; [reflexivity|].
    by rewrite eeprom_writes_app, decay_reports_app, Ha, Hb, Hw, Hr.
  - right. right. split; [exact Hg|]. exists t. split; [reflexivity|].
    by rewrite eeprom_writes_app, decay_reports_app, Ha, Hb, Hw, Hr.
Qed.

(** ** The sketches frame sentences as [framer_call] does *)


Lemma GPSTime_apply_epoch_frame st t :
  GPSTime.frame (GPSTime.apply_epoch st t).1.2 = GPSTime.frame st.
Proof.
  unfold GPSTime.apply_epoch. repeat case_match; reflexivity.
Qed.


Lemma GPSTime_dispatch_frame makeTime st p :
  GPSTime.frame (GPSTime.dispatch makeTime st p).1 = GPSTime.frame st.
Proof.
  destruct (GPSTime_dispatch_cases makeTime st p)
    as [[-> _]|[(c & -> & _)|(_ & t & -> & _)]].
  - reflexivity.
  - by destruct (GPSTime_apply_fix_frame st c) as (_ & _ & -> & _).
  - apply GPSTime_apply_epoch_frame.
Qed.

(** The frame and the port that [ProcessGPS] leaves are those of
    [framer_call], in both sketches. *)
Lemma GPSTime_ProcessGPS_frames makeTime st q :
  match GPSTime.ProcessGPS makeTime st q, framer_call Sk_GPSTime (GPSTime.frame st) q with
  | Some (st', rest, _), Some (f', _, rest', _) => GPSTime.frame st' = f' /\ rest = rest'
  | None, None => True
  | _, _ => False
  end.
Proof.
  unfold GPSTime.ProcessGPS, framer_call.
  destruct (ProcessGPS_frame Sk_GPSTime (GPSTime.frame st) q)
    as [[[[f1 full] rest] ev]|]; [|done].
  destruct (negb (buildingSentence f1)); [|done].
  destruct full; [|done].
  pose proof (GPSTime_dispatch_frame makeTime (GPSTime.set_frame st f1) (gpsResponse f1)) as H.
  by destruct (GPSTime.dispatch makeTime (GPSTime.set_frame st f1) (gpsResponse f1)).
Qed.


(** * The claims *)

Lemma no_crlf_app_false b1 b2 : no_crlf (b1 ++ ch_CR :: ch_LF :: b2) = false.
Proof.
  induction b1 as [|a b1 IH]; [reflexivity|].
  change ((a :: b1) ++ ch_CR :: ch_LF :: b2) with (a :: (b1 ++ ch_CR :: ch_LF :: b2)).
  cbn [no_crlf]. rewrite IH.
  destruct (b1 ++ ch_CR :: ch_LF :: b2) eqn:E; [by destruct b1|apply andb_false_r].
Qed.

(** A body whose tail holds no terminator pair is unterminated. *)
Lemma no_crlf_unterminated body : no_crlf (tail body) = true -> unterminated body.
Proof.
  intros H b1 b2 ->. destruct b1 as [|a b1]; [reflexivity|].
  simpl in H. by rewrite no_crlf_app_false in H.
Qed.

(** C1, as stated, fails: a start marker directly followed by the terminator
    pair satisfies the condition of the specification in both sketches, and
    no candidate is emitted. *)
Lemma C1_counterexample :
  spec_frame_present 200 [ch_dollar; ch_CR; ch_LF] = true
  /\ emits Sk_GPSTime [ch_dollar; ch_CR; ch_LF] = false
  /\ spec_frame_present 100 [ch_dollar; ch_CR; ch_LF] = true
  /\ emits Sk_part001 [ch_dollar; ch_CR; ch_LF] = false.
Proof. vm_compute. repeat split. Qed.

(** The frame of a short sentence fed after a partial frame: the line feed
    emits the start marker, the body and the line feed, and nothing of what
    came before the last start marker. *)
Example framer_sample_emission :
  unterminated (bytes_of "GPRMC,1*5A" ++ [ch_CR])
  /\ emitted_on Sk_GPSTime
       (bytes_of "xy$GP" ++ ch_dollar :: (bytes_of "GPRMC,1*5A" ++ [ch_CR])) ch_LF
     = Some (padded Sk_GPSTime (bytes_of "$GPRMC,1*5A" ++ [ch_CR; ch_LF])).
Proof.
  split; [apply no_crlf_unterminated|]; vm_compute; reflexivity.
Qed.

(** C1, amended.  Bytes are fed one at a time from the initial frame.  After
    any stream [pre], a start marker and a body that holds no start marker
    and leaves room for one more byte in the buffer, the next byte [c] emits
    a candidate if and only if no terminator pair has ended inside the body,
    [c] is the line feed, the body ends with the carriage return and at
    least one byte precedes that carriage return; the candidate is then the
    start marker, the body and the line feed, and nothing of [pre]: a start
    marker discards the partial frame and restarts the candidate.  A stream
    without a start marker emits nothing. *)
Theorem C1_framer_emission k pre body c :
  ch_dollar ∉ body ->
  Z.of_nat (length body) + 2 <= sizeof_gpsResponse k ->
  (forall cand,
      emitted_on k (pre ++ ch_dollar :: body) c = Some cand
      <-> unterminated body
          /\ c = ch_LF
          /\ (exists b', b' <> [] /\ body = b' ++ [ch_CR])
          /\ cand = padded k (ch_dollar :: body ++ [c]))
  /\ (forall s, ch_dollar ∉ s -> emitted_on k s c = None).
Proof.
  intros Hd Hroom. split; [|intros s; apply emitted_on_idle].
  intros cand.
  destruct (emitted_on_frame k pre body c Hd Hroom) as [[Hu ->]|[Hu ->]].
  - destruct (completesb body c) eqn:E.
    + apply completesb_true in E as [-> Hb]. split.
      * intros [= <-]. done.
      * intros (_ & _ & _ & ->). done.
    + split; [discriminate|]. intros (_ & -> & Hb & _).
      assert (completesb body ch_LF = true) by (by apply completesb_true).
      congruence.
  - split; [discriminate|]. by intros [? _].
Qed.

Lemma C1_framer_emission_witness :
  (forall cand,
      emitted_on Sk_GPSTime
        (bytes_of "xy$GP" ++ ch_dollar :: (bytes_of "GPRMC,1*5A" ++ [ch_CR])) ch_LF
      = Some cand
      <-> unterminated (bytes_of "GPRMC,1*5A" ++ [ch_CR])
          /\ ch_LF = ch_LF
          /\ (exists b', b' <> [] /\ bytes_of "GPRMC,1*5A" ++ [ch_CR] = b' ++ [ch_CR])
          /\ cand = padded Sk_GPSTime
                      (ch_dollar :: (bytes_of "GPRMC,1*5A" ++ [ch_CR]) ++ [ch_LF]))
  /\ (forall s, ch_dollar ∉ s -> emitted_on Sk_GPSTime s ch_LF = None).
Proof.
  apply (C1_framer_emission Sk_GPSTime (bytes_of "xy$GP")
           (bytes_of "GPRMC,1*5A" ++ [ch_CR]) ch_LF).
  - vm_compute. intros H. repeat (apply elem_of_cons in H as [H|H]; [lia|]).
    by apply elem_of_nil in H.
  - vm_compute. discriminate.
Defined.

(** C2.  Whatever bytes arrive and however they are split into bursts, every
    array access of the framer is inside [gpsResponse] (the run never yields
    [None]) and the write cursor ends within [0, sizeof(gpsResponse)]. *)
Theorem C2_cursor_within_buffer k bursts :
  exists f port cands,
    drain k (frame_init k) [] bursts = Some (f, port, cands)
    /\ Z.of_nat (length (gpsResponse f)) = sizeof_gpsResponse k
    /\ 0 <= packetOffset f <= sizeof_gpsResponse k.
Proof.
  destruct (drain_inv k bursts (frame_init k) [] (frame_init_inv k))
    as (f & port & cands & H & [[Hlen Hpo] _]).
  by exists f, port, cands.
Qed.

(** C6, as stated, fails: after a start marker, 199 more bytes and the byte
    that overflows the 200-byte buffer, the framer is still building; the
    bytes that follow are framed from the start of the buffer and the tail
    of the overflowing frame is emitted as a candidate. *)
Lemma C6_counterexample :
  (exists f, feed Sk_GPSTime (frame_init Sk_GPSTime)
               (ch_dollar :: replicate 199 65 ++ [66]) = Some (f, [])
             /\ buildingSentence f = true
             /\ packetOffset f = 1)
  /\ exists f, feed Sk_GPSTime (frame_init Sk_GPSTime)
                 (ch_dollar :: replicate 199 65 ++ [66; 67; ch_CR; ch_LF])
               = Some (f, [padded Sk_GPSTime [66; 67; ch_CR; ch_LF]]).
Proof.
  split; eexists; vm_compute; repeat split.
Qed.

(** C6, amended.  When the cursor has reached the capacity, the next
    iteration reports the overflow, clears the buffer and stores the byte it
    reads at offset 0, so that the cursor becomes 1; the building flag is
    left as it was, unless the byte is a start marker, which sets it.  The
    run goes on for every further input, and the next start marker opens a
    clean frame. *)
Theorem C6_overflow_resets_buffer k f c :
  frame_ok k f ->
  packetOffset f = sizeof_gpsResponse k ->
  exists f' ev,
    loop_body k f c = Some (f', false, ev)
    /\ In (Serial_print (overflow_msg k)) ev
    /\ gpsResponse f' = padded k [c]
    /\ packetOffset f' = 1
    /\ buildingSentence f' = buildingSentence f || (c =? ch_dollar)
    /\ forall s, exists f'' cands,
         feed k f' s = Some (f'', cands)
         /\ feed k f'' [ch_dollar] = Some (frame_of k [], []).
Proof.
  intros Hf Hpo.
  pose proof (sizeof_gpsResponse_range k) as Hk.
  assert (Hm : Z.of_nat (length (memset0 (sizeof_gpsResponse k))) = sizeof_gpsResponse k)
    by (apply length_memset0; lia).
  assert (Hpad : <[0%nat := c]> (memset0 (sizeof_gpsResponse k)) = padded k [c])
    by (destruct k; reflexivity).
  set (F := {| buildingSentence := buildingSentence f || (c =? ch_dollar);
               gpsResponse := padded k [c]; packetOffset := 1 |}).
  assert (Hstep : exists ev, loop_body k f c = Some (F, false, ev)
                             /\ In (Serial_print (overflow_msg k)) ev).
  { unfold loop_body.
    rewrite Hpo, to_uint_small by lia.
    destruct (Z.leb_spec (sizeof_gpsResponse k) (sizeof_gpsResponse k)); [|lia].
    destruct (Z.eqb_spec c ch_dollar) as [Hc|Hc].
    - simpl (0 =? 0). cbv iota.
      rewrite store_Some by lia. change (Z.to_nat 0) with 0%nat. subst c.
      rewrite Hpad. cbn [mbind option_bind]. unfold F. rewrite orb_true_r.
      eexists. split; [reflexivity|]. destruct k; simpl; auto.
    - rewrite store_Some by lia. change (Z.to_nat 0) with 0%nat. rewrite Hpad.
      cbn [mbind option_bind]. replace (2 <? 0) with false by reflexivity.
      unfold F, incr_offset. rewrite orb_false_r. cbn [buildingSentence].
      eexists. split; [reflexivity|]. simpl; auto. }
  destruct Hstep as (ev & Hstep & Hin).
  destruct (loop_body_ok k f c Hf) as (f' & full & ev' & Hstep' & Hinv).
  rewrite Hstep in Hstep'. injection Hstep' as <- <- <-.
  exists F, ev. repeat split; try done. intros s.
  destruct (feed_inv k s F Hinv) as (f'' & cands & Hfeed & Hinv'').
  exists f'', cands. split; [done|]. by apply feed_dollar.
Qed.

Lemma C6_overflow_resets_buffer_witness :
  exists f' ev,
    loop_body Sk_GPSTime (frame_of Sk_GPSTime (replicate 199 65)) 66 = Some (f', false, ev)
    /\ In (Serial_print (overflow_msg Sk_GPSTime)) ev
    /\ gpsResponse f' = padded Sk_GPSTime [66]
    /\ packetOffset f' = 1
    /\ buildingSentence f'
       = buildingSentence (frame_of Sk_GPSTime (replicate 199 65)) || (66 =? ch_dollar)
    /\ forall s, exists f'' cands,
         feed Sk_GPSTime f' s = Some (f'', cands)
         /\ feed Sk_GPSTime f'' [ch_dollar] = Some (frame_of Sk_GPSTime [], []).
Proof.
  apply (C6_overflow_resets_buffer Sk_GPSTime (frame_of Sk_GPSTime (replicate 199 65)) 66).
  - split; vm_compute; [reflexivity|]. split; discriminate.
  - vm_compute. reflexivity.
Defined.

(** C7.  The code departs from the claim: the checksum of the sample
    sentence of the source is 78, and the same sentence claiming 79 passes
    the pointer-based [CheckSum] of GPSTime.ino and of part_001, which
    compares [*csIN] with [*Calc], the first digits only.  The String-based
    [CheckSum] of part_000 compares both digits and rejects it.  Fed to
    GPSTime.ino after boot, the wrong sentence sets the clock. *)
Theorem C7_second_digit_not_compared :
  cstr (sprintf_02X (xor_loop cast_byte (bytes_of "$GPRMC,153938.00,V,,,,,,,160722,,,N") 1 35))
  = bytes_of "78"
  /\ CheckSum cast_byte (bytes_of "$GPRMC,153938.00,V,,,,,,,160722,,,N*79" ++ [ch_CR; ch_LF; 0]) = true
  /\ CheckSum cast_char (bytes_of "$GPRMC,153938.00,V,,,,,,,160722,,,N*79" ++ [ch_CR; ch_LF; 0]) = true
  /\ Part000.CheckSum (bytes_of "$GPRMC,153938.00,V,,,,,,,160722,,,N*79" ++ [ch_CR; ch_LF]) = false
  /\ Part000.CheckSum (bytes_of "$GPRMC,153938.00,V,,,,,,,160722,,,N*78" ++ [ch_CR; ch_LF]) = true
  /\ match GPSTime.ProcessGPS makeTime_TimeLib
             (GPSTime.boot {| ee_configured := true; ee_lastGPSFix := 0; ee_gpsFixType := 0 |})
             (bytes_of "$GPRMC,153938.00,V,,,,,,,160722,,,N*79" ++ [ch_CR; ch_LF])
     with
     | Some (st', _, _) => GPSTime.clock st' = {| timeSet := true; sysTime := 1657985978 |}
     | None => False
     end.
Proof. vm_compute. repeat split. Qed.

(** C8, as stated, fails: a body that starts with the start marker, fits
    its 40-byte buffer and is long enough, but holds an asterisk of its own,
    is framed by [SetCheckSum] and then rejected by [CheckSum], which stops
    at the first asterisk. *)
Lemma C8_counterexample :
  let pubx40 := bytes_of "$PUBX*40,RMC" ++ replicate 28 0 in
  char_at pubx40 0 = ch_dollar
  /\ Z.of_nat (length pubx40) = 40
  /\ (SetCheckSum cast_byte pubx40 40).1 = true
  /\ cstr (SetCheckSum cast_byte pubx40 40).2
     = bytes_of "$PUBX*40,RMC*41" ++ [ch_CR; ch_LF]
  /\ CheckSum cast_byte (SetCheckSum cast_byte pubx40 40).2 = false.
Proof. vm_compute. repeat split. Qed.

(** C8, amended.  For every command body [B] without NUL and without an
    asterisk, longer than five characters, held in a zero-filled buffer with
    room for five more bytes, [SetCheckSum] succeeds and leaves the body
    followed by the asterisk, the two digits, carriage return and line feed;
    [CheckSum] returns true on that string, whatever follows its
    terminator. *)
Theorem C8_checksum_round_trip cast B (n : nat) :
  Forall (fun c => c <> 0) B ->
  ch_star ∉ B ->
  5 < Z.of_nat (length B) ->
  (5 <= n)%nat ->
  let Calc := sprintf_02X (xor_loop cast B 1 (Z.of_nat (length B))) in
  let framed := B ++ [ch_star; char_at Calc 0; char_at Calc 1; ch_CR; ch_LF] in
  SetCheckSum cast (B ++ replicate n 0) (Z.of_nat (length B + n))
  = (true, framed ++ replicate (n - 5) 0)
  /\ forall rest, CheckSum cast (framed ++ 0 :: rest) = true.
Proof.
  intros HB Hstar Hlen Hn Calc framed. split.
  - unfold framed. rewrite <- app_assoc. by apply SetCheckSum_framed.
  - intros rest. unfold framed. rewrite <- app_assoc.
    apply CheckSum_framed; try done. apply sprintf_02X_digits.
Qed.

Lemma C8_checksum_round_trip_witness :
  let B := bytes_of "$PUBX,40,RMC,0,10,0,0,0,0" in
  let Calc := sprintf_02X (xor_loop cast_byte B 1 (Z.of_nat (length B))) in
  let framed := B ++ [ch_star; char_at Calc 0; char_at Calc 1; ch_CR; ch_LF] in
  SetCheckSum cast_byte (B ++ replicate 15 0) (Z.of_nat (length B + 15))
  = (true, framed ++ replicate (15 - 5) 0)
  /\ forall rest, CheckSum cast_byte (framed ++ 0 :: rest) = true.
Proof.
  apply (C8_checksum_round_trip cast_byte (bytes_of "$PUBX,40,RMC,0,10,0,0,0,0") 15).
  - vm_compute. repeat constructor; discriminate.
  - vm_compute. intros H. repeat (apply elem_of_cons in H as [H|H]; [lia|]).
    by apply elem_of_nil in H.
  - vm_compute. reflexivity.
  - lia.
Defined.

(** A call that ends on a full sentence hands the buffer to [dispatch]. *)
Lemma Part001_ProcessGPS_full makeTime st q f1 rest ev :
  ProcessGPS_frame Sk_part001 (Part001.frame st) q = Some (f1, true, rest, ev) ->
  buildingSentence f1 = false ->
  exists st',
    Part001.ProcessGPS makeTime st q
    = Some (st', rest,
            ev ++ (Part001.dispatch makeTime (Part001.set_frame st f1) (gpsResponse f1)).2).
Proof.
  intros E Hb. unfold Part001.ProcessGPS. rewrite E, Hb. simpl negb. cbv iota.
  destruct (Part001.dispatch makeTime (Part001.set_frame st f1) (gpsResponse f1)).
  by eexists.
Qed.

Lemma Part001_dispatch_accepted makeTime st p :
  CheckSum cast_char p = true ->
  In (Serial_print "CS+:") (Part001.dispatch makeTime st p).2.
Proof.
  intros H. unfold Part001.dispatch. rewrite H.
  destruct (Part001.Spam p) as [spam ev1]. destruct (negb spam); [|by left].
  destruct (Part001.TimeSource st p) as [[source st1] ev2].
  destruct (negb source); [|by left].
  destruct (Part001.SyncTimeToGPS makeTime st1 p) as [[b st2] ev3]. by left.
Qed.

(** C3.  In part_001, while none of the battery-backed, 2D and 3D flags is
    set, a time/date event leaves the clock as it is, and so does every call
    of [ProcessGPS], whatever it reads; in particular the sentence
    [$GPRMC,153938.00,V,,,,,,,160722,,,N*78] is framed, passes the checksum
    and leaves the clock unchanged. *)
Theorem C3_untrusted_time_leaves_clock makeTime st :
  Part001.bbr st = false ->
  Part001.fix2 st = false ->
  Part001.fix3 st = false ->
  (forall epoch, Part001.clock (Part001.apply_epoch st epoch).1 = Part001.clock st)
  /\ (forall q, frame_ok Sk_part001 (Part001.frame st) ->
        exists st' rest ev,
          Part001.ProcessGPS makeTime st q = Some (st', rest, ev)
          /\ Part001.clock st' = Part001.clock st)
  /\ (Part001.frame st = frame_init Sk_part001 ->
        exists st' ev,
          Part001.ProcessGPS makeTime st
            (bytes_of "$GPRMC,153938.00,V,,,,,,,160722,,,N*78" ++ [ch_CR; ch_LF])
          = Some (st', [], ev)
          /\ In (Serial_print "CS+:") ev
          /\ Part001.clock st' = Part001.clock st).
Proof.
  intros Hb H2 H3. split; [|split].
  - intros epoch. by rewrite Part001_apply_epoch_untrusted.
  - intros q Hf.
    destruct (Part001_ProcessGPS_total makeTime st q Hf) as (st' & rest & ev & H).
    exists st', rest, ev. split; [done|].
    by eapply Part001_ProcessGPS_untrusted.
  - intros Hframe.
    assert (Hread : exists f1,
      ProcessGPS_frame Sk_part001 (frame_init Sk_part001)
        (bytes_of "$GPRMC,153938.00,V,,,,,,,160722,,,N*78" ++ [ch_CR; ch_LF])
      = Some (f1, true, [], [])
      /\ buildingSentence f1 = false
      /\ CheckSum cast_char (gpsResponse f1) = true).
    { eexists. split; [vm_compute; reflexivity|]. split; vm_compute; reflexivity. }
    destruct Hread as (f1 & Hread & Hidle & Hcs).
    rewrite <- Hframe in Hread.
    destruct (Part001_ProcessGPS_full makeTime st _ f1 [] [] Hread Hidle) as [st' H].
    eexists st', _. split; [exact H|]. split.
    + apply in_or_app. right. by apply Part001_dispatch_accepted.
    + by eapply Part001_ProcessGPS_untrusted.
Qed.

Lemma C3_untrusted_time_leaves_clock_witness :
  let st := Part001.boot {| ee_configured := true; ee_lastGPSFix := 0; ee_gpsFixType := 0 |} in
  (forall epoch, Part001.clock (Part001.apply_epoch st epoch).1 = Part001.clock st)
  /\ (forall q, frame_ok Sk_part001 (Part001.frame st) ->
        exists st' rest ev,
          Part001.ProcessGPS makeTime_TimeLib st q = Some (st', rest, ev)
          /\ Part001.clock st' = Part001.clock st)
  /\ (Part001.frame st = frame_init Sk_part001 ->
        exists st' ev,
          Part001.ProcessGPS makeTime_TimeLib st
            (bytes_of "$GPRMC,153938.00,V,,,,,,,160722,,,N*78" ++ [ch_CR; ch_LF])
          = Some (st', [], ev)
          /\ In (Serial_print "CS+:") ev
          /\ Part001.clock st' = Part001.clock st).
Proof.
  apply (C3_untrusted_time_leaves_clock makeTime_TimeLib
           (Part001.boot {| ee_configured := true; ee_lastGPSFix := 0; ee_gpsFixType := 0 |}));
    vm_compute; reflexivity.
Defined.

(** In range, the decay correction is what the claim says: the clock is
    overwritten and the difference reported. *)
Lemma Part001_decay_in_range st E2 :
  Part001.fix2 st = true ->
  timeSet (Part001.clock st) = true ->
  0 <= E2 < 4294967296 ->
  -32768 <= E2 - now (Part001.clock st) < 32768 ->
  E2 <> now (Part001.clock st) ->
  Part001.clock (Part001.apply_epoch st E2).1 = {| timeSet := true; sysTime := E2 |}
  /\ decay_reports (Part001.apply_epoch st E2).2
     = [Serial_mismatch (E2 - now (Part001.clock st)) ""].
Proof.
  intros Hf Hset Hr Hd Hne. split.
  - rewrite Part001_apply_epoch_clock, Hf, Hset, orb_true_r. simpl.
    rewrite to_int_small by lia.
    destruct (Z.eqb_spec (E2 - now (Part001.clock st)) 0); [lia|].
    unfold setTime, to_time_t. by rewrite Z.mod_small by lia.
  - destruct st as [fr gs gt [ts sy] ee]. unfold Part001.fix2, now in *.
    simpl in Hf, Hset, Hd, Hne. subst ts.
    unfold Part001.apply_epoch. simpl.
    rewrite !bitRead_bitSet by lia. simpl (0 =? _). rewrite !orb_false_r, Hf, orb_true_r.
    simpl. unfold now. simpl.
    rewrite to_int_to_time_t, to_int_small by lia.
    destruct (Z.eqb_spec (E2 - sy) 0); [lia|].
    destruct (Part001.bitRead gs 1); reflexivity.
Qed.

(** C4.  The code departs from the claim: [decay] is an [int], 16 bits wide
    on the target, so a difference of 65536 seconds is seen as 0.  With the
    clock set to E1 = 1657920442 and the 2D flag set (part_001), or the gate
    of [ProcessGPS] open (GPSTime.ino), the time/date event carrying
    E2 = 1657985978 = E1 + 65536 leaves the clock at E1 and reports no
    correction, at the level of the event and through [ProcessGPS] on the
    sentence [$GPRMC,153938.00,V,,,,,,,160722,,,N*78], whose epoch is E2. *)
Theorem C4_decay_truncated_to_int :
  let ee := {| ee_configured := true; ee_lastGPSFix := 0; ee_gpsFixType := 0 |} in
  let rmc := bytes_of "$GPRMC,153938.00,V,,,,,,,160722,,,N*78" ++ [ch_CR; ch_LF] in
  let E1 := 1657920442 in
  let E2 := 1657985978 in
  let p1 := Part001.set_clock (Part001.set_gpsStatus (Part001.boot ee) 5)
              {| timeSet := true; sysTime := E1 |} in
  let g1 := GPSTime.set_clock (GPSTime.set_gpsInternalClock (GPSTime.boot ee) false)
              {| timeSet := true; sysTime := E1 |} in
  E2 <> E1
  /\ Part001.fix2 p1 = true
  /\ Part001.clock (Part001.apply_epoch p1 E2).1 = {| timeSet := true; sysTime := E1 |}
  /\ decay_reports (Part001.apply_epoch p1 E2).2 = []
  /\ match Part001.ProcessGPS makeTime_TimeLib p1 rmc with
     | Some (st', _, ev) =>
         Part001.clock st' = {| timeSet := true; sysTime := E1 |}
         /\ decay_reports ev = [] /\ Part001._gpsTime st' = E2
     | None => False
     end
  /\ GPSTime.sync_due g1 = true
  /\ GPSTime.clock (GPSTime.apply_epoch g1 E2).1.2 = {| timeSet := true; sysTime := E1 |}
  /\ (GPSTime.apply_epoch g1 E2).2 = []
  /\ match GPSTime.ProcessGPS makeTime_TimeLib g1 rmc with
     | Some (st', _, ev) =>
         GPSTime.clock st' = {| timeSet := true; sysTime := E1 |}
         /\ decay_reports ev = [] /\ GPSTime.lastUpdateGPS st' = E2
     | None => False
     end.
Proof. vm_compute. repeat split; discriminate. Qed.

(** C5, as stated, fails: with the 3D flag set, a checksum-valid GSA
    sentence whose fix-quality character is ['X'] clears the flag (and
    prints the report). *)
Lemma C5_counterexample :
  let ee := {| ee_configured := true; ee_lastGPSFix := 0; ee_gpsFixType := 0 |} in
  let st := Part001.set_gpsStatus (Part001.boot ee) 9 in
  let gsa := bytes_of "$GPGSA,A,X,,,,,,,,,,,,,99.99,99.99,99.99*53" ++ [ch_CR; ch_LF] in
  Part001.fix3 st = true
  /\ CheckSum cast_char (gsa ++ [0]) = true
  /\ match Part001.ProcessGPS makeTime_TimeLib st gsa with
     | Some (st', _, ev) =>
         Part001.fix3 st' = false
         /\ In (Serial_print "TimeSource, unexpected char in [9]:") ev
     | None => False
     end.
Proof. vm_compute. repeat split. right. right. left. reflexivity. Qed.

(** C5, amended.  In part_001 [TimeSource] handles every buffer that holds
    [$GPGSA] and takes the fix-quality character at offset 9.  The event
    first clears the battery-backed, 2D and 3D flags: ['1'] then sets the
    battery-backed flag only, ['2'] the 2D flag only, ['3'] the 3D flag
    only, and any other character sets none (so all three are cleared) and
    prints the unexpected-character report.  The RMC flag, the clock, the
    stored fix time and the EEPROM are left alone.  In GPSTime.ino, which
    keeps the single flag [gpsInternalClock], ['1'] sets it, ['2'] and ['3']
    clear it, any other character leaves it, and nothing is printed. *)
Theorem C5_fix_quality_flags st pResponse g :
  let c := char_at pResponse 9 in
  let st' := (Part001.apply_fix st c).1 in
  Part001.TimeSource st pResponse
  = match strstr pResponse "$GPGSA" with
    | Some _ => (true, st', (Part001.apply_fix st c).2)
    | None => (false, st, [])
    end
  /\ Part001.bbr st' = (c =? 49)
  /\ Part001.fix2 st' = (c =? 50)
  /\ Part001.fix3 st' = (c =? 51)
  /\ (Part001.apply_fix st c).2
     = (if (c =? 49) || (c =? 50) || (c =? 51) then []
        else [Serial_print "TimeSource, unexpected char in [9]:"; Serial_chars [c]])
  /\ Part001.bitRead (Part001._gpsStatus st') 0 = Part001.bitRead (Part001._gpsStatus st) 0
  /\ Part001.clock st' = Part001.clock st
  /\ Part001.eeprom st' = Part001.eeprom st
  /\ Part001._gpsTime st' = Part001._gpsTime st
  /\ GPSTime.gpsInternalClock (GPSTime.apply_fix g c).1
     = (if c =? 49 then true
        else if (c =? 50) || (c =? 51) then false
        else GPSTime.gpsInternalClock g)
  /\ eeprom_writes (GPSTime.apply_fix g c).2 = (GPSTime.apply_fix g c).2.
Proof.
  intros c st'.
  destruct (Part001_apply_fix_flags st c) as (H0 & H1 & H2 & H3).
  destruct (Part001_apply_fix_frame st c) as (Hc & He & Ht & _).
  repeat split; try done.
  - unfold Part001.TimeSource. destruct (strstr pResponse "$GPGSA"); [|done].
    fold c. unfold st'. by destruct (Part001.apply_fix st c).
  - apply Part001_apply_fix_events.
  - unfold GPSTime.apply_fix. destruct (c =? 49); [done|].
    destruct ((c =? 50) || (c =? 51)); [|done].
    by destruct (timeSet (GPSTime.clock g)).
  - unfold GPSTime.apply_fix. destruct (c =? 49); [done|].
    destruct ((c =? 50) || (c =? 51)); [|done].
    by destruct (timeSet (GPSTime.clock g)).
Qed.

(** C9, as stated, fails on part_001: with the clock set, a checksum-valid
    GSA sentence reporting a 3D fix writes nothing to the EEPROM, and the
    record is written by the time/date sentence that follows. *)
Lemma C9_counterexample :
  let ee := {| ee_configured := true; ee_lastGPSFix := 0; ee_gpsFixType := 0 |} in
  let st := Part001.set_clock (Part001.set_gpsStatus (Part001.boot ee) 1)
              {| timeSet := true; sysTime := 1657985900 |} in
  let gsa := bytes_of "$GPGSA,A,3,02,11,29,20,31,25,18,129,0.99,1.38*07" ++ [ch_CR; ch_LF] in
  let rmc := bytes_of "$GPRMC,153938.00,V,,,,,,,160722,,,N*78" ++ [ch_CR; ch_LF] in
  match Part001.ProcessGPS makeTime_TimeLib st gsa with
  | Some (st1, _, ev1) =>
      Part001.fix3 st1 = true
      /\ timeSet (Part001.clock st1) = true
      /\ eeprom_writes ev1 = []
      /\ Part001.eeprom st1 = ee
      /\ match Part001.ProcessGPS makeTime_TimeLib st1 rmc with
         | Some (st2, _, ev2) =>
             eeprom_writes ev2 = [EEPROM_put 1 (EEsettings 1657985978 51)]
             /\ Part001.eeprom st2
                = {| ee_configured := true; ee_lastGPSFix := 1657985978;
                     ee_gpsFixType := 51 |}
         | None => False
         end
  | None => False
  end.
Proof. vm_compute. repeat split. Qed.

Lemma Part001_apply_epoch_eeprom st t :
  let r := Part001.apply_epoch st t in
  let kind := if Part001.fix2 st then 50 else 51 in
  if Part001.fix2 st || Part001.fix3 st then
    eeprom_writes r.2 = [EEPROM_put 1 (EEsettings t kind)]
    /\ Part001.eeprom r.1
       = {| ee_configured := ee_configured (Part001.eeprom st);
            ee_lastGPSFix := t; ee_gpsFixType := kind |}
  else eeprom_writes r.2 = [] /\ Part001.eeprom r.1 = Part001.eeprom st.
Proof.
  destruct st as [fr gs gt [ts sy] ee].
  unfold Part001.fix2, Part001.fix3, Part001.apply_epoch. simpl.
  rewrite !bitRead_bitSet by lia. simpl (0 =? _). rewrite !orb_false_r.
  destruct (Part001.bitRead gs 1), (Part001.bitRead gs 2), (Part001.bitRead gs 3);
    simpl; destruct ts; simpl; try (split; reflexivity);
    unfold now; simpl; destruct (to_int (to_time_t (t - sy)) =? 0); split; reflexivity.
Qed.

(** C9, amended.  GPSTime.ino: the fix-quality event writes the record
    exactly when its character is ['2'] or ['3'] and the clock is set, with
    [now()] and that character; the time/date event never writes; whatever
    [ProcessGPS] reads, either the EEPROM is unchanged and nothing was
    written, or the clock was set and the two writes are those of a ['2'] or
    ['3'] fix event.  part_001: the fix-quality event never writes; the
    time/date event writes the record exactly when the 2D or the 3D flag is
    set, with the epoch of the event and the kind of the fix; whatever
    [ProcessGPS] reads, either the EEPROM is unchanged and nothing was
    written, or a flag was set and the write is that of a time/date event.
    In both sketches the first-run flag is kept by every event, and [setup]
    writes only while that flag is unset. *)
Theorem C9_eeprom_write_paths makeTime :
  (forall st c,
      let r := GPSTime.apply_fix st c in
      ee_configured (GPSTime.eeprom r.1) = ee_configured (GPSTime.eeprom st)
      /\ if ((c =? 50) || (c =? 51)) && timeSet (GPSTime.clock st) then
           r.2 = [EEPROM_put 1 (EEtime (now (GPSTime.clock st))); EEPROM_put 5 (EEchar c)]
           /\ GPSTime.eeprom r.1
              = {| ee_configured := ee_configured (GPSTime.eeprom st);
                   ee_lastGPSFix := now (GPSTime.clock st);
                   ee_gpsFixType := c |}
         else r.2 = [] /\ GPSTime.eeprom r.1 = GPSTime.eeprom st)
  /\ (forall st t,
        let r := GPSTime.apply_epoch st t in
        GPSTime.eeprom r.1.2 = GPSTime.eeprom st /\ eeprom_writes r.2 = [])
  /\ (forall st q,
        match GPSTime.ProcessGPS makeTime st q with
        | Some (st', _, ev) =>
            (GPSTime.eeprom st' = GPSTime.eeprom st /\ eeprom_writes ev = [])
            \/ exists c,
                 (c = 50 \/ c = 51) /\ timeSet (GPSTime.clock st) = true
                 /\ eeprom_writes ev
                    = [EEPROM_put 1 (EEtime (now (GPSTime.clock st)));
                       EEPROM_put 5 (EEchar c)]
                 /\ GPSTime.eeprom st'
                    = {| ee_configured := ee_configured (GPSTime.eeprom st);
                         ee_lastGPSFix := now (GPSTime.clock st);
                         ee_gpsFixType := c |}
        | None => True
        end)
  /\ (forall st c,
        let r := Part001.apply_fix st c in
        Part001.eeprom r.1 = Part001.eeprom st /\ eeprom_writes r.2 = [])
  /\ (forall st t,
        let r := Part001.apply_epoch st t in
        let kind := if Part001.fix2 st then 50 else 51 in
        if Part001.fix2 st || Part001.fix3 st then
          eeprom_writes r.2 = [EEPROM_put 1 (EEsettings t kind)]
          /\ Part001.eeprom r.1
             = {| ee_configured := ee_configured (Part001.eeprom st);
                  ee_lastGPSFix := t; ee_gpsFixType := kind |}
        else eeprom_writes r.2 = [] /\ Part001.eeprom r.1 = Part001.eeprom st)
  /\ (forall st q,
        match Part001.ProcessGPS makeTime st q with
        | Some (st', _, ev) =>
            (Part001.eeprom st' = Part001.eeprom st /\ eeprom_writes ev = [])
            \/ exists t,
                 0 < t /\ Part001.fix2 st || Part001.fix3 st = true
                 /\ eeprom_writes ev
                    = [EEPROM_put 1 (EEsettings t (if Part001.fix2 st then 50 else 51))]
                 /\ Part001.eeprom st'
                    = {| ee_configured := ee_configured (Part001.eeprom st);
                         ee_lastGPSFix := t;
                         ee_gpsFixType := if Part001.fix2 st then 50 else 51 |}
        | None => True
        end)
  /\ (forall st,
        (GPSTime.setup st).2
        = (if ee_configured (GPSTime.eeprom st) then []
           else [Serial_print "Updating EEProm"; EEPROM_put 0 (EEbool true);
                 EEPROM_put 1 (EEtime (GPSTime.lastUpdateGPS st));
                 EEPROM_put 5 (EEchar 0)]))
  /\ (forall st,
        (Part001.setup st).2
        = (if ee_configured (Part001.eeprom st) then []
           else [Serial_print "Updating EEProm"; EEPROM_put 0 (EEbool true);
                 EEPROM_put 1 (EEsettings 0 0)])).
Proof.
  repeat apply conj.
  - intros st c r. split.
    + by destruct (GPSTime_apply_fix_frame st c) as (_ & _ & _ & H & _).
    + apply GPSTime_apply_fix_eeprom.
  - intros st t. apply GPSTime_apply_epoch_eeprom.
  - intros st q.
    destruct (GPSTime.ProcessGPS makeTime st q) as [[[st' rest] ev]|] eqn:E; [|done].
    destruct (GPSTime_ProcessGPS_cases _ _ _ _ _ _ E)
      as (f1 & [[-> [Hw _]]|[(c & -> & Hw & _)|(_ & t & -> & Hw & _)]]).
    + by left.
    + pose proof (GPSTime_apply_fix_eeprom (GPSTime.set_frame st f1) c) as H.
      cbn [GPSTime.set_frame GPSTime.clock GPSTime.eeprom] in H.
      destruct ((c =? 50) || (c =? 51)) eqn:Ec; simpl andb in H.
      * destruct (timeSet (GPSTime.clock st)) eqn:Es.
        -- destruct H as [H1 H2]. right. exists c.
           split; [apply orb_true_iff in Ec as [?%Z.eqb_eq|?%Z.eqb_eq]; auto|].
           split; [done|]. split; [by rewrite Hw, H1|done].
        -- destruct H as [H1 H2]. left. split; [done|]. by rewrite Hw, H1.
      * destruct H as [H1 H2]. left. split; [done|]. by rewrite Hw, H1.
    + left. split; [|done].
      by destruct (GPSTime_apply_epoch_eeprom (GPSTime.set_frame st f1) t) as [-> _].
  - intros st c r. split.
    + by destruct (Part001_apply_fix_frame st c) as (_ & H & _).
    + apply Part001_apply_fix_quiet.
  - intros st t. apply Part001_apply_epoch_eeprom.
  - intros st q.
    destruct (Part001.ProcessGPS makeTime st q) as [[[st' rest] ev]|] eqn:E; [|done].
    destruct (Part001_ProcessGPS_cases _ _ _ _ _ _ E)
      as (f1 & f2 & [[-> [Hw _]]|[(c & -> & [Hw _])|(t & Ht & -> & Hw & _)]]).
    + by left.
    + left. split; [|done]. cbn [Part001.set_frame Part001.eeprom].
      by destruct (Part001_apply_fix_frame (Part001.set_frame st f1) c) as (_ & -> & _).
    + pose proof (Part001_apply_epoch_eeprom (Part001.set_frame st f1) t) as H.
      change (Part001.fix2 (Part001.set_frame st f1)) with (Part001.fix2 st) in H.
      change (Part001.fix3 (Part001.set_frame st f1)) with (Part001.fix3 st) in H.
      cbn [Part001.set_frame Part001.eeprom] in H |- *.
      destruct (Part001.fix2 st || Part001.fix3 st) eqn:Ef.
      * destruct H as [H1 H2]. right. exists t.
        split; [done|]. split; [done|]. split; [by rewrite Hw|done].
      * destruct H as [H1 H2]. left. split; [done|]. by rewrite Hw.
  - intros st. unfold GPSTime.setup. by destruct (ee_configured _).
  - intros st. unfold Part001.setup. by destruct (ee_configured _).
Qed.

(** C10.  In GPSTime.ino, once the clock is set and at most
    [SYNC_TIME_T_TO_GPS] = 60 seconds separate [now()] from [lastUpdateGPS],
    no sentence reaches [SyncTimeToGPS]: whatever [ProcessGPS] reads, the
    clock and [lastUpdateGPS] are left as they were and no decay correction
    is reported, whatever the value of [gpsInternalClock]; so it is for every
    buffer handed to [dispatch]. *)
Theorem C10_sync_window makeTime st :
  timeSet (GPSTime.clock st) = true ->
  0 <= now (GPSTime.clock st) - GPSTime.lastUpdateGPS st <= SYNC_TIME_T_TO_GPS ->
  (forall pResponse,
      let r := GPSTime.dispatch makeTime st pResponse in
      GPSTime.clock r.1 = GPSTime.clock st
      /\ GPSTime.lastUpdateGPS r.1 = GPSTime.lastUpdateGPS st
      /\ decay_reports r.2 = [])
  /\ (forall q, frame_ok Sk_GPSTime (GPSTime.frame st) ->
        exists st' rest ev,
          GPSTime.ProcessGPS makeTime st q = Some (st', rest, ev)
          /\ GPSTime.clock st' = GPSTime.clock st
          /\ GPSTime.lastUpdateGPS st' = GPSTime.lastUpdateGPS st
          /\ decay_reports ev = []).
Proof.
  intros Hset Hwin.
  assert (Hgate : GPSTime.sync_due st = false).
  { unfold GPSTime.sync_due. rewrite Hset. simpl negb. simpl orb.
    unfold to_time_t, SYNC_TIME_T_TO_GPS in *. rewrite Z.mod_small by lia.
    apply Z.ltb_ge. lia. }
  split.
  - intros p r.
    destruct (GPSTime_dispatch_cases makeTime st p)
      as [[H [_ Hr]]|[(c & H & _ & Hr)|(Hg & _)]].
    + fold r in H, Hr. by rewrite H.
    + fold r in H, Hr. rewrite H.
      by destruct (GPSTime_apply_fix_frame st c) as (-> & -> & _).
    + congruence.
  - intros q Hf.
    destruct (GPSTime_ProcessGPS_total makeTime st q Hf) as (st' & rest & ev & H).
    exists st', rest, ev. split; [done|].
    destruct (GPSTime_ProcessGPS_cases _ _ _ _ _ _ H)
      as (f1 & [[-> [_ Hr]]|[(c & -> & _ & Hr)|(Hg & _)]]).
    + done.
    + by destruct (GPSTime_apply_fix_frame (GPSTime.set_frame st f1) c) as (-> & -> & _).
    + congruence.
Qed.

Lemma C10_sync_window_witness :
  let ee := {| ee_configured := true; ee_lastGPSFix := 0; ee_gpsFixType := 0 |} in
  let st := GPSTime.set_lastUpdateGPS
              (GPSTime.set_clock (GPSTime.set_gpsInternalClock (GPSTime.boot ee) false)
                 {| timeSet := true; sysTime := 1657986000 |})
              1657985950 in
  (forall pResponse,
      let r := GPSTime.dispatch makeTime_TimeLib st pResponse in
      GPSTime.clock r.1 = GPSTime.clock st
      /\ GPSTime.lastUpdateGPS r.1 = GPSTime.lastUpdateGPS st
      /\ decay_reports r.2 = [])
  /\ (forall q, frame_ok Sk_GPSTime (GPSTime.frame st) ->
        exists st' rest ev,
          GPSTime.ProcessGPS makeTime_TimeLib st q = Some (st', rest, ev)
          /\ GPSTime.clock st' = GPSTime.clock st
          /\ GPSTime.lastUpdateGPS st' = GPSTime.lastUpdateGPS st
          /\ decay_reports ev = []).
Proof.
  apply (C10_sync_window makeTime_TimeLib).
  - reflexivity.
  - vm_compute. split; discriminate.
Defined.

(** The window of C10 at work on the sample sentence, whose epoch
    1657985978 disagrees with the clock: 50 seconds after the last sync the
    sentence is accepted by the checksum and changes nothing; 61 seconds
    after it, the same sentence overwrites the clock and the correction of
    -33 seconds is reported. *)
Example sync_window_sample :
  let ee := {| ee_configured := true; ee_lastGPSFix := 0; ee_gpsFixType := 0 |} in
  let rmc := bytes_of "$GPRMC,153938.00,V,,,,,,,160722,,,N*78" ++ [ch_CR; ch_LF] in
  let at_clock last :=
    GPSTime.set_lastUpdateGPS
      (GPSTime.set_clock (GPSTime.set_gpsInternalClock (GPSTime.boot ee) false)
         {| timeSet := true; sysTime := 1657986011 |})
      last in
  match GPSTime.ProcessGPS makeTime_TimeLib (at_clock 1657985961) rmc with
  | Some (st', _, ev) =>
      GPSTime.clock st' = {| timeSet := true; sysTime := 1657986011 |}
      /\ In (Serial_print "CS+:") ev /\ decay_reports ev = []
  | None => False
  end
  /\ match GPSTime.ProcessGPS makeTime_TimeLib (at_clock 1657985950) rmc with
     | Some (st', _, ev) =>
         GPSTime.clock st' = {| timeSet := true; sysTime := 1657985978 |}
         /\ decay_reports ev = [Serial_mismatch (-33) "GPS"]
     | None => False
     end.
Proof. vm_compute. repeat split. left. reflexivity. Qed.

(** ** The framer under arbitrary bursts *)

Lemma padded_nil k : padded k [] = memset0 (sizeof_gpsResponse k).
Proof. unfold padded, memset0. simpl. by rewrite Nat.sub_0_r. Qed.

(** The overflow branch is the ordinary iteration on a cleared buffer,
    after the overflow message. *)
Lemma loop_body_overflow k f c :
  0 <= packetOffset f < 65536 ->
  sizeof_gpsResponse k <= packetOffset f ->
  loop_body k f c
  = match loop_body k {| buildingSentence := buildingSentence f;
                         gpsResponse := memset0 (sizeof_gpsResponse k);
                         packetOffset := 0 |} c with
    | Some (f', full, ev) => Some (f', full, Serial_print (overflow_msg k) :: ev)
    | None => None
    end.
Proof.
  intros Hr Hov. pose proof (sizeof_gpsResponse_range k) as Hk.
  unfold loop_body. cbn [packetOffset gpsResponse buildingSentence].
  rewrite (to_uint_small (packetOffset f)) by lia.
  replace (to_uint 0) with 0 by reflexivity.
  destruct (Z.leb_spec (sizeof_gpsResponse k) (packetOffset f)); [|lia].
  destruct (Z.leb_spec (sizeof_gpsResponse k) 0); [lia|].
  destruct (c =? ch_dollar).
  - simpl (0 =? 0). cbv iota.
    destruct (store _ 0 c); [|reflexivity]. cbn [mbind option_bind].
    by destruct k.
  - destruct (store _ 0 c); [|reflexivity]. cbn [mbind option_bind].
    replace (2 <? 0) with false by reflexivity. reflexivity.
Qed.




Lemma frame_text_reset k b :
  frame_text k {| buildingSentence := b;
                  gpsResponse := memset0 (sizeof_gpsResponse k);
                  packetOffset := 0 |} [].
Proof.
  pose proof (sizeof_gpsResponse_range k).
  repeat split; cbn [gpsResponse packetOffset]; simpl; try lia.
  - by rewrite padded_nil.
  - apply not_elem_of_nil.
Qed.



Lemma frame_open_init k : frame_open k (frame_init k).
Proof. split; [apply frame_init_ok|]. simpl. discriminate. Qed.



(** The loop leaves through [break] only with [buildingSentence] cleared. *)
Lemma loop_body_full k f c f' ev :
  loop_body k f c = Some (f', true, ev) -> buildingSentence f' = false.
Proof.
  unfold loop_body, store, load. intros H.
  destruct k; repeat (first [progress simplify_option_eq | case_match]); reflexivity.
Qed.

Lemma read_loop_full k q : forall f f' rest ev,
  read_loop k f q = Some (f', true, rest, ev) -> buildingSentence f' = false.
Proof.
  induction q as [|c q IH]; intros f f' rest ev; simpl; [discriminate|].
  destruct (loop_body k f c) as [[[f1 full1] ev1]|] eqn:E; [|discriminate].
  destruct full1.
  - intros [= <- <- <-]. by eapply loop_body_full.
  - destruct (read_loop k f1 q) as [[[[f2 full2] rest2] ev2]|] eqn:E2; [|discriminate].
    intros [= <- -> <- <-]. by eapply IH.
Qed.

(** A loop that used up its bytes goes on with the next ones as if they had
    been there from the start. *)
Lemma read_loop_app k q1 : forall q2 f f1 rest ev1,
  read_loop k f q1 = Some (f1, false, rest, ev1) ->
  rest = []
  /\ read_loop k f (q1 ++ q2)
     = match read_loop k f1 q2 with
       | Some (f2, full, rest2, ev2) => Some (f2, full, rest2, ev1 ++ ev2)
       | None => None
       end.
Proof.
  induction q1 as [|c q1 IH]; intros q2 f f1 rest ev1; simpl.
  - intros [= <- <- <-]. split; [done|].
    by destruct (read_loop k f q2) as [[[[f2 full] rest2] ev2]|].
  - destruct (loop_body k f c) as [[[f' full'] ev']|]; [|discriminate].
    destruct full'; [discriminate|].
    destruct (read_loop k f' q1) as [[[[f'' full''] rest''] ev'']|] eqn:E; [|discriminate].
    intros [= <- -> <- <-].
    destruct (IH q2 _ _ _ _ E) as [-> ->]. split; [done|].
    destruct (read_loop k f'' q2) as [[[[f2 full] rest2] ev2]|]; [|done].
    by rewrite app_assoc.
Qed.

(** X2: while a sentence is being built, the split of the bytes over the
    calls of [ProcessGPS] does not matter.  If a call on the bytes [q1]
    returns with [buildingSentence] set, it has read all of them and emitted
    nothing, and a single call on [q1 ++ q2] does what that call followed by
    a call on [q2] does: same frame, same candidate, same bytes left, the
    events of both in order. *)
Theorem framer_burst_split k f q1 q2 f1 cand rest ev1 :
  framer_call k f q1 = Some (f1, cand, rest, ev1) ->
  buildingSentence f1 = true ->
  cand = None /\ rest = []
  /\ framer_call k f (q1 ++ q2)
     = match framer_call k f1 q2 with
       | Some (f2, cand2, rest2, ev2) => Some (f2, cand2, rest2, ev1 ++ ev2)
       | None => None
       end.
Proof.
  intros H Hb. unfold framer_call, ProcessGPS_frame in H.
  set (f0 := if negb (buildingSentence f) then _ else f) in H.
  destruct (read_loop k f0 q1) as [[[[f' full] rest'] ev']|] eqn:E; [|discriminate].
  injection H as <- <- <- <-.
  assert (Hb' : buildingSentence f' = true).
  { destruct k; simpl in Hb; [done|].
    by destruct (negb (buildingSentence f') && full). }
  assert (full = false) as ->.
  { destruct full; [|done]. apply read_loop_full in E. congruence. }
  assert (frame_epilogue k f' false = f') as ->.
  { destruct k; simpl; [done|]. by rewrite andb_false_r. }
  destruct (read_loop_app k q1 q2 _ _ _ _ E) as [-> Happ].
  split; [unfold candidate; by rewrite andb_false_r|]. split; [done|].
  unfold framer_call, ProcessGPS_frame. fold f0. rewrite Happ, Hb'. simpl negb. cbv iota.
  by destruct (read_loop k f' q2) as [[[[f2 full2] rest2] ev2]|].
Qed.

Lemma framer_burst_split_witness :
  (None : option (list Z)) = None /\ ([] : list Z) = []
  /\ framer_call Sk_GPSTime (frame_init Sk_GPSTime) (bytes_of "$GP" ++ bytes_of "RMC")
     = match framer_call Sk_GPSTime (frame_of Sk_GPSTime (bytes_of "GP")) (bytes_of "RMC") with
       | Some (f2, cand2, rest2, ev2) => Some (f2, cand2, rest2, [] ++ ev2)
       | None => None
       end.
Proof.
  apply (framer_burst_split Sk_GPSTime (frame_init Sk_GPSTime) (bytes_of "$GP")
           (bytes_of "RMC") (frame_of Sk_GPSTime (bytes_of "GP")) None [] []);
    reflexivity.
Defined.

(** ** A sentence spread over several calls *)

(** The start marker opens a clean frame from any text. *)
Lemma loop_body_dollar k f l :
  frame_text k f l ->
  exists ev, loop_body k f ch_dollar = Some (frame_of k [], false, ev).
Proof.
  intros Hf. pose proof (sizeof_gpsResponse_range k) as Hk.
  assert (Hroom : forall g m, frame_text k g m ->
             Z.of_nat (length m) < sizeof_gpsResponse k ->
             exists ev, loop_body k g ch_dollar = Some (frame_of k [], false, ev)).
  { intros g m (Hb & Hp & Hl & Hd) Hr.
    assert (Hlen : Z.of_nat (length (gpsResponse g)) = sizeof_gpsResponse k)
      by (rewrite Hb; by apply length_padded).
    assert (Hm : Z.of_nat (length (memset0 (sizeof_gpsResponse k))) = sizeof_gpsResponse k)
      by (apply length_memset0; lia).
    unfold loop_body.
    rewrite (to_uint_small (packetOffset g)) by lia.
    destruct (Z.leb_spec (sizeof_gpsResponse k) (packetOffset g)) as [|_]; [lia|].
    simpl (ch_dollar =? ch_dollar). cbv iota.
    assert (Hs : Z.of_nat (length (if packetOffset g =? 0 then gpsResponse g
                                   else memset0 (sizeof_gpsResponse k))) = sizeof_gpsResponse k)
      by (destruct (packetOffset g =? 0); lia).
    rewrite store_Some by lia. cbn [mbind option_bind].
    assert (Hbuf : <[Z.to_nat 0 := ch_dollar]>
                     (if packetOffset g =? 0 then gpsResponse g
                      else memset0 (sizeof_gpsResponse k)) = padded k [ch_dollar]).
    { destruct (Z.eqb_spec (packetOffset g) 0) as [E|E].
      - rewrite Hb. destruct m; [|simpl in *; lia]. rewrite padded_nil. apply padded_start.
      - apply padded_start. }
    rewrite Hbuf. eexists. reflexivity. }
  destruct (Z.lt_ge_cases (Z.of_nat (length l)) (sizeof_gpsResponse k)) as [Hr|Hfull].
  - by eapply Hroom.
  - destruct Hf as (Hb & Hp & Hl & Hd).
    rewrite loop_body_overflow by lia.
    destruct (Hroom _ [] (frame_text_reset k (buildingSentence f))) as [ev ->]; [simpl; lia|].
    eexists. reflexivity.
Qed.

(** One more byte in a frame that has room for it, seen from the loop. *)
Lemma loop_body_append k body c :
  Z.of_nat (length body) + 1 < sizeof_gpsResponse k ->
  c <> ch_dollar ->
  exists f',
    loop_body k (frame_of k body) c = Some (f', completesb body c, [])
    /\ (completesb body c = false -> f' = frame_of k (body ++ [c]))
    /\ (completesb body c = true ->
        buildingSentence f' = false
        /\ gpsResponse f' = padded k (ch_dollar :: body ++ [c])).
Proof.
  intros Hroom Hc.
  destruct (framer_call_append k body c Hroom Hc) as (f1 & Hcall & Hopen & Hclosed).
  unfold framer_call, ProcessGPS_frame in Hcall.
  cbn [frame_of buildingSentence negb] in Hcall. fold (frame_of k body) in Hcall.
  cbn [read_loop] in Hcall.
  destruct (loop_body k (frame_of k body) c) as [[[f' full] ev]|] eqn:E; [|discriminate].
  assert (Hfull : full = true -> buildingSentence f' = false)
    by (intros ->; by eapply loop_body_full).
  destruct full.
  - specialize (Hfull eq_refl). injection Hcall as <- Hcand <-.
    unfold candidate in Hcand. rewrite Hfull in Hcand. simpl in Hcand.
    destruct (completesb body c); [|discriminate].
    injection Hcand as Hcand.
    exists f'. split; [reflexivity|]. split; [discriminate|]. by intros _.
  - injection Hcall as <- Hcand Hev.
    rewrite app_nil_r in Hev. subst ev.
    unfold candidate in Hcand. rewrite andb_false_r in Hcand.
    destruct (completesb body c); [discriminate|].
    exists f'. split; [reflexivity|]. split; [|discriminate]. intros _.
    rewrite <- (Hopen eq_refl).
    destruct k; simpl; [done|]. by rewrite andb_false_r.
Qed.

(** The bytes of a body that no byte completes are appended to the frame. *)
Lemma read_loop_frame k q : forall acc,
  ch_dollar ∉ q ->
  Z.of_nat (length acc) + Z.of_nat (length q) + 1 <= sizeof_gpsResponse k ->
  (forall b1 c b2, q = b1 ++ c :: b2 -> completesb (acc ++ b1) c = false) ->
  read_loop k (frame_of k acc) q = Some (frame_of k (acc ++ q), false, [], []).
Proof.
  induction q as [|c q IH]; intros acc Hd Hroom Hall.
  - by rewrite app_nil_r.
  - simpl in Hroom. apply not_elem_of_cons in Hd as [Hc Hd].
    destruct (loop_body_append k acc c) as (f1 & Hbody & Hopen & _); [lia|done|].
    pose proof (Hall [] c q eq_refl) as E. rewrite app_nil_r in E.
    cbn [read_loop]. rewrite Hbody, E, (Hopen E).
    rewrite (IH (acc ++ [c])).
    + by rewrite <- app_assoc.
    + done.
    + rewrite length_app. simpl. lia.
    + intros b1 c' b2 ->. rewrite <- app_assoc. by apply (Hall (c :: b1) c' b2).
Qed.

Lemma frame_epilogue_open k f : frame_epilogue k f false = f.
Proof. destruct k; simpl; [done|]. by rewrite andb_false_r. Qed.

Lemma framer_call_frame k acc q :
  ch_dollar ∉ q ->
  Z.of_nat (length acc) + Z.of_nat (length q) + 1 <= sizeof_gpsResponse k ->
  (forall b1 c b2, q = b1 ++ c :: b2 -> completesb (acc ++ b1) c = false) ->
  framer_call k (frame_of k acc) q = Some (frame_of k (acc ++ q), None, [], []).
Proof.
  intros Hd Hroom Hall. unfold framer_call, ProcessGPS_frame.
  cbn [frame_of buildingSentence negb]. fold (frame_of k acc).
  rewrite read_loop_frame by done.
  by rewrite frame_epilogue_open.
Qed.

Lemma framer_call_frame_end k acc s :
  ch_dollar ∉ s ->
  Z.of_nat (length acc) + Z.of_nat (length s) + 2 <= sizeof_gpsResponse k ->
  (forall b1 c b2, s = b1 ++ c :: b2 -> completesb (acc ++ b1) c = false) ->
  completesb (acc ++ s) ch_LF = true ->
  exists f',
    framer_call k (frame_of k acc) (s ++ [ch_LF])
    = Some (f', Some (padded k (ch_dollar :: acc ++ s ++ [ch_LF])), [], [])
    /\ buildingSentence f' = false /\ frame_ok k f'.
Proof.
  intros Hd Hroom Hall Hend. unfold framer_call, ProcessGPS_frame.
  cbn [frame_of buildingSentence negb]. fold (frame_of k acc).
  destruct (read_loop_app k s [ch_LF] (frame_of k acc) (frame_of k (acc ++ s)) [] [])
    as [_ ->]; [apply read_loop_frame; [done|lia|done]|].
  destruct (loop_body_append k (acc ++ s) ch_LF) as (f1 & Hbody & _ & Hclosed);
    [rewrite length_app; lia|done|].
  rewrite Hend in Hbody. destruct (Hclosed Hend) as [Hb Hbuf].
  cbn [read_loop]. rewrite Hbody. cbn [app].
  assert (Hok : frame_inv k f1).
  { destruct (loop_body_ok k (frame_of k (acc ++ s)) ch_LF) as (f2 & full & ev & E & Hinv).
    - apply frame_of_inv. rewrite length_app. lia.
    - congruence. }
  eexists. split; [|split].
  - unfold candidate. rewrite Hb, Hbuf. simpl. by rewrite <- app_assoc.
  - by destruct k; simpl; rewrite ?Hb.
  - apply frame_epilogue_inv, Hok.
Qed.

Lemma drain_empty k bursts : forall f,
  concat bursts = [] -> drain k f [] bursts = Some (f, [], []).
Proof.
  induction bursts as [|b bursts IH]; intros f H; [done|].
  simpl in H. apply app_eq_nil in H as [-> H]. simpl. by apply IH.
Qed.

Lemma drain_frame k bursts : forall acc s,
  concat bursts = s ++ [ch_LF] ->
  ch_dollar ∉ s ->
  Z.of_nat (length acc) + Z.of_nat (length s) + 2 <= sizeof_gpsResponse k ->
  (forall b1 c b2, s = b1 ++ c :: b2 -> completesb (acc ++ b1) c = false) ->
  completesb (acc ++ s) ch_LF = true ->
  exists f',
    drain k (frame_of k acc) [] bursts
    = Some (f', [], [padded k (ch_dollar :: acc ++ s ++ [ch_LF])])
    /\ buildingSentence f' = false.
Proof.
  induction bursts as [|b bursts IH]; intros acc s Hcat Hd Hroom Hall Hend.
  - by destruct s.
  - simpl in Hcat. cbn [drain app].
    destruct b as [|c b1]; [by apply IH|].
    set (b := c :: b1) in *.
    assert (Hcase : (exists r, s = b ++ r /\ concat bursts = r ++ [ch_LF])
                    \/ (b = s ++ [ch_LF] /\ concat bursts = [])).
    { apply app_eq_inv in Hcat as [(k0 & Hb & Hk)|(k0 & Hs & Hk)].
      - destruct k0 as [|x k0].
        + left. exists []. rewrite app_nil_r in Hb. by rewrite app_nil_r.
        + destruct k0; [|by destruct k0]. injection Hk as <- Hk. by right.
      - left. by exists k0. }
    destruct Hcase as [(r & -> & Hr)|[Hb Hr]].
    + apply not_elem_of_app in Hd as [Hd1 Hd2]. rewrite length_app in Hroom.
      rewrite framer_call_frame; [|done|lia|].
      2:{ intros b2 c' b3 Hb. apply (Hall b2 c' (b3 ++ r)). rewrite Hb.
          by rewrite <- app_assoc. }
      destruct (IH (acc ++ b) r) as (f' & -> & Hf'); [done|done| | | |].
      * rewrite length_app. lia.
      * intros b2 c' b3 ->. rewrite <- app_assoc. apply (Hall (b ++ b2) c' b3).
        by rewrite <- app_assoc.
      * by rewrite <- app_assoc.
      * exists f'. split; [|done]. simpl. by rewrite <- !app_assoc.
    + rewrite Hb.
      destruct (framer_call_frame_end k acc s) as (f' & -> & Hf' & _); [done..|].
      rewrite drain_empty by done. by exists f'.
Qed.

(** From any frame, a burst that begins with the start marker continues
    from the clean frame. *)
Lemma framer_call_dollar_burst k f q :
  frame_open k f ->
  exists ev0,
    framer_call k f (ch_dollar :: q)
    = match framer_call k (frame_of k []) q with
      | Some (f2, cand, rest, ev) => Some (f2, cand, rest, ev0 ++ ev)
      | None => None
      end.
Proof.
  intros [Hok Htext]. unfold framer_call, ProcessGPS_frame.
  assert (Hstart : exists l,
             frame_text k (if negb (buildingSentence f)
                           then {| buildingSentence := buildingSentence f;
                                   gpsResponse := memset0 (sizeof_gpsResponse k);
                                   packetOffset := 0 |}
                           else f) l).
  { destruct (buildingSentence f); simpl.
    - by apply Htext.
    - exists []. apply frame_text_reset. }
  destruct Hstart as [l Hl].
  destruct (loop_body_dollar k _ l Hl) as [ev0 Hbody].
  exists ev0. cbn [read_loop]. rewrite Hbody.
  cbn [frame_of buildingSentence negb]. fold (frame_of k []).
  by destruct (read_loop k (frame_of k []) q) as [[[[f2 full] rest] ev]|].
Qed.

(** X3: a sentence is framed the same way however its bytes are spread over
    the calls of [ProcessGPS].  From any frame the framer can be in, with an
    empty port, the bytes of a start marker, a body without start marker in
    which no terminator pair ends early, ending with a carriage return that
    is not its first byte, and a line feed, the whole within the buffer,
    yield exactly one candidate in every split into bursts: the start
    marker, the body and the line feed, NUL-padded; all bytes are read and
    the framer is left idle. *)
Theorem framer_sentence_any_bursts k f bursts body :
  frame_open k f ->
  concat bursts = ch_dollar :: body ++ [ch_LF] ->
  ch_dollar ∉ body ->
  unterminated body ->
  (exists b', b' <> [] /\ body = b' ++ [ch_CR]) ->
  Z.of_nat (length body) + 2 <= sizeof_gpsResponse k ->
  exists f',
    drain k f [] bursts = Some (f', [], [padded k (ch_dollar :: body ++ [ch_LF])])
    /\ buildingSentence f' = false.
Proof.
  intros Hf Hcat Hd Hu Hcr Hroom.
  assert (Hend : completesb body ch_LF = true) by (by apply completesb_true).
  assert (Hall : forall b1 c b2, body = b1 ++ c :: b2 -> completesb b1 c = false).
  { intros b1 c b2 Hb. destruct (completesb b1 c) eqn:E; [|done].
    by destruct (closed_terminated body b1 c b2). }
  revert f Hf. induction bursts as [|b bursts IH]; intros f Hf; [done|].
  simpl in Hcat. cbn [drain app].
  destruct b as [|c b1]; [by apply IH|].
  injection Hcat as -> Hcat.
  destruct (framer_call_dollar_burst k f b1 Hf) as [ev0 ->].
  assert (Hcase : (exists r, body = b1 ++ r /\ concat bursts = r ++ [ch_LF])
                  \/ (b1 = body ++ [ch_LF] /\ concat bursts = [])).
  { apply app_eq_inv in Hcat as [(k0 & Hb & Hk)|(k0 & Hs & Hk)].
    - destruct k0 as [|x k0].
      + left. exists []. rewrite app_nil_r in Hb. by rewrite app_nil_r.
      + destruct k0; [|by destruct k0]. injection Hk as <- Hk. by right.
    - left. by exists k0. }
  destruct Hcase as [(r & -> & Hr)|[-> Hr]].
  - apply not_elem_of_app in Hd as [Hd1 Hd2]. rewrite length_app in Hroom.
    rewrite framer_call_frame; [|done|simpl; lia|].
    2:{ intros b2 c' b3 Hb. apply (Hall b2 c' (b3 ++ r)). rewrite Hb.
        by rewrite <- app_assoc. }
    destruct (drain_frame k bursts b1 r) as (f' & Hdrain & Hf'); [done|done|lia| |done|].
    + intros b2 c' b3 ->. apply (Hall (b1 ++ b2) c' b3). by rewrite <- app_assoc.
    + cbn [app] in Hdrain |- *. cbv beta iota. rewrite Hdrain.
      exists f'. split; [|done]. cbn [option_list app].
      by rewrite <- !app_assoc.
  - destruct (framer_call_frame_end k [] body) as (f' & -> & Hf' & _); [done|simpl; lia|done|done|].
    rewrite drain_empty by done. by exists f'.
Qed.

Lemma framer_sentence_any_bursts_witness :
  exists f',
    drain Sk_part001 (frame_init Sk_part001) []
      [bytes_of "$GPR"; []; bytes_of "MC,1*5A" ++ [ch_CR]; [ch_LF]]
    = Some (f', [], [padded Sk_part001
                       (ch_dollar :: (bytes_of "GPRMC,1*5A" ++ [ch_CR]) ++ [ch_LF])])
    /\ buildingSentence f' = false.
Proof.
  apply (framer_sentence_any_bursts Sk_part001 (frame_init Sk_part001)
           [bytes_of "$GPR"; []; bytes_of "MC,1*5A" ++ [ch_CR]; [ch_LF]]
           (bytes_of "GPRMC,1*5A" ++ [ch_CR])).
  - apply frame_open_init.
  - reflexivity.
  - vm_compute. intros H. repeat (apply elem_of_cons in H as [H|H]; [lia|]).
    by apply elem_of_nil in H.
  - apply no_crlf_unterminated. reflexivity.
  - exists (bytes_of "GPRMC,1*5A"). split; [discriminate|reflexivity].
  - simpl. lia.
Defined.

(** ** What [CheckSum] accepts *)

(** The search loop returns the first offset that holds an asterisk, and 0
    when there is none. *)
Lemma find_asterisk_seqZ p (n : nat) : forall lo,
  (exists i, lo <= i < lo + Z.of_nat n
             /\ char_at p i = ch_star
             /\ (forall j, lo <= j < i -> char_at p j <> ch_star)
             /\ find_asterisk p (seqZ lo (Z.of_nat n)) = i)
  \/ ((forall j, lo <= j < lo + Z.of_nat n -> char_at p j <> ch_star)
      /\ find_asterisk p (seqZ lo (Z.of_nat n)) = 0).
Proof.
  induction n as [|n IH]; intros lo.
  - right. split; [lia|reflexivity].
  - rewrite Nat2Z.inj_succ, seqZ_cons by lia. cbn [find_asterisk].
    replace (Z.pred (Z.succ (Z.of_nat n))) with (Z.of_nat n) by lia.
    destruct (Z.eqb_spec (char_at p lo) ch_star) as [E|E].
    + left. exists lo. repeat split; first [lia|done].
    + destruct (IH (Z.succ lo)) as [(i & Hi & Hs & Hf & ->)|[Hn ->]].
      * left. exists i. split; [lia|]. split; [done|]. split; [|done].
        intros j Hj. destruct (Z.eq_dec j lo) as [->|]; [done|]. apply Hf. lia.
      * right. split; [|done]. intros j Hj.
        destruct (Z.eq_dec j lo) as [->|]; [done|]. apply Hn. lia.
Qed.


(** ** The two casts *)

Lemma char_at_cstr p : forall x,
  0 <= x < strlen p -> char_at p x = char_at (cstr p) x.
Proof.
  unfold strlen. induction p as [|c p IH]; intros x Hx; [simpl in Hx; lia|].
  simpl in *. destruct (Z.eqb_spec c 0) as [|Hc]; [simpl in Hx; lia|].
  simpl in Hx. unfold char_at. destruct (Z.ltb_spec x 0); [lia|].
  destruct (Z.to_nat x) as [|m] eqn:E; [reflexivity|]. simpl.
  specialize (IH (Z.of_nat m)). unfold char_at in IH.
  destruct (Z.ltb_spec (Z.of_nat m) 0); [lia|].
  rewrite Nat2Z.id in IH. apply IH. lia.
Qed.

Lemma lxor_bound n a b :
  0 < n -> 0 <= a < 2 ^ n -> 0 <= b < 2 ^ n -> 0 <= Z.lxor a b < 2 ^ n.
Proof.
  intros Hn Ha Hb.
  assert (H0 : 0 <= Z.lxor a b) by (apply Z.lxor_nonneg; lia).
  split; [done|].
  destruct (Z.eq_dec (Z.lxor a b) 0) as [->|Hx]; [lia|].
  apply Z.log2_lt_pow2; [lia|].
  pose proof (Z.log2_lxor a b ltac:(lia) ltac:(lia)) as Hl.
  assert (Z.log2 a < n).
  { destruct (Z.eq_dec a 0) as [->|]; [simpl; lia|]. apply Z.log2_lt_pow2; lia. }
  assert (Z.log2 b < n).
  { destruct (Z.eq_dec b 0) as [->|]; [simpl; lia|]. apply Z.log2_lt_pow2; lia. }
  lia.
Qed.

Lemma fold_xor_bound n (g : Z -> Z) xs : forall acc,
  0 < n -> 0 <= acc < 2 ^ n ->
  Forall (fun x => 0 <= g x < 2 ^ n) xs ->
  0 <= fold_left (fun a x => Z.lxor a (g x)) xs acc < 2 ^ n.
Proof.
  induction xs as [|x xs IH]; intros acc Hn Hacc Hxs; [done|].
  apply Forall_cons in Hxs as [Hx Hxs]. simpl.
  apply IH; [done| |done]. by apply lxor_bound.
Qed.

Lemma cast_byte_range c : 0 <= cast_byte c < 2 ^ 8.
Proof. unfold cast_byte, to_uint8. apply Z.mod_pos_bound. lia. Qed.

Lemma cast_char_small c : 0 <= c < 128 -> cast_char c = c /\ cast_byte c = c.
Proof.
  intros H. unfold cast_char, cast_byte, to_uint8.
  rewrite Z.mod_small by lia. destruct (Z.ltb_spec c 128); [done|lia].
Qed.

Lemma char_at_small p x :
  Forall (fun c => 0 <= c < 128) (cstr p) ->
  0 <= x < strlen p -> 0 <= char_at p x < 128.
Proof.
  intros Hp Hx. rewrite char_at_cstr by done.
  eapply (proj1 (Forall_forall _ _) Hp), char_at_in. exact Hx.
Qed.

Lemma xor_loop_casts p lo hi :
  Forall (fun c => 0 <= c < 128) (cstr p) ->
  0 <= lo -> hi <= strlen p ->
  xor_loop cast_char p lo hi = xor_loop cast_byte p lo hi
  /\ 0 <= xor_loop cast_char p lo hi < 128.
Proof.
  intros Hp Hlo Hhi. unfold xor_loop. split.
  - apply fold_xor_ext, Forall_seqZ. intros x Hx.
    destruct (cast_char_small (char_at p x)) as [-> ->]; [|done].
    apply char_at_small; [done|lia].
  - apply (fold_xor_bound 7 (fun x => cast_char (char_at p x))); [lia|lia|].
    apply Forall_seqZ. intros x Hx.
    destruct (cast_char_small (char_at p x)) as [-> _];
      apply char_at_small; first [done|lia].
Qed.

Lemma sprintf_02X_two i :
  0 <= i < 256 -> sprintf_02X i = [hexdigit (i / 16); hexdigit (i mod 16); 0].
Proof.
  intros H. unfold sprintf_02X. rewrite to_uint_small by lia.
  by destruct (Z.ltb_spec i 256); [|lia].
Qed.

(** X5: on 7-bit packets the [(char)] cast of part_001 and the [(byte)]
    cast of GPSTime.ino make no difference.  When every character of the C
    string is below 0x80, [CheckSum] gives the same verdict and
    [SetCheckSum] the same result with either cast, and with the [(char)]
    cast the XOR of the characters from offset 1 stays below 0x80, so that
    [sprintf] writes two digits and the NUL: [Calc[3]] is large enough. *)
Theorem checksum_casts_agree_on_ascii p :
  Forall (fun c => 0 <= c < 128) (cstr p) ->
  CheckSum cast_char p = CheckSum cast_byte p
  /\ (forall bufferSize,
        SetCheckSum cast_char p bufferSize = SetCheckSum cast_byte p bufferSize)
  /\ (forall hi, hi <= strlen p ->
        0 <= xor_loop cast_char p 1 hi < 128
        /\ length (sprintf_02X (xor_loop cast_char p 1 hi)) = 3%nat).
Proof.
  intros Hp. split; [|split].
  - unfold CheckSum.
    destruct (10 <? strlen p); [|done].
    destruct (find_asterisk_seqZ p (length (cstr p)) 0)
      as [(i & Hi & _ & _ & Hfind)|[_ Hfind]];
      fold (strlen p) in Hfind; rewrite Hfind; [|done].
    destruct (0 <? i); [|done].
    destruct (xor_loop_casts p 1 i Hp) as [-> _]; [lia|unfold strlen; lia|done].
  - intros bufferSize. unfold SetCheckSum.
    destruct (strlen p + 5 <=? bufferSize); [|done].
    by destruct (xor_loop_casts p 1 (strlen p) Hp) as [-> _]; [lia|lia|].
  - intros hi Hhi. destruct (xor_loop_casts p 1 hi Hp) as [_ Hr]; [lia|done|].
    split; [done|]. by rewrite sprintf_02X_two by lia.
Qed.

Lemma checksum_casts_agree_on_ascii_witness :
  let p := bytes_of "$GPRMC,153938.00,V,,,,,,,160722,,,N*78" ++ [ch_CR; ch_LF; 0] in
  CheckSum cast_char p = CheckSum cast_byte p
  /\ (forall bufferSize,
        SetCheckSum cast_char p bufferSize = SetCheckSum cast_byte p bufferSize)
  /\ (forall hi, hi <= strlen p ->
        0 <= xor_loop cast_char p 1 hi < 128
        /\ length (sprintf_02X (xor_loop cast_char p 1 hi)) = 3%nat).
Proof.
  apply (checksum_casts_agree_on_ascii
           (bytes_of "$GPRMC,153938.00,V,,,,,,,160722,,,N*78" ++ [ch_CR; ch_LF; 0])).
  vm_compute. repeat (constructor; [split; [discriminate|reflexivity]|]). constructor.
Defined.

Lemma xor_loop_byte_range p lo hi : 0 <= xor_loop cast_byte p lo hi < 256.
Proof.
  unfold xor_loop. change 256 with (2 ^ 8).
  apply (fold_xor_bound 8 (fun x => cast_byte (char_at p x))); [lia|lia|].
  apply Forall_seqZ. intros x _. apply cast_byte_range.
Qed.

(** X6: with the [(byte)] cast of GPSTime.ino the checksum is always a byte,
    whatever the packet holds: [sprintf(Calc, "%02X", iChecksum)] writes two
    digits and the NUL and stays within [char Calc[3]].  With the [(char)]
    cast of part_001 a character above 0x7F is sign-extended, the checksum
    is negative and [sprintf] writes four digits and the NUL. *)
Theorem checksum_byte_fits_Calc p lo hi :
  0 <= xor_loop cast_byte p lo hi < 256
  /\ length (sprintf_02X (xor_loop cast_byte p lo hi)) = 3%nat
  /\ xor_loop cast_char [ch_dollar; 128; 0] 1 2 = -128
  /\ sprintf_02X (xor_loop cast_char [ch_dollar; 128; 0] 1 2) = bytes_of "FF80" ++ [0].
Proof.
  pose proof (xor_loop_byte_range p lo hi) as H.
  split; [exact H|]. split; [|split; reflexivity].
  by rewrite sprintf_02X_two.
Qed.

(** ** [SetCheckSum] and the end of the string *)

Lemma cstr_nonzero p : Forall (fun c => c <> 0) (cstr p).
Proof.
  induction p as [|c p IH]; simpl; [constructor|].
  destruct (Z.eqb_spec c 0); constructor; done.
Qed.

(** X7: [SetCheckSum] writes five bytes and no terminator.  For a packet
    that holds the string [B], its NUL and at least four more bytes,
    whatever they are: when [bufferSize] leaves room for five more
    characters the call returns true, leaves [B] in place, overwrites the
    NUL and the four bytes behind it with the asterisk, the two digits,
    carriage return and line feed, and leaves every later byte as it was,
    so that the string of the result runs on through whatever followed, up
    to the next NUL; otherwise it returns false and the packet is
    untouched. *)
Theorem SetCheckSum_writes_no_terminator cast B tl bufferSize :
  Forall (fun c => c <> 0) B ->
  (4 <= length tl)%nat ->
  let pPacket := B ++ 0 :: tl in
  let Calc := sprintf_02X (xor_loop cast B 1 (Z.of_nat (length B))) in
  let framed := B ++ [ch_star; char_at Calc 0; char_at Calc 1; ch_CR; ch_LF] in
  SetCheckSum cast pPacket bufferSize
  = (if Z.of_nat (length B) + 5 <=? bufferSize
     then (true, framed ++ drop 4 tl) else (false, pPacket))
  /\ cstr (framed ++ drop 4 tl) = framed ++ cstr (drop 4 tl).
Proof.
  intros HB Htl pPacket Calc framed.
  assert (Hsize : strlen pPacket = Z.of_nat (length B)).
  { unfold strlen, pPacket. rewrite cstr_app_nonzero by done. simpl.
    by rewrite app_nil_r. }
  unfold SetCheckSum. rewrite Hsize. split.
  - destruct (Z.leb_spec (Z.of_nat (length B) + 5) bufferSize); [|done].
    rewrite (xor_loop_ext cast _ B) by (intros x Hx; apply char_at_app_l; lia).
    fold Calc.
    assert (E : <[Z.to_nat (Z.of_nat (length B) + 4):=ch_LF]>
                  (<[Z.to_nat (Z.of_nat (length B) + 3):=ch_CR]>
                     (<[Z.to_nat (Z.of_nat (length B) + 2):=char_at Calc 1]>
                        (<[Z.to_nat (Z.of_nat (length B) + 1):=char_at Calc 0]>
                           (<[Z.to_nat (Z.of_nat (length B)):=ch_star]> pPacket))))
                = framed ++ drop 4 tl).
    { unfold pPacket, framed.
      destruct tl as [|t1 [|t2 [|t3 [|t4 tl']]]]; simpl in Htl; try lia.
      rewrite Nat2Z.id.
      replace (Z.to_nat (Z.of_nat (length B) + 1)) with (length B + 1)%nat by lia.
      replace (Z.to_nat (Z.of_nat (length B) + 2)) with (length B + 2)%nat by lia.
      replace (Z.to_nat (Z.of_nat (length B) + 3)) with (length B + 3)%nat by lia.
      replace (Z.to_nat (Z.of_nat (length B) + 4)) with (length B + 4)%nat by lia.
      replace (length B) with (length B + 0)%nat at 5 by lia.
      rewrite !insert_app_r. simpl. by rewrite <- app_assoc. }
    by rewrite E.
  - unfold framed.
    rewrite <- app_assoc, cstr_app_nonzero by done.
    rewrite cstr_app_nonzero; [by rewrite <- app_assoc|].
    destruct (sprintf_02X_digits (xor_loop cast B 1 (Z.of_nat (length B)))).
    repeat constructor; unfold ch_star, ch_CR, ch_LF; first [lia|done].
Qed.

Lemma SetCheckSum_writes_no_terminator_witness :
  let B := bytes_of "$PUBX,40,GSA,0,5,0,0,0,0" in
  let tl := bytes_of "78" ++ [ch_CR; ch_LF] ++ bytes_of "stale" ++ replicate 6 0 in
  let pPacket := B ++ 0 :: tl in
  let Calc := sprintf_02X (xor_loop cast_byte B 1 (Z.of_nat (length B))) in
  let framed := B ++ [ch_star; char_at Calc 0; char_at Calc 1; ch_CR; ch_LF] in
  SetCheckSum cast_byte pPacket 40
  = (if Z.of_nat (length B) + 5 <=? 40
     then (true, framed ++ drop 4 tl) else (false, pPacket))
  /\ cstr (framed ++ drop 4 tl) = framed ++ cstr (drop 4 tl).
Proof.
  apply (SetCheckSum_writes_no_terminator cast_byte
           (bytes_of "$PUBX,40,GSA,0,5,0,0,0,0")
           (bytes_of "78" ++ [ch_CR; ch_LF] ++ bytes_of "stale" ++ replicate 6 0) 40).
  - vm_compute. repeat (constructor; [discriminate|]). constructor.
  - simpl. lia.
Defined.

(** ** The commands of [SetSentences] *)

Lemma dec_digits_digits fuel : forall n acc,
  Forall (fun c => 48 <= c <= 57) acc ->
  Forall (fun c => 48 <= c <= 57) (dec_digits fuel n acc).
Proof.
  induction fuel as [|fuel IH]; intros n acc Hacc; simpl; [done|].
  assert (Forall (fun c => 48 <= c <= 57) (48 + n mod 10 :: acc)).
  { constructor; [|done]. pose proof (Z.mod_pos_bound n 10). lia. }
  destruct (n / 10 =? 0); [done|]. by apply IH.
Qed.

Lemma dec_digits_length fuel : forall n acc,
  (length (dec_digits fuel n acc) <= fuel + length acc)%nat.
Proof.
  induction fuel as [|fuel IH]; intros n acc; simpl; [lia|].
  destruct (n / 10 =? 0); simpl; [lia|].
  etrans; [apply IH|]. simpl. lia.
Qed.

Lemma dec_digits_grows fuel : forall n acc,
  (length acc <= length (dec_digits fuel n acc))%nat.
Proof.
  induction fuel as [|fuel IH]; intros n acc; simpl; [lia|].
  destruct (n / 10 =? 0); simpl; [lia|].
  etrans; [|apply IH]. simpl. lia.
Qed.

Lemma sprintf_d_nonempty n : (0 < length (sprintf_d n))%nat.
Proof.
  unfold sprintf_d.
  change (dec_digits 5 n [])
    with (if n / 10 =? 0 then [48 + n mod 10]
          else dec_digits 4 (n / 10) [48 + n mod 10]).
  destruct (n / 10 =? 0); [simpl; lia|].
  pose proof (dec_digits_grows 4 (n / 10) [48 + n mod 10]) as H.
  simpl length in H at 1. lia.
Qed.

Lemma Forall_weaken_digits l :
  Forall (fun c => 48 <= c <= 57) l -> Forall (fun c => c <> 0 /\ c <> ch_star) l.
Proof. intros H. eapply Forall_impl; [exact H|]. unfold ch_star. intros c ?. simpl. lia. Qed.

Lemma pubx40_text_ok name cycleSetting :
  Forall (fun c => c <> 0 /\ c <> ch_star) (bytes_of name) ->
  Forall (fun c => c <> 0 /\ c <> ch_star) (pubx40_text name cycleSetting)
  /\ (20 < length (pubx40_text name cycleSetting) <= 25 + length (bytes_of name))%nat.
Proof.
  intros Hname. unfold pubx40_text. split.
  - repeat (apply Forall_app; split); try done.
    + vm_compute. repeat (constructor; [split; discriminate|]). constructor.
    + vm_compute. repeat (constructor; [split; discriminate|]). constructor.
    + apply Forall_weaken_digits, dec_digits_digits. constructor.
    + vm_compute. repeat (constructor; [split; discriminate|]). constructor.
  - rewrite !length_app.
    pose proof (dec_digits_length 5 cycleSetting []) as Hd. fold (sprintf_d cycleSetting) in Hd.
    pose proof (sprintf_d_nonempty cycleSetting).
    simpl in *. lia.
Qed.

(** One row of the loop of [SetSentences]. *)
Lemma send_command_row cast size name cycleSetting :
  Forall (fun c => c <> 0 /\ c <> ch_star) (bytes_of name) ->
  Z.of_nat (length (bytes_of name)) + 30 <= size ->
  SetCheckSum cast (sprintf_pubx40 size name cycleSetting) size
  = (true, pubx40_command cast name cycleSetting
             ++ replicate (Z.to_nat size - length (pubx40_text name cycleSetting) - 5) 0)
  /\ cstr (pubx40_command cast name cycleSetting
             ++ replicate (Z.to_nat size - length (pubx40_text name cycleSetting) - 5) 0)
     = pubx40_command cast name cycleSetting
  /\ CheckSum cast (pubx40_command cast name cycleSetting ++ [0]) = true.
Proof.
  intros Hname Hsize.
  destruct (pubx40_text_ok name cycleSetting Hname) as [Hok Hlen].
  assert (Hnz : Forall (fun c => c <> 0) (pubx40_text name cycleSetting))
    by (eapply Forall_impl; [exact Hok|]; by intros c [? ?]).
  assert (Hns : ch_star ∉ pubx40_text name cycleSetting).
  { intros Hin. by destruct (proj1 (Forall_forall _ _) Hok _ Hin). }
  set (B := pubx40_text name cycleSetting) in *.
  set (n := (Z.to_nat size - length B)%nat).
  assert (Hn : (5 <= n)%nat) by (unfold n; lia).
  assert (Hbuf : sprintf_pubx40 size name cycleSetting = B ++ replicate n 0) by reflexivity.
  assert (Hsz : size = Z.of_nat (length B + n)) by (unfold n; lia).
  destruct (sprintf_02X_digits (xor_loop cast B 1 (Z.of_nat (length B)))) as [Hd0 Hd1].
  split; [|split].
  - rewrite Hbuf. rewrite Hsz at 1. rewrite SetCheckSum_framed by done.
    unfold pubx40_command. fold B. cbv zeta. rewrite <- app_assoc. reflexivity.
  - unfold pubx40_command. fold B. cbv zeta.
    rewrite <- app_assoc, cstr_app_nonzero by done.
    rewrite cstr_app_nonzero, cstr_zeros, app_nil_r; [done|].
    repeat constructor; unfold ch_star, ch_CR, ch_LF; first [lia|done].
  - unfold pubx40_command. fold B. cbv zeta. rewrite <- app_assoc.
    apply (CheckSum_framed cast B _ _ [0]); try done. lia.
Qed.

Lemma send_commands_rows cast size cycleSetting pList :
  Forall (fun name => Forall (fun c => c <> 0 /\ c <> ch_star) (bytes_of name)
                      /\ Z.of_nat (length (bytes_of name)) + 30 <= size) pList ->
  send_commands cast size pList (row_count pList) cycleSetting
  = flat_map (fun name => [Serial_chars (pubx40_command cast name cycleSetting);
                           gpsSerial_write (pubx40_command cast name cycleSetting)])
             pList.
Proof.
  intros Hall. unfold send_commands, row_count.
  rewrite Z.mul_comm, Z.div_mul, Nat2Z.id, firstn_all by lia.
  induction Hall as [|name pList [Hname Hsize] _ IH]; [reflexivity|].
  cbn [flat_map]. rewrite IH.
  destruct (send_command_row cast size name cycleSetting Hname Hsize) as (-> & -> & _).
  reflexivity.
Qed.

(** X8: every command [SetSentences] sends carries a checksum that
    [CheckSum] accepts.  In both sketches, for sentence names without NUL
    and asterisk, of at most ten characters, and a cycle setting from 0 to
    127, [SetSentences] prints its heading and then, for each name of the
    list in order, echoes to the console and writes to the receiver one
    and the same string: [$PUBX,40,<name>,0,<cycle>,0,0,0,0], the asterisk,
    the two checksum digits, carriage return and line feed.  No row is
    skipped, and each string passes the [CheckSum] of its sketch. *)
Theorem SetSentences_commands_checked pList cycleSetting :
  0 <= cycleSetting < 128 ->
  Forall (fun name => Forall (fun c => c <> 0 /\ c <> ch_star) (bytes_of name)
                      /\ (length (bytes_of name) <= 10)%nat) pList ->
  GPSTime.SetSentences pList (row_count pList) cycleSetting
  = Serial_print (if cycleSetting =? 0 then "BLOCKING:" else "THROTTLING:")
    :: flat_map (fun name => [Serial_chars (pubx40_command cast_byte name cycleSetting);
                              gpsSerial_write (pubx40_command cast_byte name cycleSetting)])
                pList
  /\ Part001.SetSentences pList (row_count pList) cycleSetting
     = Serial_print (if cycleSetting =? 0 then "BLOCKING:"
                     else if cycleSetting =? 1 then "DEFAULT RATE:" else "THROTTLING:")
       :: flat_map (fun name => [Serial_chars (pubx40_command cast_char name cycleSetting);
                                 gpsSerial_write (pubx40_command cast_char name cycleSetting)])
                   pList
  /\ Forall (fun name =>
               CheckSum cast_byte (pubx40_command cast_byte name cycleSetting ++ [0]) = true
               /\ CheckSum cast_char (pubx40_command cast_char name cycleSetting ++ [0]) = true)
            pList.
Proof.
  intros Hc Hall. split; [|split].
  - unfold GPSTime.SetSentences. rewrite send_commands_rows; [done|].
    eapply Forall_impl; [exact Hall|]. intros name [? ?]. split; [done|lia].
  - unfold Part001.SetSentences. rewrite send_commands_rows; [done|].
    eapply Forall_impl; [exact Hall|]. intros name [? ?]. split; [done|lia].
  - eapply Forall_impl; [exact Hall|]. intros name [Hname Hlen]. split.
    + apply (send_command_row cast_byte 40 name cycleSetting Hname). lia.
    + apply (send_command_row cast_char 50 name cycleSetting Hname). lia.
Qed.

Lemma SetSentences_commands_checked_witness :
  GPSTime.SetSentences throttleList (row_count throttleList) NMEA_CYCLE_REPORT
  = Serial_print (if NMEA_CYCLE_REPORT =? 0 then "BLOCKING:" else "THROTTLING:")
    :: flat_map (fun name => [Serial_chars (pubx40_command cast_byte name NMEA_CYCLE_REPORT);
                              gpsSerial_write (pubx40_command cast_byte name NMEA_CYCLE_REPORT)])
                throttleList
  /\ Part001.SetSentences throttleList (row_count throttleList) NMEA_CYCLE_REPORT
     = Serial_print (if NMEA_CYCLE_REPORT =? 0 then "BLOCKING:"
                     else if NMEA_CYCLE_REPORT =? 1 then "DEFAULT RATE:" else "THROTTLING:")
       :: flat_map (fun name => [Serial_chars (pubx40_command cast_char name NMEA_CYCLE_REPORT);
                                 gpsSerial_write (pubx40_command cast_char name NMEA_CYCLE_REPORT)])
                   throttleList
  /\ Forall (fun name =>
               CheckSum cast_byte (pubx40_command cast_byte name NMEA_CYCLE_REPORT ++ [0]) = true
               /\ CheckSum cast_char (pubx40_command cast_char name NMEA_CYCLE_REPORT ++ [0]) = true)
            throttleList.
Proof.
  apply (SetSentences_commands_checked throttleList NMEA_CYCLE_REPORT).
  - unfold NMEA_CYCLE_REPORT. lia.
  - repeat (constructor;
            [split; [vm_compute; repeat (constructor; [split; discriminate|]); constructor
                    |simpl; lia]|]).
    constructor.
Defined.

(** ** [Spam] *)

Lemma prefixb_spec needle : forall hay,
  prefixb needle hay = true <-> exists b, hay = needle ++ b.
Proof.
  induction needle as [|a needle IH]; intros hay; simpl.
  - split; [by exists hay|done].
  - destruct hay as [|c hay].
    + split; [discriminate|]. by intros [b Hb].
    + rewrite andb_true_iff, Z.eqb_eq, IH. split.
      * intros [-> [b ->]]. by exists b.
      * intros [b [= -> ->]]. split; [done|]. by exists b.
Qed.

(** [strstr] finds nothing exactly when the needle occurs nowhere. *)
Lemma strstr_from_None needle hay : forall i,
  strstr_from hay needle i = None
  <-> forall a b, hay <> a ++ needle ++ b.
Proof.
  induction hay as [|c hay IH]; intros i; simpl.
  - destruct (prefixb needle []) eqn:E.
    + apply prefixb_spec in E as [b Hb]. split; [discriminate|].
      intros H. destruct (H [] b). exact Hb.
    + split; [|done]. intros _ a b Hab.
      apply (f_equal length) in Hab as Hl. rewrite !length_app in Hl. simpl in Hl.
      destruct a; [|simpl in Hl; lia]. simpl in Hab.
      assert (prefixb needle [] = true) by (apply prefixb_spec; by exists b).
      congruence.
  - destruct (prefixb needle (c :: hay)) eqn:E.
    + apply prefixb_spec in E as [b Hb]. split; [discriminate|].
      intros H. destruct (H [] b). exact Hb.
    + rewrite IH. split.
      * intros H a b Hab. destruct a as [|x a].
        -- assert (prefixb needle (c :: hay) = true) by (apply prefixb_spec; by exists b).
           congruence.
        -- injection Hab as -> Hab. by apply (H a b).
      * intros H a b ->. by apply (H (c :: a) b).
Qed.

Lemma strstr_from_Some needle hay : forall i j,
  strstr_from hay needle i = Some j -> exists a b, hay = a ++ needle ++ b.
Proof.
  induction hay as [|c hay IH]; intros i j; simpl.
  - destruct (prefixb needle []) eqn:E; [|discriminate].
    apply prefixb_spec in E as [b Hb]. intros _. by exists [], b.
  - destruct (prefixb needle (c :: hay)) eqn:E.
    + apply prefixb_spec in E as [b Hb]. intros _. by exists [], b.
    + intros (a & b & ->)%IH. by exists (c :: a), b.
Qed.

Lemma first_found_spec p names :
  first_found p names = true
  <-> exists name a b, name ∈ names /\ cstr p = a ++ bytes_of name ++ b.
Proof.
  induction names as [|n names IH]; simpl.
  - split; [discriminate|]. intros (name & a & b & Hin & _). by apply elem_of_nil in Hin.
  - unfold strstr at 1.
    destruct (strstr_from (cstr p) (bytes_of n) 0) eqn:E.
    + split; [|done]. intros _.
      apply strstr_from_Some in E as (a & b & Hab).
      exists n, a, b. split; [apply list_elem_of_here|done].
    + rewrite IH. pose proof (proj1 (strstr_from_None _ _ 0) E) as E'. split.
      * intros (name & a & b & Hin & Hab). exists name, a, b.
        split; [by apply list_elem_of_further|done].
      * intros (name & a & b & Hin & Hab). apply elem_of_cons in Hin as [->|Hin].
        -- by destruct (E' a b).
        -- by exists name, a, b.
Qed.

(** X9: [Spam], in both sketches.  It returns false on every buffer, so the
    caller always goes on to [TimeSource].  It does nothing when none of
    the four names GSV, GGA, VTG, GLL occurs in the text of the buffer;
    when one occurs anywhere in it, the receiver is sent the six commands
    of [setup] again: the four names blocked, RMC and GSA at one report in
    ten cycles.  The two sketches produce the same events. *)
Theorem Spam_detection p :
  (GPSTime.Spam p).1 = false
  /\ (Part001.Spam p).1 = false
  /\ (Part001.Spam p).2 = (GPSTime.Spam p).2
  /\ (((forall name a b, name ∈ spamList -> cstr p <> a ++ bytes_of name ++ b)
       /\ (GPSTime.Spam p).2 = [])
      \/ ((exists name a b, name ∈ spamList /\ cstr p = a ++ bytes_of name ++ b)
          /\ sent_to_receiver (GPSTime.Spam p).2
             = map (fun s => bytes_of s ++ [ch_CR; ch_LF])
                   ["$PUBX,40,GSV,0,0,0,0,0,0*59"; "$PUBX,40,GGA,0,0,0,0,0,0*5A";
                    "$PUBX,40,VTG,0,0,0,0,0,0*5E"; "$PUBX,40,GLL,0,0,0,0,0,0*5C";
                    "$PUBX,40,RMC,0,10,0,0,0,0*76"; "$PUBX,40,GSA,0,10,0,0,0,0*7F"]%string)).
Proof.
  unfold GPSTime.Spam, Part001.Spam. cbn [fst snd].
  change (take (Z.to_nat (row_count spamList)) spamList) with spamList.
  split; [done|]. split; [done|].
  destruct (first_found p spamList) eqn:E.
  - split; [vm_compute; reflexivity|]. right. split.
    + by apply first_found_spec.
    + vm_compute. reflexivity.
  - split; [done|]. left. split; [|done].
    intros name a b Hin Hab.
    assert (first_found p spamList = true); [|congruence].
    apply first_found_spec. by exists name, a, b.
Qed.

(** ** GPSTime.ino: what a call of [SyncTimeToGPS] leaves behind *)

Lemma to_time_t_range z : 0 <= to_time_t z < 4294967296.
Proof. unfold to_time_t. apply Z.mod_pos_bound. lia. Qed.

Lemma to_time_t_small z : 0 <= z < 4294967296 -> to_time_t z = z.
Proof. intros H. unfold to_time_t. apply Z.mod_small. lia. Qed.

Lemma to_int_zero z : to_int z = 0 <-> z mod 65536 = 0.
Proof.
  unfold to_int. split; intros H.
  - assert (E : (z + 32768) mod 65536 = 32768) by lia.
    rewrite <- (Z.sub_add 32768 z), <- Z.add_sub_swap.
    rewrite Zminus_mod, E. reflexivity.
  - rewrite Zplus_mod, H. reflexivity.
Qed.

Lemma sync_due_after st dt :
  timeSet (GPSTime.clock st) = true ->
  now (GPSTime.clock st) = GPSTime.lastUpdateGPS st ->
  0 <= GPSTime.lastUpdateGPS st ->
  0 <= dt -> GPSTime.lastUpdateGPS st + dt < 4294967296 ->
  GPSTime.sync_due (GPSTime.set_clock st (elapse dt (GPSTime.clock st))) = (60 <? dt).
Proof.
  intros Hs Hn Hl Hdt Hmax. unfold GPSTime.sync_due, elapse, now in *.
  cbn [GPSTime.set_clock GPSTime.clock GPSTime.lastUpdateGPS timeSet sysTime].
  rewrite Hs, Hn. cbn [negb orb].
  rewrite (to_time_t_small (_ + dt)) by lia.
  replace (GPSTime.lastUpdateGPS st + dt - GPSTime.lastUpdateGPS st) with dt by lia.
  by rewrite to_time_t_small by lia.
Qed.

(** X10: what [SyncTimeToGPS] of GPSTime.ino leaves behind.  When it
    returns true the clock is set and [lastUpdateGPS] holds the positive
    epoch of the sentence; either the clock now shows that epoch, and the
    condition that lets the next RMC sentence through is false until more
    than 60 seconds have passed, or the clock was left alone because its
    difference to the epoch, narrowed to [int], was 0, and nothing was
    printed.  When it returns false it printed nothing and left the clock,
    the flag, the EEPROM and the frame alone; [lastUpdateGPS] is unchanged
    or has been overwritten with 0. *)
Theorem GPSTime_SyncTimeToGPS_outcome makeTime st p :
  let r := GPSTime.SyncTimeToGPS makeTime st p in
  let st' := r.1.2 in
  if r.1.1 then
    timeSet (GPSTime.clock st') = true
    /\ 0 < GPSTime.lastUpdateGPS st' < 4294967296
    /\ ((now (GPSTime.clock st') = GPSTime.lastUpdateGPS st'
         /\ forall dt, 0 <= dt -> GPSTime.lastUpdateGPS st' + dt < 4294967296 ->
              GPSTime.sync_due (GPSTime.set_clock st' (elapse dt (GPSTime.clock st')))
              = (60 <? dt))
        \/ (GPSTime.clock st' = GPSTime.clock st
            /\ now (GPSTime.clock st) <> GPSTime.lastUpdateGPS st'
            /\ (GPSTime.lastUpdateGPS st' - now (GPSTime.clock st)) mod 65536 = 0
            /\ r.2 = []))
  else
    r.2 = []
    /\ GPSTime.clock st' = GPSTime.clock st
    /\ GPSTime.gpsInternalClock st' = GPSTime.gpsInternalClock st
    /\ GPSTime.eeprom st' = GPSTime.eeprom st
    /\ GPSTime.frame st' = GPSTime.frame st
    /\ (GPSTime.lastUpdateGPS st' = GPSTime.lastUpdateGPS st
        \/ GPSTime.lastUpdateGPS st' = 0).
Proof.
  unfold GPSTime.SyncTimeToGPS.
  destruct (GPSTime.rmc_elements p) as [g|]; [|cbn; by repeat split; try left].
  pose proof (to_time_t_range (makeTime g)) as Ht.
  set (t := to_time_t (makeTime g)) in *.
  unfold GPSTime.apply_epoch. cbn [GPSTime.set_lastUpdateGPS GPSTime.lastUpdateGPS
    GPSTime.clock GPSTime.gpsInternalClock].
  destruct (Z.ltb_spec 0 t) as [Hpos|Hzero].
  - destruct (timeSet (GPSTime.clock st)) eqn:Eset; cbn [negb].
    + rewrite to_int_to_time_t.
      destruct (Z.eqb_spec (to_int (t - now (GPSTime.clock st))) 0) as [E0|E0];
        cbv zeta; cbn [fst snd].
      * split; [done|]. split; [cbn; lia|].
        destruct (Z.eq_dec (now (GPSTime.clock st)) t) as [Eq|Ne].
        -- left. split; [done|]. intros dt Hdt Hmax. apply sync_due_after; cbn; first [done|lia].
        -- right. repeat split; try done. by apply to_int_zero.
      * split; [done|]. split; [cbn; lia|]. left.
        assert (Hnow : now (setTime t (GPSTime.clock st)) = t)
          by (unfold now; cbn; apply to_time_t_small; lia).
        split; [exact Hnow|]. intros dt Hdt Hmax. apply sync_due_after; cbn; first [done|lia].
    + cbv zeta. cbn [fst snd]. split; [done|]. split; [cbn; lia|]. left.
      assert (Hnow : now (setTime t (GPSTime.clock st)) = t)
        by (unfold now; cbn; apply to_time_t_small; lia).
      split; [exact Hnow|]. intros dt Hdt Hmax. apply sync_due_after; cbn; first [done|lia].
  - cbn. repeat split; try done. right. lia.
Qed.

(** ** GPSTime.ino: the last 'C' of the buffer *)

Lemma last_index_from_bounds ch s : forall i found,
  found < i ->
  found <= last_index_from ch s i found < i + Z.of_nat (length s).
Proof.
  induction s as [|c s IH]; intros i found Hf; simpl; [lia|].
  destruct (c =? ch).
  - specialize (IH (i + 1) i). lia.
  - specialize (IH (i + 1) found). lia.
Qed.

Lemma last_index_from_ge ch s : forall i found (j : nat),
  found < i ->
  nth_error s j = Some ch ->
  i + Z.of_nat j <= last_index_from ch s i found.
Proof.
  induction s as [|c s IH]; intros i found j Hf Hj; [by destruct j|].
  simpl. destruct j as [|j]; simpl in Hj.
  - injection Hj as ->. rewrite Z.eqb_refl.
    pose proof (last_index_from_bounds ch s (i + 1) i). lia.
  - destruct (c =? ch).
    + specialize (IH (i + 1) i j ltac:(lia) Hj). lia.
    + specialize (IH (i + 1) found j ltac:(lia) Hj). lia.
Qed.

Lemma strlen_le l : strlen l <= Z.of_nat (length l).
Proof.
  unfold strlen. induction l as [|c l IH]; simpl; [lia|].
  destruct (c =? 0); simpl; lia.
Qed.

Lemma String_substring_from_length s left :
  0 <= left < Z.of_nat (length s) ->
  Z.of_nat (length s) < 65536 ->
  Z.of_nat (length (String_substring_from s left)) = Z.of_nat (length s) - left.
Proof.
  intros Hl Hs. unfold String_substring_from, String_substring.
  rewrite !to_uint_small by lia.
  destruct (Z.ltb_spec (Z.of_nat (length s)) left); [lia|].
  destruct (Z.leb_spec (Z.of_nat (length s)) left); [lia|].
  rewrite Z.ltb_irrefl, length_take, length_drop. lia.
Qed.

(** X11: [SyncTimeToGPS] of GPSTime.ino takes the sentence to start five
    characters before the last 'C' of the buffer ([lastIndexOf('$GPRMC')]
    looks for the last character of the constant).  A sentence whose
    checksum has the digit C therefore is not read: for every buffer that
    holds a text without NUL, the asterisk, two digits of which one is 'C',
    carriage return and line feed, the call returns false, prints nothing
    and leaves the state as it is. *)
Theorem GPSTime_sync_ignores_checksum_C makeTime st body h l rest :
  Forall (fun c => c <> 0) body ->
  h <> 0 -> l <> 0 ->
  h = 67 \/ l = 67 ->
  Z.of_nat (length body) + 5 < 32768 ->
  GPSTime.SyncTimeToGPS makeTime st (body ++ [ch_star; h; l; ch_CR; ch_LF] ++ 0 :: rest)
  = (false, st, []).
Proof.
  intros Hbody Hh Hl HC Hlen.
  set (p := body ++ [ch_star; h; l; ch_CR; ch_LF] ++ 0 :: rest).
  set (s := body ++ [ch_star; h; l; ch_CR; ch_LF]).
  assert (Hs : cstr p = s).
  { unfold p, s. rewrite cstr_app_nonzero by done.
    rewrite (cstr_app_nonzero [ch_star; h; l; ch_CR; ch_LF] (0 :: rest)).
    - reflexivity.
    - repeat constructor; unfold ch_star, ch_CR, ch_LF; first [lia|done]. }
  assert (Hslen : Z.of_nat (length s) = Z.of_nat (length body) + 5)
    by (unfold s; rewrite length_app; simpl; lia).
  assert (Hlast : Z.of_nat (length s) - 4 <= String_lastIndexOf s 67 < Z.of_nat (length s)).
  { unfold String_lastIndexOf. split.
    - destruct HC as [->| ->].
      + pose proof (last_index_from_ge 67 s 0 (-1) (length body + 1)) as H.
        unfold s in H at 1. rewrite nth_error_app2 in H by lia.
        replace (length body + 1 - length body)%nat with 1%nat in H by lia.
        specialize (H ltac:(lia) eq_refl). lia.
      + pose proof (last_index_from_ge 67 s 0 (-1) (length body + 2)) as H.
        unfold s in H at 1. rewrite nth_error_app2 in H by lia.
        replace (length body + 2 - length body)%nat with 2%nat in H by lia.
        specialize (H ltac:(lia) eq_refl). lia.
    - pose proof (last_index_from_bounds 67 s 0 (-1)). lia. }
  unfold GPSTime.SyncTimeToGPS.
  assert (E : GPSTime.rmc_elements p = None); [|by rewrite E].
  unfold GPSTime.rmc_elements.
  destruct (strstr p "$GPRMC"); [|done].
  rewrite Hs. change (multichar "$GPRMC") with 67.
  destruct (Z.leb_spec 5 (String_lastIndexOf s 67)); [|done].
  assert (Hsub : Z.of_nat (length (String_substring_from s (String_lastIndexOf s 67 - 5))) <= 9).
  { rewrite String_substring_from_length by lia. lia. }
  assert (Hcs : CheckSum cast_byte
                  (String_substring_from s (String_lastIndexOf s 67 - 5) ++ [0]) = false).
  { unfold CheckSum.
    pose proof (strlen_le (String_substring_from s (String_lastIndexOf s 67 - 5) ++ [0])) as Hle.
    assert (strlen (String_substring_from s (String_lastIndexOf s 67 - 5) ++ [0]) <= 10).
    { unfold strlen.
      assert (Hc : forall a b : list Z, (length (cstr (a ++ b)) <= length a + length (cstr b))%nat).
      { induction a as [|x a IH]; intros b; simpl; [lia|].
        destruct (x =? 0); simpl; [lia|]. specialize (IH b). lia. }
      specialize (Hc (String_substring_from s (String_lastIndexOf s 67 - 5)) [0]).
      simpl in Hc. lia. }
    destruct (Z.ltb_spec 10 (strlen (String_substring_from s (String_lastIndexOf s 67 - 5) ++ [0])));
      [lia|done]. }
  by rewrite Hcs.
Qed.

Lemma GPSTime_sync_ignores_checksum_C_witness :
  CheckSum cast_byte
    (bytes_of "$GPRMC,113938.00,V,,,,,,,160722,,,N" ++ [ch_star; 55; 67; ch_CR; ch_LF] ++ [0])
  = true
  /\ GPSTime.SyncTimeToGPS makeTime_TimeLib
       (GPSTime.boot {| ee_configured := true; ee_lastGPSFix := 0; ee_gpsFixType := 0 |})
       (bytes_of "$GPRMC,113938.00,V,,,,,,,160722,,,N" ++ [ch_star; 55; 67; ch_CR; ch_LF]
        ++ 0 :: replicate 160 0)
     = (false,
        GPSTime.boot {| ee_configured := true; ee_lastGPSFix := 0; ee_gpsFixType := 0 |},
        []).
Proof.
  split; [vm_compute; reflexivity|].
  apply (GPSTime_sync_ignores_checksum_C makeTime_TimeLib
           (GPSTime.boot {| ee_configured := true; ee_lastGPSFix := 0; ee_gpsFixType := 0 |})
           (bytes_of "$GPRMC,113938.00,V,,,,,,,160722,,,N") 55 67 (replicate 160 0)).
  - vm_compute. repeat (constructor; [discriminate|]). constructor.
  - discriminate.
  - discriminate.
  - by right.
  - simpl. lia.
Defined.

(** ** part_001: the fields [SyncTimeToGPS] reads *)

Lemma digit_cases a :
  48 <= a <= 57 ->
  a = 48 \/ a = 49 \/ a = 50 \/ a = 51 \/ a = 52 \/ a = 53 \/ a = 54 \/ a = 55
  \/ a = 56 \/ a = 57.
Proof. lia. Qed.

Lemma atoi2_digits a b :
  48 <= a <= 57 -> 48 <= b <= 57 -> Part001.atoi2 a b = two_digits a b.
Proof.
  intros Ha%digit_cases Hb%digit_cases.
  repeat (destruct Ha as [->|Ha]); try subst a;
    repeat (destruct Hb as [->|Hb]); try subst b; reflexivity.
Qed.

Lemma two_digits_range a b :
  48 <= a <= 57 -> 48 <= b <= 57 -> 0 <= two_digits a b <= 99.
Proof. unfold two_digits. lia. Qed.

Lemma to_uint8_small z : 0 <= z < 256 -> to_uint8 z = z.
Proof. intros H. unfold to_uint8. apply Z.mod_small. lia. Qed.

(** The comma-counting loop over a stretch that holds all but the last of
    the commas still to be counted, followed by a comma. *)
Lemma count_commas_seg g seg : forall a c m stop,
  (forall j : nat, (j < length seg)%nat -> g (a + Z.of_nat j) = nth j seg 0) ->
  g (a + Z.of_nat (length seg)) = ch_comma ->
  0 <= c ->
  c + Z.of_nat (commas seg) + 1 = 8 ->
  0 <= m ->
  Part001.count_commas g (seqZ a (Z.of_nat (length seg) + 1 + m)) stop c
  = (a + Z.of_nat (length seg), 8).
Proof.
  induction seg as [|x seg IH]; intros a c m stop Hseg Hend Hc Hcount Hm.
  - simpl in *. rewrite seqZ_cons by lia. cbn [Part001.count_commas].
    rewrite Z.add_0_r in Hend. rewrite Hend, Z.eqb_refl.
    unfold commas in Hcount. simpl in Hcount.
    replace (c + 1 =? 8) with true by (symmetry; apply Z.eqb_eq; lia).
    f_equal; lia.
  - cbn [length]. rewrite seqZ_cons by lia. cbn [Part001.count_commas].
    pose proof (Hseg 0%nat ltac:(simpl; lia)) as H0. simpl in H0.
    rewrite Z.add_0_r in H0. rewrite H0.
    replace (Z.pred (Z.of_nat (S (length seg)) + 1 + m))
      with (Z.of_nat (length seg) + 1 + m) by lia.
    assert (Hrest : forall j : nat, (j < length seg)%nat ->
                      g (Z.succ a + Z.of_nat j) = nth j seg 0).
    { intros j Hj. specialize (Hseg (S j) ltac:(simpl; lia)). simpl in Hseg.
      rewrite <- Hseg. f_equal. lia. }
    assert (Hend' : g (Z.succ a + Z.of_nat (length seg)) = ch_comma).
    { rewrite <- Hend. f_equal. simpl length. lia. }
    unfold commas in Hcount. simpl in Hcount.
    destruct (Z.eq_dec x ch_comma) as [->|Hx].
    + rewrite Z.eqb_refl. simpl in Hcount.
      destruct (Z.eqb_spec (c + 1) 8) as [E|E]; [lia|].
      rewrite (IH (Z.succ a) (c + 1) m stop); [f_equal; simpl length; lia|done|done|lia| |done].
      unfold commas. lia.
    + destruct (Z.eqb_spec x ch_comma) as [|_]; [done|].
      destruct (Z.eq_dec x ch_comma) as [|_]; [done|].
      destruct (Z.eqb_spec c 8) as [E|E]; [lia|].
      rewrite (IH (Z.succ a) c m stop); [f_equal; simpl length; lia|done|done|lia| |done].
      unfold commas. lia.
Qed.

Lemma prefixb_app needle rest : prefixb needle (needle ++ rest) = true.
Proof. apply prefixb_spec. by exists rest. Qed.

Lemma strstr_from_prefix needle rest i :
  strstr_from (needle ++ rest) needle i = Some i.
Proof.
  destruct needle as [|a needle]; destruct rest as [|r rest]; simpl;
    rewrite ?Z.eqb_refl, ?prefixb_app; try reflexivity.
  all: try (rewrite app_nil_r; by rewrite (proj2 (prefixb_spec needle needle) (ex_intro _ [] (eq_sym (app_nil_r _))))).
Qed.

(** X12: the fields [SyncTimeToGPS] of part_001 reads.  For a buffer that
    begins with [$GPRMC,], six digits of time, a rest of the time field
    without comma, a comma, seven more fields (a text with exactly six
    commas), a comma and six digits of date, the call takes the hour, the
    minute and the second from the first three pairs of digits of the time
    and the day, the month and the year from the three pairs of the date,
    the year counted from 1970; with a month and a day above 0 and a year
    of the century above 00 it hands these to [makeTime] and applies a
    positive result as the time/date event; otherwise it reports a failed
    [makeTime] and returns false. *)
Theorem Part001_SyncTimeToGPS_reads_fields makeTime st
    h1 h2 m1 m2 s1 s2 frac mid d1 d2 mo1 mo2 y1 y2 rest junk :
  Forall (fun c => 48 <= c <= 57) [h1; h2; m1; m2; s1; s2; d1; d2; mo1; mo2; y1; y2] ->
  Forall (fun c => c <> 0) (frac ++ mid ++ rest) ->
  commas frac = 0%nat ->
  commas mid = 6%nat ->
  let pResponse :=
    bytes_of "$GPRMC," ++ [h1; h2; m1; m2; s1; s2] ++ frac ++ [ch_comma] ++ mid
    ++ [ch_comma] ++ [d1; d2; mo1; mo2; y1; y2] ++ rest ++ 0 :: junk in
  let gpsElements :=
    {| Second := two_digits s1 s2; Minute := two_digits m1 m2; Hour := two_digits h1 h2;
       Wday := 0;
       Day := two_digits d1 d2; Month := two_digits mo1 mo2;
       Year := two_digits y1 y2 + 30 |} in
  Part001.SyncTimeToGPS makeTime st pResponse
  = if (0 <? two_digits mo1 mo2) && (0 <? two_digits d1 d2) && (0 <? two_digits y1 y2) then
      let tempTime := to_time_t (makeTime gpsElements) in
      if 0 <? tempTime
      then (true, (Part001.apply_epoch st tempTime).1, (Part001.apply_epoch st tempTime).2)
      else (true, st, [])
    else (false, st, [Serial_print "SyncTimeToGPS:  makeTime failed"]).
Proof.
  intros Hdig Hnz Hfrac Hmid pResponse gpsElements.
  repeat (apply Forall_cons in Hdig as [? Hdig]).
  apply Forall_app in Hnz as [Hnzf Hnz]. apply Forall_app in Hnz as [Hnzm Hnzr].
  set (seg := [h1; h2; m1; m2; s1; s2] ++ frac ++ [ch_comma] ++ mid).
  set (tl := [d1; d2; mo1; mo2; y1; y2] ++ rest ++ 0 :: junk).
  assert (Hp : pResponse = bytes_of "$GPRMC," ++ seg ++ [ch_comma] ++ tl).
  { unfold pResponse, seg, tl. by rewrite <- !app_assoc. }
  assert (Hseg_nz : Forall (fun c => c <> 0) seg).
  { unfold seg. repeat (apply Forall_app; split); try done.
    - repeat constructor; lia.
    - repeat constructor. unfold ch_comma. lia. }
  assert (Hcstr : cstr pResponse
                  = bytes_of "$GPRMC," ++ seg ++ [ch_comma] ++ [d1; d2; mo1; mo2; y1; y2] ++ rest).
  { rewrite Hp. unfold tl.
    rewrite (cstr_app_nonzero (bytes_of "$GPRMC,")) by (vm_compute; repeat constructor; discriminate).
    rewrite (cstr_app_nonzero seg) by done.
    rewrite (cstr_app_nonzero [ch_comma]) by (repeat constructor; unfold ch_comma; lia).
    rewrite (cstr_app_nonzero [d1; d2; mo1; mo2; y1; y2]) by (repeat constructor; lia).
    rewrite (cstr_app_nonzero rest) by done.
    simpl cstr. by rewrite app_nil_r. }
  assert (Hlen : strlen pResponse = 7 + Z.of_nat (length seg) + 1 + 6 + Z.of_nat (length rest)).
  { unfold strlen. rewrite Hcstr, !length_app. simpl. lia. }
  assert (Hstr : strstr pResponse "$GPRMC," = Some 0).
  { unfold strstr. rewrite Hcstr. apply strstr_from_prefix. }
  unfold Part001.SyncTimeToGPS. rewrite Hstr.
  cbv zeta. change (drop (Z.to_nat 0) pResponse) with pResponse. rewrite Hlen.
  (* the first comma *)
  assert (Hat : forall j : nat, char_at pResponse (7 + Z.of_nat j) = nth j (seg ++ [ch_comma] ++ tl) 0).
  { intros j. rewrite Hp.
    replace (7 + Z.of_nat j) with (Z.of_nat (length (bytes_of "$GPRMC,") + j)) by (simpl; lia).
    apply char_at_app_r. }
  assert (Hfirst : Part001.first_comma (fun i => char_at pResponse (0 + i)) (seqZ 0 9) 9 = 6).
  { rewrite Hp. reflexivity. }
  rewrite Hfirst. change (6 + 1 =? 7) with true. cbv iota.
  change (6 + 1) with 7.
  (* the eight commas *)
  assert (Hcount : Part001.count_commas (fun i => char_at pResponse (0 + i))
                     (seqZ 7 (7 + Z.of_nat (length seg) + 1 + 6 + Z.of_nat (length rest) - 7))
                     (Z.max 7 (7 + Z.of_nat (length seg) + 1 + 6 + Z.of_nat (length rest))) 0
                   = (7 + Z.of_nat (length seg), 8)).
  { replace (7 + Z.of_nat (length seg) + 1 + 6 + Z.of_nat (length rest) - 7)
      with (Z.of_nat (length seg) + 1 + (6 + Z.of_nat (length rest))) by lia.
    apply count_commas_seg.
    - intros j Hj. rewrite Z.add_0_l, Hat. by apply app_nth1.
    - rewrite Z.add_0_l, Hat, app_nth2 by lia. by rewrite Nat.sub_diag.
    - lia.
    - unfold seg, commas in *. rewrite !count_occ_app, Hfrac, Hmid. simpl count_occ.
      repeat (destruct (Z.eq_dec _ ch_comma) as [E|_];
              [unfold ch_comma in E; lia|]).
      destruct (Z.eq_dec ch_comma ch_comma); [|done]. simpl. lia.
    - lia. }
  rewrite Hcount. change (8 =? 8) with true. cbv iota.
  (* the characters read *)
  assert (Htime : forall j : nat, (j < 6)%nat ->
            char_at pResponse (0 + (7 + Z.of_nat j)) = nth j [h1; h2; m1; m2; s1; s2] 0).
  { intros j Hj. rewrite Z.add_0_l, Hat. unfold seg. rewrite <- !app_assoc.
    by rewrite app_nth1 by (simpl; lia). }
  assert (Hdate : forall j : nat, (j < 6)%nat ->
            char_at pResponse (0 + (7 + Z.of_nat (length seg) + 1 + Z.of_nat j))
            = nth j [d1; d2; mo1; mo2; y1; y2] 0).
  { intros j Hj.
    replace (0 + (7 + Z.of_nat (length seg) + 1 + Z.of_nat j))
      with (7 + Z.of_nat (length seg + 1 + j)) by lia.
    rewrite Hat, app_nth2 by lia.
    replace (length seg + 1 + j - length seg)%nat with (S j) by lia.
    change (nth (S j) ([ch_comma] ++ tl) 0) with (nth j tl 0).
    unfold tl. by rewrite app_nth1 by (simpl; lia). }
  assert (T0 : char_at pResponse (0 + 7) = h1) by exact (Htime 0%nat ltac:(lia)).
  assert (T1 : char_at pResponse (0 + (7 + 1)) = h2) by exact (Htime 1%nat ltac:(lia)).
  assert (T2 : char_at pResponse (0 + (7 + 2)) = m1) by exact (Htime 2%nat ltac:(lia)).
  assert (T3 : char_at pResponse (0 + (7 + 3)) = m2) by exact (Htime 3%nat ltac:(lia)).
  assert (T4 : char_at pResponse (0 + (7 + 4)) = s1) by exact (Htime 4%nat ltac:(lia)).
  assert (T5 : char_at pResponse (0 + (7 + 5)) = s2) by exact (Htime 5%nat ltac:(lia)).
  assert (D0 : char_at pResponse (0 + (7 + Z.of_nat (length seg) + 1)) = d1).
  { etrans; [|exact (Hdate 0%nat ltac:(lia))]. f_equal; simpl Z.of_nat; lia. }
  assert (D1 : char_at pResponse (0 + (7 + Z.of_nat (length seg) + 1 + 1)) = d2)
    by exact (Hdate 1%nat ltac:(lia)).
  assert (D2 : char_at pResponse (0 + (7 + Z.of_nat (length seg) + 1 + 2)) = mo1)
    by exact (Hdate 2%nat ltac:(lia)).
  assert (D3 : char_at pResponse (0 + (7 + Z.of_nat (length seg) + 1 + 3)) = mo2)
    by exact (Hdate 3%nat ltac:(lia)).
  assert (D4 : char_at pResponse (0 + (7 + Z.of_nat (length seg) + 1 + 4)) = y1)
    by exact (Hdate 4%nat ltac:(lia)).
  assert (D5 : char_at pResponse (0 + (7 + Z.of_nat (length seg) + 1 + 5)) = y2)
    by exact (Hdate 5%nat ltac:(lia)).
  rewrite T0, T1, T2, T3, T4, T5, D0, D1, D2, D3, D4, D5.
  rewrite !atoi2_digits by done.
  pose proof (two_digits_range h1 h2). pose proof (two_digits_range m1 m2).
  pose proof (two_digits_range s1 s2). pose proof (two_digits_range d1 d2).
  pose proof (two_digits_range mo1 mo2). pose proof (two_digits_range y1 y2).
  rewrite !to_uint8_small by lia.
  cbn [Month Day Year].
  replace (30 <? two_digits y1 y2 + 30) with (0 <? two_digits y1 y2)
    by (destruct (Z.ltb_spec 0 (two_digits y1 y2)), (Z.ltb_spec 30 (two_digits y1 y2 + 30)); lia).
  destruct (_ && _); [|done].
  fold gpsElements.
  destruct (0 <? to_time_t (makeTime gpsElements)); [|done].
  by destruct (Part001.apply_epoch st (to_time_t (makeTime gpsElements))).
Qed.

Lemma Part001_SyncTimeToGPS_reads_fields_witness :
  let st := Part001.set_gpsStatus
              (Part001.boot {| ee_configured := true; ee_lastGPSFix := 0; ee_gpsFixType := 0 |}) 4 in
  let pResponse :=
    bytes_of "$GPRMC," ++ bytes_of "153938" ++ bytes_of ".00" ++ [ch_comma]
    ++ bytes_of "V,,,,,," ++ [ch_comma] ++ bytes_of "160722"
    ++ (bytes_of ",,,N*78" ++ [ch_CR; ch_LF]) ++ 0 :: replicate 59 0 in
  let gpsElements :=
    {| Second := two_digits 51 56; Minute := two_digits 51 57; Hour := two_digits 49 53;
       Wday := 0;
       Day := two_digits 49 54; Month := two_digits 48 55;
       Year := two_digits 50 50 + 30 |} in
  Part001.SyncTimeToGPS makeTime_TimeLib st pResponse
  = if (0 <? two_digits 48 55) && (0 <? two_digits 49 54) && (0 <? two_digits 50 50) then
      let tempTime := to_time_t (makeTime_TimeLib gpsElements) in
      if 0 <? tempTime
      then (true, (Part001.apply_epoch st tempTime).1, (Part001.apply_epoch st tempTime).2)
      else (true, st, [])
    else (false, st, [Serial_print "SyncTimeToGPS:  makeTime failed"]).
Proof.
  apply (Part001_SyncTimeToGPS_reads_fields makeTime_TimeLib
           (Part001.set_gpsStatus
              (Part001.boot {| ee_configured := true; ee_lastGPSFix := 0; ee_gpsFixType := 0 |}) 4)
           49 53 51 57 51 56 (bytes_of ".00") (bytes_of "V,,,,,,")
           49 54 48 55 50 50 (bytes_of ",,,N*78" ++ [ch_CR; ch_LF]) (replicate 59 0)).
  - repeat constructor; lia.
  - vm_compute. repeat (constructor; [discriminate|]). constructor.
  - reflexivity.
  - reflexivity.
Defined.

(** The sample sentence of the source comments, read by part_001 while a 2D
    fix is flagged: 16 July 2022, 15:39:38. *)
Example Part001_reads_sample :
  let st := Part001.set_gpsStatus
              (Part001.boot {| ee_configured := true; ee_lastGPSFix := 0; ee_gpsFixType := 0 |}) 4 in
  let r := Part001.SyncTimeToGPS makeTime_TimeLib st
             (bytes_of "$GPRMC,153938.00,V,,,,,,,160722,,,N*78" ++ [ch_CR; ch_LF]
              ++ replicate 60 0) in
  r.1.1 = true /\ Part001.clock r.1.2 = {| timeSet := true; sysTime := 1657985978 |}.
Proof. vm_compute. split; reflexivity. Qed.

(** ** part_001: the passes of [loop] *)













(** ** The record of the last fix, across a power cycle *)

Lemma to_int_wrapped z : 32768 <= z < 65536 -> to_int z = z - 65536.
Proof.
  intros H. unfold to_int.
  replace (z + 32768) with (z - 32768 + 1 * 65536) by lia.
  rewrite Z.mod_add, Z.mod_small by lia. lia.
Qed.

(** X14: GPSTime.ino, the age of the last fix across a power cycle.  A
    fix-quality event '2' or '3' with the clock set stores [now()] and the
    character; after a restart on that EEPROM [setup] leaves the record
    alone and the sketch runs on the battery-backed clock; once the clock is
    set, the first report of [loop], taken [d] seconds after the stored
    time, prints the time and, when [d] is at least 11 minutes and below
    32768 minutes, the line with [d / 60] minutes and the stored
    character.  From 32768 minutes on the [int] that receives the minutes is
    negative and the line is not printed; this holds up to 65536 minutes. *)
Theorem GPSTime_fix_age_after_restart st c now' :
  c = 50 \/ c = 51 ->
  timeSet (GPSTime.clock st) = true ->
  ee_configured (GPSTime.eeprom st) = true ->
  0 < now (GPSTime.clock st) ->
  5 <= now' < 4294967296 ->
  0 <= now' - now (GPSTime.clock st) < 3932160 ->
  let d := now' - now (GPSTime.clock st) in
  let e := GPSTime.eeprom (GPSTime.apply_fix st c).1 in
  let g := GPSTimeSketch.start e in
  GPSTime.eeprom (GPSTimeSketch.gps g) = e
  /\ GPSTime.gpsInternalClock (GPSTimeSketch.gps g) = true
  /\ (GPSTimeSketch.report_cycle
        {| GPSTimeSketch.gps :=
             GPSTime.set_clock (GPSTimeSketch.gps g) {| timeSet := true; sysTime := now' |};
           GPSTimeSketch.lastCycleDevices := GPSTimeSketch.lastCycleDevices g |}).2
     = GPSTimeSketch.Time_line now'
       :: (if (660 <=? d) && (d <? 1966080)
           then [GPSTimeSketch.Since_line (d / 60) c] else []).
Proof.
  intros Hc Hset Hconf Hnow Hnow' Hd d e g.
  pose proof (GPSTime_apply_fix_eeprom st c) as He. cbv zeta in He.
  replace (((c =? 50) || (c =? 51)) && timeSet (GPSTime.clock st)) with true in He
    by (rewrite Hset; destruct Hc as [-> | ->]; reflexivity).
  destruct He as [_ He]. fold e in He.
  assert (Hg : GPSTimeSketch.gps g = GPSTime.boot e).
  { unfold g, GPSTimeSketch.start, GPSTime.setup.
    cbn [GPSTime.boot GPSTime.eeprom]. rewrite He. cbn [ee_configured]. by rewrite Hconf. }
  rewrite Hg. split; [done|]. split; [done|].
  unfold GPSTimeSketch.report_cycle.
  cbn [GPSTimeSketch.gps GPSTimeSketch.lastCycleDevices GPSTime.set_clock GPSTime.clock
       GPSTime.gpsInternalClock GPSTime.boot GPSTime.eeprom timeSet now sysTime
       GPSTimeSketch.start g].
  rewrite Z.sub_0_r, (to_time_t_small now') by lia.
  destruct (Z.leb_spec 5 now'); [|lia].
  rewrite He. cbn [ee_lastGPSFix ee_gpsFixType fst snd].
  unfold now in *.
  rewrite (to_time_t_small (sysTime (GPSTime.clock st))) by lia.
  destruct (Z.ltb_spec 0 (sysTime (GPSTime.clock st))); [|lia].
  fold d. rewrite (to_time_t_small d) by (unfold d; lia).
  rewrite (to_uint8_small c) by (destruct Hc; lia).
  f_equal.
  assert (Hq : 0 <= d / 60 < 65536).
  { split; [apply Z.div_pos; lia|]. apply Z.div_lt_upper_bound; lia. }
  destruct (Z.leb_spec 660 d) as [H660|H660]; cbn [andb].
  - destruct (Z.ltb_spec d 1966080) as [Hlo|Hhi].
    + assert (d / 60 < 32768) by (apply Z.div_lt_upper_bound; lia).
      assert (11 <= d / 60) by (apply Z.div_le_lower_bound; lia).
      rewrite to_int_small by lia.
      destruct (Z.ltb_spec 10 (d / 60)); [done|lia].
    + assert (32768 <= d / 60) by (apply Z.div_le_lower_bound; lia).
      rewrite to_int_wrapped by lia.
      destruct (Z.ltb_spec 10 (d / 60 - 65536)); [lia|done].
  - assert (d / 60 < 11) by (apply Z.div_lt_upper_bound; lia).
    rewrite to_int_small by lia.
    destruct (Z.ltb_spec 10 (d / 60)); [lia|done].
Qed.

Lemma GPSTime_fix_age_after_restart_witness :
  let st := GPSTime.set_clock
              (GPSTime.boot {| ee_configured := true; ee_lastGPSFix := 0; ee_gpsFixType := 0 |})
              {| timeSet := true; sysTime := 1657985978 |} in
  let d := 1657989578 - now (GPSTime.clock st) in
  let e := GPSTime.eeprom (GPSTime.apply_fix st 51).1 in
  let g := GPSTimeSketch.start e in
  GPSTime.eeprom (GPSTimeSketch.gps g) = e
  /\ GPSTime.gpsInternalClock (GPSTimeSketch.gps g) = true
  /\ (GPSTimeSketch.report_cycle
        {| GPSTimeSketch.gps :=
             GPSTime.set_clock (GPSTimeSketch.gps g)
               {| timeSet := true; sysTime := 1657989578 |};
           GPSTimeSketch.lastCycleDevices := GPSTimeSketch.lastCycleDevices g |}).2
     = GPSTimeSketch.Time_line 1657989578
       :: (if (660 <=? d) && (d <? 1966080)
           then [GPSTimeSketch.Since_line (d / 60) 51] else []).
Proof.
  apply (GPSTime_fix_age_after_restart
           (GPSTime.set_clock
              (GPSTime.boot {| ee_configured := true; ee_lastGPSFix := 0; ee_gpsFixType := 0 |})
              {| timeSet := true; sysTime := 1657985978 |}) 51 1657989578).
  - by right.
  - reflexivity.
  - reflexivity.
  - unfold now. simpl. lia.
  - lia.
  - unfold now. simpl. lia.
Defined.

(** X15: part_001, the time of the last fix across a power cycle.  A
    time/date event under a 2D or 3D fix stores its epoch; after a restart
    on that EEPROM [setup] reads it back into [_gpsTime] and writes
    nothing.  When the receiver then reports no fix ('1') and an RMC
    sentence sets the clock from the battery-backed time [t'], the stored
    epoch and the EEPROM are kept and [DisplayTime] shows the minutes
    between the two, as an [unsigned int], with fix type 'B' followed by a
    blank. *)
Theorem Part001_fix_time_after_restart st t t' :
  Part001.fix2 st || Part001.fix3 st = true ->
  ee_configured (Part001.eeprom st) = true ->
  0 <= t' < 4294967296 ->
  let e := Part001.eeprom (Part001.apply_epoch st t).1 in
  let g := (Part001.setup (Part001.boot e)).1 in
  let g2 := (Part001.apply_epoch (Part001.apply_fix g 49).1 t').1 in
  ee_lastGPSFix e = t
  /\ Part001.setup (Part001.boot e) = (g, [])
  /\ Part001._gpsTime g = t
  /\ Part001.eeprom g2 = e
  /\ Part001._gpsTime g2 = t
  /\ Part001.clock g2 = {| timeSet := true; sysTime := t' |}
  /\ Part001Sketch.DisplayTime g2 (now (Part001.clock g2))
     = Part001Sketch.GMT_line t' (to_uint (to_time_t (t' - t) / 60)) (Some 66) 32.
Proof.
  intros Hfix Hconf Ht' e g g2.
  pose proof (Part001_apply_epoch_eeprom st t) as He. cbv zeta in He.
  rewrite Hfix in He. destruct He as [_ He]. fold e in He.
  assert (He1 : ee_lastGPSFix e = t) by (by rewrite He).
  assert (Hsetup : Part001.setup (Part001.boot e) = (Part001.set_gpsTime (Part001.boot e) t, [])).
  { unfold Part001.setup. cbn [Part001.boot Part001.eeprom]. rewrite He. cbn [ee_configured].
    rewrite Hconf. reflexivity. }
  assert (Hg : g = Part001.set_gpsTime (Part001.boot e) t) by (unfold g; by rewrite Hsetup).
  split; [done|]. split; [by rewrite Hsetup, Hg|]. split; [by rewrite Hg|].
  assert (Hfix1 : (Part001.apply_fix g 49).1 = Part001.set_gpsStatus g 2).
  { rewrite Hg. unfold Part001.apply_fix.
    cbn [Part001.set_gpsTime Part001._gpsStatus Part001.boot].
    change (49 =? 49) with true. cbv iota. cbn [fst]. f_equal. }
  assert (Hg2 : g2 = Part001.set_clock (Part001.set_gpsStatus g 3)
                       {| timeSet := true; sysTime := t' |}).
  { unfold g2. rewrite Hfix1, Hg. unfold Part001.apply_epoch.
    cbn [Part001.set_gpsTime Part001.set_gpsStatus Part001._gpsStatus Part001.boot
         Part001.clock timeSet].
    change (Part001.bitSet 2 0) with 3.
    change (Part001.bitRead 3 1) with true.
    change (Part001.bitRead 3 2) with false.
    change (Part001.bitRead 3 3) with false.
    cbn [orb negb fst snd Part001.source_label Part001.set_clock Part001.clock
         Part001._gpsStatus Part001._gpsTime Part001.eeprom Part001.frame].
    unfold setTime. by rewrite to_time_t_small by lia. }
  rewrite Hg2, Hg. cbn [Part001.set_clock Part001.set_gpsStatus Part001.set_gpsTime
                        Part001.eeprom Part001._gpsTime Part001.clock Part001.boot].
  repeat (split; [done|]).
  unfold Part001Sketch.DisplayTime, now.
  cbn [Part001._gpsStatus Part001._gpsTime Part001.clock sysTime].
  change (Part001Sketch.bit_of 3 0) with true.
  change (Part001Sketch.bit_of 3 1) with true.
  reflexivity.
Qed.

Lemma Part001_fix_time_after_restart_witness :
  let st := Part001.set_gpsStatus
              (Part001.boot {| ee_configured := true; ee_lastGPSFix := 0; ee_gpsFixType := 0 |})
              4 in
  let e := Part001.eeprom (Part001.apply_epoch st 1657985978).1 in
  let g := (Part001.setup (Part001.boot e)).1 in
  let g2 := (Part001.apply_epoch (Part001.apply_fix g 49).1 1657989578).1 in
  ee_lastGPSFix e = 1657985978
  /\ Part001.setup (Part001.boot e) = (g, [])
  /\ Part001._gpsTime g = 1657985978
  /\ Part001.eeprom g2 = e
  /\ Part001._gpsTime g2 = 1657985978
  /\ Part001.clock g2 = {| timeSet := true; sysTime := 1657989578 |}
  /\ Part001Sketch.DisplayTime g2 (now (Part001.clock g2))
     = Part001Sketch.GMT_line 1657989578
         (to_uint (to_time_t (1657989578 - 1657985978) / 60)) (Some 66) 32.
Proof.
  apply (Part001_fix_time_after_restart
           (Part001.set_gpsStatus
              (Part001.boot {| ee_configured := true; ee_lastGPSFix := 0; ee_gpsFixType := 0 |})
              4) 1657985978 1657989578).
  - reflexivity.
  - reflexivity.
  - lia.
Defined.

(** ** part_001: [LocalTime] *)

(** X16: [LocalTime] of part_001.  It subtracts a whole number of hours
    from [now()]: none for GMT, 4 for EASTERN, 5 for CENTRAL, 6 for MOUNTAIN,
    7 for ARIZONA and for PACIFIC, each product fitting the 16-bit [int].
    From 25200 seconds on the result is at most [now()]; while [now()] is
    below the offset of the zone the unsigned subtraction wraps and the
    result lies that far below 2^32. *)
Theorem LocalTime_offsets tz c :
  0 <= now c < 4294967296 ->
  let hours := match tz with
               | Part001Sketch.GMT => 0
               | Part001Sketch.EASTERN => 4
               | Part001Sketch.CENTRAL => 5
               | Part001Sketch.MOUNTAIN => 6
               | Part001Sketch.ARIZONA | Part001Sketch.PACIFIC => 7
               end in
  Part001Sketch.LocalTime tz c
  = (if 3600 * hours <=? now c then now c - 3600 * hours
     else now c - 3600 * hours + 4294967296)
  /\ 0 <= Part001Sketch.LocalTime tz c < 4294967296.
Proof.
  intros Hnow hours. unfold Part001Sketch.LocalTime.
  assert (H : forall h, 0 <= h <= 7 ->
            to_time_t (now c - to_int (h * 3600))
            = (if 3600 * h <=? now c then now c - 3600 * h
               else now c - 3600 * h + 4294967296)).
  { intros h Hh. rewrite to_int_small by lia.
    replace (h * 3600) with (3600 * h) by lia.
    destruct (Z.leb_spec (3600 * h) (now c)).
    - apply to_time_t_small. lia.
    - unfold to_time_t.
      replace (now c - 3600 * h) with (now c - 3600 * h + 4294967296 + (-1) * 4294967296) at 1 by lia.
      rewrite Z.mod_add, Z.mod_small by lia. reflexivity. }
  destruct tz; unfold hours; rewrite ?H by lia;
    repeat match goal with |- context [?a <=? ?b] => destruct (Z.leb_spec a b) end;
    lia.
Qed.

Lemma LocalTime_offsets_witness :
  let c := {| timeSet := true; sysTime := 1657985978 |} in
  Part001Sketch.LocalTime Part001Sketch.PACIFIC c
  = (if 3600 * 7 <=? now c then now c - 3600 * 7 else now c - 3600 * 7 + 4294967296)
  /\ 0 <= Part001Sketch.LocalTime Part001Sketch.PACIFIC c < 4294967296.
Proof.
  apply (LocalTime_offsets Part001Sketch.PACIFIC {| timeSet := true; sysTime := 1657985978 |}).
  unfold now. simpl. lia.
Defined.

(** ** GPSTime.ino: the fields [SyncTimeToGPS] reads *)

Lemma String_substring_take s l r :
  0 <= l <= r -> r <= Z.of_nat (length s) -> Z.of_nat (length s) < 65536 ->
  String_substring s l r = take (Z.to_nat (r - l)) (drop (Z.to_nat l) s).
Proof.
  intros Hl Hr Hs. unfold String_substring.
  rewrite !to_uint_small by lia.
  destruct (Z.ltb_spec r l); [lia|].
  destruct (Z.leb_spec (Z.of_nat (length s)) l).
  - rewrite drop_ge by lia. by rewrite take_nil.
  - destruct (Z.ltb_spec (Z.of_nat (length s)) r); [lia|done].
Qed.

Lemma String_substring_from_app a b :
  Z.of_nat (length (a ++ b)) < 65536 ->
  String_substring_from (a ++ b) (Z.of_nat (length a)) = b.
Proof.
  intros Hs. unfold String_substring_from.
  rewrite String_substring_take by (rewrite ?length_app in *; lia).
  rewrite Nat2Z.id, drop_app_length, take_ge; [done|].
  rewrite length_app. lia.
Qed.

Lemma index_from_skip ch f r : forall i,
  Forall (fun c => c <> ch) f ->
  index_from ch (f ++ ch :: r) i = i + Z.of_nat (length f).
Proof.
  induction f as [|c f IH]; intros i Hf; simpl.
  - rewrite Z.eqb_refl. lia.
  - apply Forall_cons in Hf as [Hc Hf].
    destruct (Z.eqb_spec c ch); [done|]. rewrite IH by done. lia.
Qed.

Lemma last_index_from_app ch a b : forall i found,
  last_index_from ch (a ++ b) i found
  = last_index_from ch b (i + Z.of_nat (length a)) (last_index_from ch a i found).
Proof.
  induction a as [|c a IH]; intros i found; simpl.
  - by rewrite Z.add_0_r.
  - rewrite IH. f_equal. lia.
Qed.

Lemma last_index_from_absent ch s : forall i found,
  Forall (fun c => c <> ch) s -> last_index_from ch s i found = found.
Proof.
  induction s as [|c s IH]; intros i found Hs; simpl; [done|].
  apply Forall_cons in Hs as [Hc Hs].
  destruct (Z.eqb_spec c ch); [done|]. by apply IH.
Qed.

Lemma commas_zero f : commas f = 0%nat -> Forall (fun c => c <> ch_comma) f.
Proof.
  unfold commas. intros H. apply Forall_forall. intros c Hc ->.
  apply list_elem_of_In in Hc. apply (count_occ_In Z.eq_dec) in Hc. lia.
Qed.

(** A text with a comma splits at its first comma. *)
Lemma commas_split l k :
  commas l = S k ->
  exists f l', l = f ++ ch_comma :: l' /\ commas f = 0%nat /\ commas l' = k.
Proof.
  unfold commas. induction l as [|c l IH]; simpl; [discriminate|].
  destruct (Z.eq_dec c ch_comma) as [->|Hc].
  - intros [= H]. by exists [], l.
  - intros H. destruct (IH H) as (f & l' & -> & Hf & Hl').
    exists (c :: f), l'. split; [done|]. split; [|done].
    simpl. by destruct (Z.eq_dec c ch_comma).
Qed.

(** One turn of the loop that advances to the next field. *)
Lemma next_field f r :
  commas f = 0%nat ->
  Z.of_nat (length (f ++ ch_comma :: r)) < 65536 ->
  String_substring_from (f ++ ch_comma :: r)
    (String_indexOf (f ++ ch_comma :: r) ch_comma + 1) = r.
Proof.
  intros Hf Hlen. unfold String_indexOf.
  rewrite index_from_skip by (by apply commas_zero).
  replace (0 + Z.of_nat (length f) + 1) with (Z.of_nat (length (f ++ [ch_comma])))
    by (rewrite length_app; simpl; lia).
  replace (f ++ ch_comma :: r) with ((f ++ [ch_comma]) ++ r) in * by (by rewrite <- app_assoc).
  by apply String_substring_from_app.
Qed.

Lemma next_fields k : forall m r,
  commas m = k ->
  Z.of_nat (length (m ++ ch_comma :: r)) < 65536 ->
  Nat.iter (S k)
    (fun sDate => String_substring_from sDate (String_indexOf sDate ch_comma + 1))
    (m ++ ch_comma :: r) = r.
Proof.
  induction k as [|k IH]; intros m r Hm Hlen.
  - simpl. by apply next_field.
  - destruct (commas_split m k Hm) as (f & m' & -> & Hf & Hm').
    rewrite Nat.iter_succ_r. rewrite <- app_assoc. cbn [app].
    rewrite next_field; [|done|by rewrite <- app_assoc in Hlen].
    apply IH; [done|].
    rewrite !length_app in *. simpl in *. lia.
Qed.

Lemma atoi_two_digits a b :
  48 <= a <= 57 -> 48 <= b <= 57 -> String_toInt [a; b] = two_digits a b.
Proof.
  intros Ha%digit_cases Hb%digit_cases.
  repeat (destruct Ha as [->|Ha]); try subst a;
    repeat (destruct Hb as [->|Hb]); try subst b; reflexivity.
Qed.

(** X17: the fields [SyncTimeToGPS] of GPSTime.ino reads.  For a buffer
    whose text is [$GPRMC,], six digits of time, a fraction of at least
    three characters, a comma, seven more fields (a text with exactly six
    commas), a comma, six digits of date, a comma and a rest, with no 'C'
    after the header, shorter than 32768 characters and accepted by
    [CheckSum], the call hands to [makeTime] the hour, minute and second of
    the three digit pairs of the time and the day, month and year of the
    three pairs of the date, the year counted from 1970, and applies the
    result as the time/date event.  Unlike part_001 it does not ask for a
    month, a day or a year above 0. *)
Theorem GPSTime_SyncTimeToGPS_reads_fields makeTime st
    h1 h2 m1 m2 s1 s2 frac mid d1 d2 mo1 mo2 y1 y2 rest junk :
  Forall (fun c => 48 <= c <= 57) [h1; h2; m1; m2; s1; s2; d1; d2; mo1; mo2; y1; y2] ->
  Forall (fun c => c <> 0 /\ c <> 67) (frac ++ mid ++ rest) ->
  commas frac = 0%nat ->
  (3 <= length frac)%nat ->
  commas mid = 6%nat ->
  let sentence :=
    bytes_of "$GPRMC," ++ [h1; h2; m1; m2; s1; s2] ++ frac ++ [ch_comma] ++ mid
    ++ [ch_comma] ++ [d1; d2; mo1; mo2; y1; y2] ++ ch_comma :: rest in
  Z.of_nat (length sentence) < 32768 ->
  CheckSum cast_byte (sentence ++ [0]) = true ->
  GPSTime.SyncTimeToGPS makeTime st (sentence ++ 0 :: junk)
  = GPSTime.apply_epoch st
      (to_time_t
         (makeTime
            {| Second := two_digits s1 s2; Minute := two_digits m1 m2;
               Hour := two_digits h1 h2; Wday := 0;
               Day := two_digits d1 d2; Month := two_digits mo1 mo2;
               Year := two_digits y1 y2 + 30 |})).
Proof.
  intros Hdig Hnz Hfrac Hfrac3 Hmid sentence Hlen Hcs.
  repeat (apply Forall_cons in Hdig as [? Hdig]).
  apply Forall_app in Hnz as [Hnzf Hnz]. apply Forall_app in Hnz as [Hnzm Hnzr].
  set (time6 := [h1; h2; m1; m2; s1; s2]) in *.
  set (date6 := [d1; d2; mo1; mo2; y1; y2]) in *.
  set (D := date6 ++ ch_comma :: rest).
  set (T := (time6 ++ frac ++ [ch_comma] ++ mid) ++ ch_comma :: D).
  assert (Hs : sentence = bytes_of "$GPRMC," ++ T).
  { unfold sentence, T, D. by rewrite <- !app_assoc. }
  assert (Hnz_all : Forall (fun c => c <> 0) sentence).
  { unfold sentence. repeat (apply Forall_app; split).
    - vm_compute. repeat constructor; discriminate.
    - repeat constructor; lia.
    - eapply Forall_impl; [exact Hnzf|]. by intros c [? ?].
    - repeat constructor. unfold ch_comma. lia.
    - eapply Forall_impl; [exact Hnzm|]. by intros c [? ?].
    - repeat constructor. unfold ch_comma. lia.
    - repeat constructor; lia.
    - constructor; [unfold ch_comma; lia|].
      eapply Forall_impl; [exact Hnzr|]. by intros c [? ?]. }
  assert (Hcstr : cstr (sentence ++ 0 :: junk) = sentence).
  { rewrite cstr_app_nonzero by done. simpl. by rewrite app_nil_r. }
  assert (HnoC : Forall (fun c => c <> 67) (ch_comma :: T)).
  { unfold T, D. constructor; [unfold ch_comma; lia|].
    repeat (apply Forall_app; split).
    - repeat constructor; lia.
    - eapply Forall_impl; [exact Hnzf|]. by intros c [? ?].
    - repeat constructor. unfold ch_comma. lia.
    - eapply Forall_impl; [exact Hnzm|]. by intros c [? ?].
    - constructor; [unfold ch_comma; lia|].
      apply Forall_app; split; [repeat constructor; lia|].
      constructor; [unfold ch_comma; lia|].
      eapply Forall_impl; [exact Hnzr|]. by intros c [? ?]. }
  assert (HlenT : Z.of_nat (length T) < 65536).
  { rewrite Hs, length_app in Hlen. lia. }
  unfold GPSTime.SyncTimeToGPS.
  assert (E : GPSTime.rmc_elements (sentence ++ 0 :: junk)
              = Some {| Second := two_digits s1 s2; Minute := two_digits m1 m2;
                        Hour := two_digits h1 h2; Wday := 0;
                        Day := two_digits d1 d2; Month := two_digits mo1 mo2;
                        Year := two_digits y1 y2 + 30 |}); [|by rewrite E].
  unfold GPSTime.rmc_elements.
  assert (Hstr : strstr (sentence ++ 0 :: junk) "$GPRMC" = Some 0).
  { unfold strstr. rewrite Hcstr, Hs.
    change (bytes_of "$GPRMC," ++ T) with (bytes_of "$GPRMC" ++ ch_comma :: T).
    apply strstr_from_prefix. }
  rewrite Hstr, Hcstr. cbv zeta.
  assert (Hlast : String_lastIndexOf sentence (multichar "$GPRMC") = 5).
  { unfold String_lastIndexOf. rewrite Hs.
    change (bytes_of "$GPRMC," ++ T) with (bytes_of "$GPRMC" ++ ch_comma :: T).
    rewrite last_index_from_app.
    change (multichar "$GPRMC") with 67.
    by rewrite last_index_from_absent. }
  rewrite Hlast. change (5 <=? 5) with true. cbv iota. change (5 - 5) with 0.
  assert (Hsub0 : String_substring_from sentence 0 = sentence).
  { apply (String_substring_from_app [] sentence).
    change ([] ++ sentence) with sentence. lia. }
  rewrite Hsub0, Hcs.
  assert (Hidx : String_indexOf sentence (multichar "$GPRMC,") + 1 = 7)
    by (rewrite Hs; reflexivity).
  rewrite Hidx. change (7 =? 7) with true. cbv iota.
  assert (HsubT : String_substring_from sentence 7 = T).
  { rewrite Hs. apply (String_substring_from_app (bytes_of "$GPRMC,") T).
    rewrite <- Hs. lia. }
  rewrite HsubT.
  (* the time *)
  assert (HidxT : String_indexOf T ch_comma = 6 + Z.of_nat (length frac)).
  { unfold T, String_indexOf.
    rewrite <- (app_assoc time6), <- (app_assoc frac). cbn [app].
    rewrite (app_assoc time6 frac).
    rewrite index_from_skip; [rewrite length_app; simpl; lia|].
    apply Forall_app. split; [repeat constructor; unfold ch_comma; lia|].
    by apply commas_zero. }
  rewrite HidxT.
  assert (Htime : exists X,
             String_substring T 0 (6 + Z.of_nat (length frac) - 3) = time6 ++ X
             /\ Z.of_nat (length (time6 ++ X)) < 65536).
  { rewrite String_substring_take;
      [|lia
       |unfold T; rewrite !length_app; simpl; lia
       |done].
    exists (take (length frac - 3) frac).
    change (drop (Z.to_nat 0) T) with T. unfold T.
    replace (Z.to_nat (6 + Z.of_nat (length frac) - 3 - 0)) with (6 + (length frac - 3))%nat by lia.
    rewrite <- !app_assoc. split.
    - change (time6 ++ frac ++ [ch_comma] ++ mid ++ ch_comma :: D)
        with (h1 :: h2 :: m1 :: m2 :: s1 :: s2 :: (frac ++ [ch_comma] ++ mid ++ ch_comma :: D)).
      cbn [take Nat.add]. unfold time6. cbn [app]. do 6 f_equal.
      by rewrite take_app_le by lia.
    - rewrite length_app, length_take. simpl.
      unfold T in HlenT. rewrite !length_app in HlenT. simpl in HlenT. lia. }
  destruct Htime as (X & -> & HlenX).
  assert (Hpair : forall l r a b rest',
             0 <= l -> r = l + 2 ->
             drop (Z.to_nat l) (time6 ++ X) = a :: b :: rest' ->
             String_substring (time6 ++ X) l r = [a; b]).
  { intros l r a b rest' Hl -> Hdrop.
    rewrite String_substring_take; [| lia | | done].
    - rewrite Hdrop. replace (Z.to_nat (l + 2 - l)) with 2%nat by lia. reflexivity.
    - apply (f_equal length) in Hdrop. rewrite length_drop in Hdrop.
      cbn [length] in Hdrop. lia. }
  rewrite (Hpair 4 6 s1 s2 X), (Hpair 2 4 m1 m2 (s1 :: s2 :: X)),
    (Hpair 0 2 h1 h2 (m1 :: m2 :: s1 :: s2 :: X)) by (first [lia|reflexivity]).
  rewrite !atoi_two_digits by done.
  (* the date *)
  cbn [Second Minute Hour].
  assert (Hiter : Nat.iter 8
                    (fun sDate => String_substring_from sDate (String_indexOf sDate ch_comma + 1))
                    T = D).
  { unfold T. apply (next_fields 7); [|by fold T].
    unfold commas in *. rewrite !count_occ_app, Hfrac, Hmid. unfold time6. simpl count_occ.
    repeat (destruct (Z.eq_dec _ ch_comma) as [E|_]; [unfold ch_comma in E; lia|]).
    destruct (Z.eq_dec ch_comma ch_comma); [|done]. simpl. lia. }
  rewrite Hiter.
  assert (HidxD : String_indexOf D ch_comma = 6).
  { unfold D, String_indexOf. rewrite index_from_skip; [reflexivity|].
    repeat constructor; unfold ch_comma; lia. }
  rewrite HidxD.
  assert (HlenD : Z.of_nat (length D) < 65536).
  { unfold T in HlenT. rewrite length_app in HlenT. cbn [length] in HlenT. lia. }
  assert (HsubD : String_substring D 0 6 = date6).
  { rewrite String_substring_take; [reflexivity|lia| |done].
    unfold D. rewrite length_app. simpl. lia. }
  rewrite HsubD. change (Z.of_nat (length date6) =? 6) with true. cbv iota.
  assert (Hd : String_substring date6 0 2 = [d1; d2]
               /\ String_substring date6 2 4 = [mo1; mo2]
               /\ String_substring date6 4 6 = [y1; y2]).
  { repeat split; rewrite String_substring_take; simpl; first [reflexivity|lia]. }
  destruct Hd as (-> & -> & ->).
  rewrite !atoi_two_digits by done.
  pose proof (two_digits_range h1 h2). pose proof (two_digits_range m1 m2).
  pose proof (two_digits_range s1 s2). pose proof (two_digits_range d1 d2).
  pose proof (two_digits_range mo1 mo2). pose proof (two_digits_range y1 y2).
  by rewrite !to_uint8_small by lia.
Qed.

Lemma GPSTime_SyncTimeToGPS_reads_fields_witness :
  let st := GPSTime.boot {| ee_configured := true; ee_lastGPSFix := 0; ee_gpsFixType := 0 |} in
  GPSTime.SyncTimeToGPS makeTime_TimeLib st
    ((bytes_of "$GPRMC," ++ bytes_of "153938" ++ bytes_of ".00" ++ [ch_comma]
      ++ bytes_of "V,,,,,," ++ [ch_comma] ++ bytes_of "160722"
      ++ ch_comma :: (bytes_of ",,N*78" ++ [ch_CR; ch_LF])) ++ 0 :: replicate 159 0)
  = GPSTime.apply_epoch st
      (to_time_t
         (makeTime_TimeLib
            {| Second := two_digits 51 56; Minute := two_digits 51 57;
               Hour := two_digits 49 53; Wday := 0;
               Day := two_digits 49 54; Month := two_digits 48 55;
               Year := two_digits 50 50 + 30 |})).
Proof.
  apply (GPSTime_SyncTimeToGPS_reads_fields makeTime_TimeLib
           (GPSTime.boot {| ee_configured := true; ee_lastGPSFix := 0; ee_gpsFixType := 0 |})
           49 53 51 57 51 56 (bytes_of ".00") (bytes_of "V,,,,,,")
           49 54 48 55 50 50 (bytes_of ",,N*78" ++ [ch_CR; ch_LF]) (replicate 159 0)).
  - repeat constructor; lia.
  - vm_compute. repeat (constructor; [split; discriminate|]). constructor.
  - reflexivity.
  - simpl. lia.
  - reflexivity.
  - simpl. lia.
  - vm_compute. reflexivity.
Defined.

(** ** part_000: the String-based [CheckSum] *)

Lemma fold_left_shift (g : Z -> Z -> Z) (h : Z -> Z) l : forall acc,
  fold_left g (map h l) acc = fold_left (fun a x => g a (h x)) l acc.
Proof. induction l as [|x l IH]; intros acc; simpl; [done|]. apply IH. Qed.

(** The checksum loop over the characters behind the first one. *)
Lemma xor_loop_tail cast x f r :
  xor_loop cast f 0 (Z.of_nat (length f))
  = xor_loop cast (x :: f ++ r) 1 (Z.of_nat (length (x :: f))).
Proof.
  unfold xor_loop. rewrite Z.sub_0_r.
  replace (Z.of_nat (length (x :: f)) - 1) with (Z.of_nat (length f)) by (simpl; lia).
  change (seqZ 1 (Z.of_nat (length f))) with (seqZ (1 + 0) (Z.of_nat (length f))).
  rewrite <- (fmap_add_seqZ 1 0).
  change (Z.add 1 <$> seqZ 0 (Z.of_nat (length f)))
    with (map (Z.add 1) (seqZ 0 (Z.of_nat (length f)))).
  rewrite fold_left_shift. apply fold_xor_ext, Forall_seqZ.
  intros j Hj. f_equal.
  replace (1 + j) with (Z.of_nat (length [x] + Z.to_nat j)) by (simpl; lia).
  rewrite (char_at_app_r [x] (f ++ r)), app_nth1 by lia.
  unfold char_at. by destruct (Z.ltb_spec j 0); [lia|].
Qed.

(** [substring] clips its right end to the length. *)
Lemma String_substring_clip s l r :
  0 <= l <= r -> r < 65536 -> Z.of_nat (length s) < 65536 ->
  String_substring s l r = take (Z.to_nat (r - l)) (drop (Z.to_nat l) s).
Proof.
  intros Hl Hr Hs. unfold String_substring.
  rewrite !to_uint_small by lia.
  destruct (Z.ltb_spec r l); [lia|].
  destruct (Z.leb_spec (Z.of_nat (length s)) l).
  - rewrite drop_ge by lia. by rewrite take_nil.
  - destruct (Z.ltb_spec (Z.of_nat (length s)) r); [|done].
    rewrite !take_ge; [done|rewrite length_drop; lia|rewrite length_drop; lia].
Qed.

(** The pointer-based [CheckSum] on a packet split at its first asterisk. *)
Lemma CheckSum_first_star cast f r junk :
  Forall (fun c => c <> 0) (f ++ r) ->
  ch_star ∉ f ->
  f <> [] ->
  CheckSum cast (f ++ ch_star :: r ++ 0 :: junk)
  = (10 <? Z.of_nat (length f) + 1 + Z.of_nat (length r))
    && (char_at (r ++ [0]) 0
        =? char_at (sprintf_02X (xor_loop cast f 1 (Z.of_nat (length f)))) 0).
Proof.
  intros Hnz Hstar Hf. apply Forall_app in Hnz as [Hnzf Hnzr].
  set (p := f ++ ch_star :: r ++ 0 :: junk).
  assert (Hsize : strlen p = Z.of_nat (length f) + 1 + Z.of_nat (length r)).
  { unfold strlen, p. rewrite cstr_app_nonzero by done.
    change (ch_star :: r ++ 0 :: junk) with ((ch_star :: r) ++ 0 :: junk).
    rewrite cstr_app_nonzero by (constructor; [unfold ch_star; lia|done]).
    simpl cstr. rewrite app_nil_r, length_app. simpl. lia. }
  assert (Hfind : find_asterisk p (seqZ 0 (strlen p)) = Z.of_nat (length f)).
  { rewrite Hsize, <- Z.add_assoc, seqZ_app by lia.
    rewrite find_asterisk_skip.
    - rewrite seqZ_cons by lia. cbn [find_asterisk].
      assert (E : char_at p (0 + Z.of_nat (length f)) = ch_star).
      { replace (0 + Z.of_nat (length f)) with (Z.of_nat (length f + 0)) by lia.
        unfold p. rewrite char_at_app_r. reflexivity. }
      rewrite E, Z.eqb_refl. lia.
    - apply Forall_seqZ. intros x Hx. unfold p.
      rewrite char_at_app_l by lia. intros E. apply Hstar. rewrite <- E.
      apply char_at_in. lia. }
  unfold CheckSum. fold p. rewrite Hfind, Hsize.
  destruct (10 <? _); [|done]. cbn [andb].
  assert (0 < Z.of_nat (length f)) by (destruct f; [done|simpl; lia]).
  destruct (Z.ltb_spec 0 (Z.of_nat (length f))); [|lia].
  rewrite (xor_loop_ext cast p f) by (intros x Hx; apply char_at_app_l; lia).
  f_equal.
  change (char_at [char_at p (Z.of_nat (length f) + 1);
                   char_at p (Z.of_nat (length f) + 2); 0] 0)
    with (char_at p (Z.of_nat (length f) + 1)).
  replace (Z.of_nat (length f) + 1) with (Z.of_nat (length f + 1)) by lia.
  unfold p. rewrite char_at_app_r. simpl.
  destruct r; reflexivity.
Qed.

(** X18: the [CheckSum] of part_000, which works on a [String], compares
    both digits.  On a text without NUL, shorter than 32768 characters and
    split at its first asterisk, it returns true exactly when the text is
    longer than 10 characters, the asterisk is not its first character and
    the two characters after the asterisk are the two digits [sprintf]
    writes for the XOR of the characters between offset 1 and the asterisk.
    Whatever it accepts, the pointer-based [CheckSum] of GPSTime.ino
    accepts as well. *)
Theorem Part000_CheckSum_both_digits f r :
  Forall (fun c => c <> 0) (f ++ r) ->
  ch_star ∉ f ->
  Z.of_nat (length (f ++ ch_star :: r)) < 32768 ->
  let Calc := sprintf_02X (xor_loop cast_byte f 1 (Z.of_nat (length f))) in
  Part000.CheckSum (f ++ ch_star :: r)
  = (10 <? Z.of_nat (length (f ++ ch_star :: r)))
    && (0 <? Z.of_nat (length f))
    && bool_decide (take 2 r = [char_at Calc 0; char_at Calc 1])
  /\ (Part000.CheckSum (f ++ ch_star :: r) = true ->
      forall junk, CheckSum cast_byte (f ++ ch_star :: r ++ 0 :: junk) = true).
Proof.
  intros Hnz Hstar Hlen Calc.
  set (s := f ++ ch_star :: r) in *.
  assert (Hidx : String_indexOf s ch_star = Z.of_nat (length f)).
  { unfold String_indexOf, s. rewrite index_from_skip; [lia|].
    apply Forall_forall. intros c Hc ->. done. }
  assert (Hbyte : 0 <= xor_loop cast_byte f 1 (Z.of_nat (length f)) < 256)
    by apply xor_loop_byte_range.
  assert (HCalc : cstr Calc = [char_at Calc 0; char_at Calc 1]).
  { unfold Calc. rewrite sprintf_02X_two by done. cbn [char_at nth Z.ltb Z.to_nat].
    assert (0 <= xor_loop cast_byte f 1 (Z.of_nat (length f)) / 16)
      by (apply Z.div_pos; lia).
    assert (0 <= xor_loop cast_byte f 1 (Z.of_nat (length f)) mod 16)
      by (apply Z.mod_pos_bound; lia).
    simpl cstr.
    destruct (Z.eqb_spec (hexdigit (xor_loop cast_byte f 1 (Z.of_nat (length f)) / 16)) 0) as [E|_];
      [by apply hexdigit_nonzero in E|].
    destruct (Z.eqb_spec (hexdigit (xor_loop cast_byte f 1 (Z.of_nat (length f)) mod 16)) 0) as [E|_];
      [by apply hexdigit_nonzero in E|].
    reflexivity. }
  assert (Hmain : Part000.CheckSum s
                  = (10 <? Z.of_nat (length s)) && (0 <? Z.of_nat (length f))
                    && bool_decide (take 2 r = [char_at Calc 0; char_at Calc 1])).
  { unfold Part000.CheckSum. rewrite Hidx.
    destruct (10 <? Z.of_nat (length s)); [|done]. cbn [andb].
    destruct (Z.ltb_spec 0 (Z.of_nat (length f))) as [Hpos|]; [|done]. cbn [andb].
    destruct f as [|x f']; [simpl in Hpos; lia|].
    assert (HsCS : String_substring s (Z.of_nat (length (x :: f')) + 1)
                     (Z.of_nat (length (x :: f')) + 3) = take 2 r).
    { rewrite String_substring_clip; [| lia | | lia].
      - replace (Z.to_nat (Z.of_nat (length (x :: f')) + 3 - (Z.of_nat (length (x :: f')) + 1)))
          with 2%nat by lia.
        replace (Z.to_nat (Z.of_nat (length (x :: f')) + 1))
          with (length ((x :: f') ++ [ch_star])) by (rewrite length_app; simpl; lia).
        unfold s. replace ((x :: f') ++ ch_star :: r) with (((x :: f') ++ [ch_star]) ++ r)
          by (by rewrite <- app_assoc).
        by rewrite drop_app_length.
      - unfold s in Hlen. rewrite length_app in Hlen. simpl in *. lia. }
    assert (HsP : String_substring s 1 (Z.of_nat (length (x :: f'))) = f').
    { rewrite String_substring_clip; [| simpl; lia | | lia].
      - change (drop (Z.to_nat 1) s) with (f' ++ ch_star :: r).
        replace (Z.to_nat (Z.of_nat (length (x :: f')) - 1)) with (length f')
          by (simpl; lia).
        by rewrite take_app_length.
      - unfold s in Hlen. rewrite length_app in Hlen. simpl in *. lia. }
    rewrite HsCS, HsP.
    rewrite (xor_loop_tail cast_byte x f' []), app_nil_r.
    fold Calc. by rewrite HCalc. }
  split; [exact Hmain|].
  rewrite Hmain. intros H junk.
  apply andb_true_iff in H as [H Hd]. apply andb_true_iff in H as [H10 Hpos].
  apply bool_decide_eq_true in Hd.
  rewrite CheckSum_first_star; [|done|done|].
  2:{ intros ->. simpl in Hpos. discriminate. }
  apply andb_true_iff. split.
  - unfold s in H10. rewrite length_app in H10. simpl length in H10.
    apply Z.ltb_lt in H10. apply Z.ltb_lt. lia.
  - apply Z.eqb_eq. fold Calc. destruct r as [|a r]; [discriminate|].
    destruct r; [discriminate|]. simpl in Hd. injection Hd as -> _. reflexivity.
Qed.

Lemma Part000_CheckSum_both_digits_witness :
  let f := bytes_of "$GPRMC,153938.00,V,,,,,,,160722,,,N" in
  let r := bytes_of "78" ++ [ch_CR; ch_LF] in
  let Calc := sprintf_02X (xor_loop cast_byte f 1 (Z.of_nat (length f))) in
  Part000.CheckSum (f ++ ch_star :: r)
  = (10 <? Z.of_nat (length (f ++ ch_star :: r)))
    && (0 <? Z.of_nat (length f))
    && bool_decide (take 2 r = [char_at Calc 0; char_at Calc 1])
  /\ (Part000.CheckSum (f ++ ch_star :: r) = true ->
      forall junk, CheckSum cast_byte (f ++ ch_star :: r ++ 0 :: junk) = true).
Proof.
  apply (Part000_CheckSum_both_digits
           (bytes_of "$GPRMC,153938.00,V,,,,,,,160722,,,N") (bytes_of "78" ++ [ch_CR; ch_LF])).
  - vm_compute. repeat (constructor; [discriminate|]). constructor.
  - vm_compute. intros H. repeat (apply elem_of_cons in H as [H|H]; [lia|]).
    by apply elem_of_nil in H.
  - simpl. lia.
Defined.

(** ** part_000: a full buffer *)

(** Below the size of the buffer, an iteration of part_000 is the iteration
    of GPSTime.ino. *)
Lemma Part000_loop_body_sim f c :
  0 <= packetOffset f < sizeof_gpsResponse Sk_GPSTime ->
  Part000Sketch.loop_body
    {| Part000Sketch.buildingSentence := buildingSentence f;
       Part000Sketch.response := gpsResponse f;
       Part000Sketch.packetOffset := packetOffset f |} c
  = match loop_body Sk_GPSTime f c with
    | Some (f', full, ev) =>
        Some ({| Part000Sketch.buildingSentence := buildingSentence f';
                 Part000Sketch.response := gpsResponse f';
                 Part000Sketch.packetOffset := packetOffset f' |}, full, ev)
    | None => None
    end.
Proof.
  intros Hpo. unfold Part000Sketch.loop_body, loop_body.
  cbn [Part000Sketch.packetOffset Part000Sketch.response Part000Sketch.buildingSentence].
  change Part000Sketch.sizeof_response with 200.
  change (sizeof_gpsResponse Sk_GPSTime) with 200 in *.
  rewrite (to_uint_small (packetOffset f)) by lia.
  destruct (Z.leb_spec 200 (packetOffset f)); [lia|].
  destruct (c =? ch_dollar).
  - destruct (store _ 0 c); reflexivity.
  - destruct (store (gpsResponse f) (packetOffset f) c) as [buf1|]; [|reflexivity].
    cbn [mbind option_bind].
    destruct (2 <? packetOffset f); [|reflexivity].
    destruct (load buf1 (packetOffset f - 1)) as [a|]; [|reflexivity].
    cbn [mbind option_bind].
    destruct (a =? ch_CR); [|reflexivity].
    destruct (load buf1 (packetOffset f)) as [b|]; [|reflexivity].
    cbn [mbind option_bind].
    destruct (b =? ch_LF); reflexivity.
Qed.

(** The frame of part_000 after a start marker and the bytes [body]. *)
Lemma Part000_read_loop_frame q : forall acc,
  ch_dollar ∉ q ->
  Z.of_nat (length acc) + Z.of_nat (length q) + 1 <= 200 ->
  (forall b1 c b2, q = b1 ++ c :: b2 -> completesb (acc ++ b1) c = false) ->
  Part000Sketch.read_loop
    {| Part000Sketch.buildingSentence := true;
       Part000Sketch.response := padded Sk_GPSTime (ch_dollar :: acc);
       Part000Sketch.packetOffset := 1 + Z.of_nat (length acc) |} q
  = Some ({| Part000Sketch.buildingSentence := true;
             Part000Sketch.response := padded Sk_GPSTime (ch_dollar :: acc ++ q);
             Part000Sketch.packetOffset := 1 + Z.of_nat (length (acc ++ q)) |},
          false, [], []).
Proof.
  induction q as [|c q IH]; intros acc Hd Hroom Hall.
  - by rewrite app_nil_r.
  - simpl in Hroom. apply not_elem_of_cons in Hd as [Hc Hd].
    cbn [Part000Sketch.read_loop Part000Sketch.packetOffset].
    rewrite to_uint_small by lia.
    change Part000Sketch.sizeof_response with 200.
    destruct (Z.ltb_spec (1 + Z.of_nat (length acc)) 200); [|lia].
    pose proof (Part000_loop_body_sim (frame_of Sk_GPSTime acc) c) as Hsim.
    cbn [frame_of buildingSentence gpsResponse packetOffset] in Hsim.
    rewrite Hsim by (change (sizeof_gpsResponse Sk_GPSTime) with 200; lia).
    fold (frame_of Sk_GPSTime acc).
    destruct (loop_body_append Sk_GPSTime acc c) as (f1 & -> & Hopen & _);
      [change (sizeof_gpsResponse Sk_GPSTime) with 200; lia|done|].
    pose proof (Hall [] c q eq_refl) as E. rewrite app_nil_r in E.
    rewrite E, (Hopen E). cbn [frame_of buildingSentence gpsResponse packetOffset].
    rewrite (IH (acc ++ [c])).
    + by rewrite <- !app_assoc.
    + done.
    + rewrite length_app. simpl. lia.
    + intros b1 c' b2 ->. rewrite <- app_assoc. by apply (Hall (c :: b1) c' b2).
Qed.

Lemma no_crlf_tail s : no_crlf s = true -> no_crlf (tail s) = true.
Proof.
  destruct s as [|a s]; [done|]. simpl. destruct s; [done|].
  by intros [_ ?]%andb_true_iff.
Qed.

(** X19: in part_000 a buffer that fills up while a sentence is being built
    stops the framing for good.  After a start marker and 199 bytes with
    neither a start marker nor a terminator pair, [packetOffset] is 200 and
    [buildingSentence] is set; from then on, whatever arrives in whatever
    bursts, no pass of [loop] reads a byte from the port, changes the frame
    or completes a sentence: the guard of the [while] loop is false and the
    buffer is only cleared when no sentence is being built. *)
Theorem Part000_full_buffer_stalls body :
  ch_dollar ∉ body ->
  length body = 199%nat ->
  no_crlf body = true ->
  let full := {| Part000Sketch.buildingSentence := true;
                 Part000Sketch.response := ch_dollar :: body;
                 Part000Sketch.packetOffset := 200 |} in
  Part000Sketch.passes Part000Sketch.frame_init [] [ch_dollar :: body] = Some (full, [], 0%nat)
  /\ forall port bursts,
       Part000Sketch.passes full port bursts = Some (full, port ++ concat bursts, 0%nat).
Proof.
  intros Hd Hlen Hno full. split.
  - cbn [Part000Sketch.passes app Part000Sketch.frame_pass Part000Sketch.frame_init
         Part000Sketch.buildingSentence negb].
    cbn [Part000Sketch.read_loop Part000Sketch.packetOffset].
    change (to_uint 0 <? Part000Sketch.sizeof_response) with true. cbv iota.
    assert (E : Part000Sketch.loop_body
                  {| Part000Sketch.buildingSentence := false;
                     Part000Sketch.response := memset0 Part000Sketch.sizeof_response;
                     Part000Sketch.packetOffset := 0 |} ch_dollar
                = Some ({| Part000Sketch.buildingSentence := true;
                           Part000Sketch.response := padded Sk_GPSTime (ch_dollar :: []);
                           Part000Sketch.packetOffset := 1 + Z.of_nat (length (@nil Z)) |},
                        false, [])) by reflexivity.
    rewrite E.
    rewrite (Part000_read_loop_frame body []); [|done|simpl; lia|].
    2:{ intros b1 c b2 Hb. cbn [app]. destruct (completesb b1 c) eqn:Ec; [|done].
        destruct (closed_terminated body b1 c b2 Hb Ec).
        by apply no_crlf_unterminated, no_crlf_tail. }
    cbn [app]. unfold full, padded. rewrite Hlen.
    change (Z.to_nat (sizeof_gpsResponse Sk_GPSTime)) with 200%nat.
    cbn [length]. rewrite Hlen. cbn [Nat.sub replicate]. rewrite app_nil_r.
    reflexivity.
  - intros port bursts. revert port.
    induction bursts as [|b bursts IH]; intros port.
    + simpl. by rewrite app_nil_r.
    + cbn [Part000Sketch.passes concat].
      assert (E : Part000Sketch.frame_pass full (port ++ b) = Some (full, false, port ++ b, [])).
      { unfold Part000Sketch.frame_pass. by destruct (port ++ b). }
      rewrite E, IH. by rewrite app_assoc.
Qed.

Lemma Part000_full_buffer_stalls_witness :
  let body := replicate 199 65 in
  let full := {| Part000Sketch.buildingSentence := true;
                 Part000Sketch.response := ch_dollar :: body;
                 Part000Sketch.packetOffset := 200 |} in
  Part000Sketch.passes Part000Sketch.frame_init [] [ch_dollar :: body] = Some (full, [], 0%nat)
  /\ forall port bursts,
       Part000Sketch.passes full port bursts = Some (full, port ++ concat bursts, 0%nat).
Proof.
  apply (Part000_full_buffer_stalls (replicate 199 65)).
  - intros [H _]%elem_of_replicate. unfold ch_dollar in H. lia.
  - reflexivity.
  - reflexivity.
Defined.
